(** * SarcasmDetector: the BERT -> CNN -> BiLSTM -> dense model and its
      training loop (main.py).

    Tensors of activations are nested lists (their lengths are the tensor's
    shape); parameter tensors are functions from a multi-index to a value,
    named as PyTorch names them.

    The layers are given twice.  Over the real numbers, in exact
    arithmetic, for what concerns the structure of the computation: shapes,
    which value depends on which, effects and their order, errors.  And
    over binary32 values (a finite number, an infinity or NaN) with a
    rounding that is a parameter, for what depends on the range of the
    numbers: the values the forward pass returns.  The loss that the loop
    accumulates is a Python float: a real number, or NaN. *)

From Stdlib Require Import String Reals Lra Lia Bool Arith ZArith QArith Qabs Qreals List.
Import ListNotations.

Close Scope Q_scope.
Local Open Scope R_scope.

(* ================================================================== *)
(** * Python outcomes *)

Inductive exn : Type :=
| TypeError | ValueError | OverflowError | RuntimeError | IndexError
| ZeroDivisionError | OSError.

Inductive result (A : Type) : Type :=
| Ok (a : A)
| Raise (e : exn).
Arguments Ok {A} a.
Arguments Raise {A} e.

Definition rbind {A B} (r : result A) (k : A -> result B) : result B :=
  match r with
  | Ok a => k a
  | Raise e => Raise e
  end.

Fixpoint mapM {A B} (f : A -> result B) (l : list A) : result (list B) :=
  match l with
  | [] => Ok []
  | a :: l' => rbind (f a) (fun b => rbind (mapM f l') (fun bs => Ok (b :: bs)))
  end.

(** A Python float as the loop sees it: a real number, or NaN. *)
Inductive pyfloat : Type :=
| Fl (r : R)
| NaN.

Definition fl_add (a b : pyfloat) : pyfloat :=
  match a, b with
  | Fl x, Fl y => Fl (x + y)
  | _, _ => NaN
  end.

(** [a / n] for a Python number [a] and an integer [n = len(...)]. *)
Definition py_div (a : pyfloat) (n : nat) : result pyfloat :=
  match n with
  | O => Raise ZeroDivisionError
  | S _ => Ok (match a with Fl x => Fl (x / INR n) | NaN => NaN end)
  end.

(* ================================================================== *)
(** * Architecture constants ([SarcasmDetector.__init__]) *)

Module Arch.
Definition bert_dim : nat := 768.
Definition cnn_out_channels : nat := 256.
Definition lstm_hidden_size : nat := 128.
Definition dense_hidden_size : nat := 64.
Definition num_classes : nat := 2.
Definition kernel_size : nat := 3.
Definition padding : nat := 1.
End Arch.

(* ================================================================== *)
(** * Tensors *)

(** A parameter tensor, read at a multi-index. *)
Definition tensor : Type := list nat -> R.

Abbreviation vec := (list R) (only parsing).
Abbreviation mat := (list (list R)) (only parsing).

Definition rsum (l : list R) : R := fold_right Rplus 0 l.

(** Inner product of a weight row with an activation vector. *)
Definition dot (w : nat -> R) (x : vec) : R :=
  rsum (map (fun i => w i * nth i x 0) (seq 0 (length x))).

Definition relu (x : R) : R := Rmax 0 x.

Definition sigmoid (x : R) : R := 1 / (1 + exp (- x)).

(** [x.permute(0, 2, 1)] on one example of the batch: swap its two axes.
    The number of columns is read off the first row, so this is the
    permutation of a matrix that has at least one row. *)
Definition permute (x : mat) : mat :=
  map (fun j => map (fun row => nth j row 0) x) (seq 0 (length (hd [] x))).

(** The same on a tensor whose rows have [width] entries, also when it has
    no row: a tensor of shape (0, width) becomes [width] empty rows. *)
Definition permute_from (width : nat) (x : mat) : mat :=
  match x with
  | [] => repeat [] width
  | _ :: _ => permute x
  end.

(** [shape x r c]: [x] has [r] rows of [c] entries each. *)
Definition shape {A} (x : list (list A)) (r c : nat) : Prop :=
  length x = r /\ Forall (fun row => length row = c) x.

(* ------------------------------------------------------------------ *)
(** ** nn.Conv1d *)

Definition pad (p : nat) (ch : vec) : vec := repeat 0 p ++ ch ++ repeat 0 p.

(** One example, channel-first ([in_ch] channels of [L] samples); stride 1,
    dilation 1.  The output has [L + 2p - (k - 1)] samples per channel. *)
Definition conv1d (in_ch out_ch k p : nat) (W b : tensor) (x : mat)
  : result mat :=
  if negb (length x =? in_ch)%nat then Raise RuntimeError
  else
    let L := length (hd [] x) in
    if (L + 2 * p <? k)%nat then Raise RuntimeError
    else
      Ok (map (fun o =>
            map (fun t =>
                   b [o] +
                   rsum (map (fun c =>
                     rsum (map (fun j =>
                       W [o; c; j] * nth (t + j) (pad p (nth c x [])) 0)
                       (seq 0 k)))
                     (seq 0 in_ch)))
                (seq 0 (L + 2 * p - (k - 1))))
            (seq 0 out_ch)).

(* ------------------------------------------------------------------ *)
(** ** nn.Dropout and the dropout between LSTM layers *)

(** Whether unit [j] survives: with [p = 0] every unit does, with [p = 1]
    none, otherwise the random draw [keep j] decides. *)
Definition kept (p : Q) (keep : nat -> bool) (j : nat) : bool :=
  if Qeq_bool p 0 then true
  else if Qeq_bool p 1 then false
  else keep j.

Definition dropout (training : bool) (p : Q) (keep : nat -> bool) (x : vec)
  : vec :=
  if training then
    map (fun j => if kept p keep j then nth j x 0 / (1 - Q2R p) else 0)
        (seq 0 (length x))
  else x.

(* ------------------------------------------------------------------ *)
(** ** nn.LSTM: 2 layers, bidirectional, batch_first *)

Record lstm_weights : Type := {
  weight_ih : tensor;
  weight_hh : tensor;
  bias_ih : tensor;
  bias_hh : tensor
}.

(** Row [r] of the stacked gate pre-activations (rows are i, f, g, o). *)
Definition gate (P : lstm_weights) (x h : vec) (r : nat) : R :=
  bias_ih P [r] + dot (fun c => weight_ih P [r; c]) x +
  (bias_hh P [r] + dot (fun c => weight_hh P [r; c]) h).

Definition lstm_cell (H : nat) (P : lstm_weights) (x : vec) (hc : vec * vec)
  : vec * vec :=
  let h := fst hc in
  let c := snd hc in
  let c' :=
    map (fun j =>
           sigmoid (gate P x h (H + j)) * nth j c 0 +
           sigmoid (gate P x h j) * tanh (gate P x h (2 * H + j)))
        (seq 0 H) in
  let h' :=
    map (fun j => sigmoid (gate P x h (3 * H + j)) * tanh (nth j c' 0))
        (seq 0 H) in
  (h', c').

(** One direction over a sequence: the hidden state after every step, and
    the state after the last one. *)
Fixpoint lstm_scan (H : nat) (P : lstm_weights) (xs : mat) (hc : vec * vec)
  : mat * (vec * vec) :=
  match xs with
  | [] => ([], hc)
  | x :: xs' =>
      let hc' := lstm_cell H P x hc in
      let r := lstm_scan H P xs' hc' in
      (fst hc' :: fst r, snd r)
  end.

Definition zero_state (H : nat) : vec * vec := (repeat 0 H, repeat 0 H).

(** A bidirectional layer: per time step, forward output followed by the
    backward output for the same position; and the two final hidden states. *)
Definition lstm_layer (H : nat) (Pf Pb : lstm_weights) (xs : mat)
  : mat * list vec :=
  let f := lstm_scan H Pf xs (zero_state H) in
  let b := lstm_scan H Pb (rev xs) (zero_state H) in
  (map (fun fb => fst fb ++ snd fb) (combine (fst f) (rev (fst b))),
   [fst (snd f); fst (snd b)]).

Definition indexed {A} (l : list A) : list (nat * A) :=
  combine (seq 0 (length l)) l.

(** The input of the second layer: the output of the first, after the
    dropout between the layers. *)
Definition lstm_mid (H : nat) (P : nat -> bool -> lstm_weights)
    (training : bool) (p : Q) (keep : nat -> nat -> bool) (xs : mat) : mat :=
  map (fun tr => dropout training p (keep (fst tr)) (snd tr))
      (indexed (fst (lstm_layer H (P 0%nat false) (P 0%nat true) xs))).

(** [lstm_out, (h_n, _) = self.lstm(xs)] for one example; [h_n] lists the
    final hidden states: layer 0 forward and backward, layer 1 forward and
    backward.  A sequence of length 0 is refused, and so is an input whose
    rows do not have [in_size] entries. *)
Definition lstm (in_size H : nat) (P : nat -> bool -> lstm_weights)
    (training : bool) (p : Q) (keep : nat -> nat -> bool) (xs : mat)
  : result (mat * list vec) :=
  match xs with
  | [] => Raise RuntimeError
  | _ :: _ =>
      if forallb (fun row => length row =? in_size)%nat xs then
        let l0 := lstm_layer H (P 0%nat false) (P 0%nat true) xs in
        let l1 := lstm_layer H (P 1%nat false) (P 1%nat true)
                             (lstm_mid H P training p keep xs) in
        Ok (fst l1, snd l0 ++ snd l1)
      else Raise RuntimeError
  end.

(** [t[-1]] along the time axis. *)
Definition last_step (xs : mat) : result vec :=
  match rev xs with
  | [] => Raise IndexError
  | r :: _ => Ok r
  end.

(* ------------------------------------------------------------------ *)
(** ** nn.Linear, nn.Softmax(dim=1) *)

Definition linear (in_f out_f : nat) (W b : tensor) (x : vec) : result vec :=
  if (length x =? in_f)%nat then
    Ok (map (fun o => b [o] + dot (fun c => W [o; c]) x) (seq 0 out_f))
  else Raise RuntimeError.

(** exp(z_i) / sum_j exp(z_j) over one row. *)
Definition softmax (row : vec) : vec :=
  map (fun z => exp z / rsum (map exp row)) row.

(* ================================================================== *)
(** * The module state *)

Inductive lstm_slot : Type := WeightIh | WeightHh | BiasIh | BiasHh.

(** Names of the parameter tensors, as [named_parameters()] lists them:
    [bert.*], [conv1d.weight], [lstm.weight_ih_l0_reverse], ... *)
Inductive pname : Type :=
| BertP (i : nat)
| ConvWeight
| ConvBias
| LstmP (s : lstm_slot) (layer : nat) (reverse : bool)
| Dense1Weight
| Dense1Bias
| Dense2Weight
| Dense2Bias.

Definition lstm_slot_eqb (a b : lstm_slot) : bool :=
  match a, b with
  | WeightIh, WeightIh | WeightHh, WeightHh
  | BiasIh, BiasIh | BiasHh, BiasHh => true
  | _, _ => false
  end.

Definition pname_eqb (a b : pname) : bool :=
  match a, b with
  | BertP i, BertP j => (i =? j)%nat
  | ConvWeight, ConvWeight | ConvBias, ConvBias
  | Dense1Weight, Dense1Weight | Dense1Bias, Dense1Bias
  | Dense2Weight, Dense2Weight | Dense2Bias, Dense2Bias => true
  | LstmP s l r, LstmP s' l' r' =>
      lstm_slot_eqb s s' && (l =? l')%nat && Bool.eqb r r'
  | _, _ => false
  end.

Definition is_encoder (n : pname) : bool :=
  match n with
  | BertP _ => true
  | _ => false
  end.

Inductive submodule : Type :=
| MSelf | MBert | MConv1d | MLstm | MDense1 | MDense2 | MDropout | MRelu | MSoftmax.

Record SarcasmDetector : Type := {
  params : pname -> tensor;
  requires_grad : pname -> bool;
  grad : pname -> option tensor;
  training : submodule -> bool;
  dropout_rate : Q
}.

Definition lstm_params (m : SarcasmDetector) (layer : nat) (reverse : bool)
  : lstm_weights :=
  {| weight_ih := params m (LstmP WeightIh layer reverse);
     weight_hh := params m (LstmP WeightHh layer reverse);
     bias_ih := params m (LstmP BiasIh layer reverse);
     bias_hh := params m (LstmP BiasHh layer reverse) |}.

Definition lstm_param_names : list pname :=
  flat_map (fun lr =>
    map (fun s => LstmP s (fst lr) (snd lr)) [WeightIh; WeightHh; BiasIh; BiasHh])
    [(0%nat, false); (0%nat, true); (1%nat, false); (1%nat, true)].

(** The parameters of the layers after the encoder. *)
Definition head_param_names : list pname :=
  [ConvWeight; ConvBias] ++ lstm_param_names ++
  [Dense1Weight; Dense1Bias; Dense2Weight; Dense2Bias].

(** The random draws of one forward pass in training mode. *)
Record noise : Type := {
  bert_seed : nat;
  lstm_keep : nat -> nat -> nat -> bool;
  head_keep : nat -> nat -> bool
}.

Record batch : Type := {
  input_ids : list (list Z);
  attention_mask : list (list Z);
  labels : list Z
}.

Declare Scope result_scope.
Delimit Scope result_scope with result.
Notation "x <- c1 ;; c2" := (rbind c1 (fun x => c2))
  (at level 61, c1 at next level, right associativity) : result_scope.

(* ------------------------------------------------------------------ *)
(** ** The forward computation after the encoder (main.py, lines 55-69) *)

Section ForwardData.
Import Arch.
Local Open Scope result_scope.

Variable m : SarcasmDetector.
Variable w : noise.

(** lines 56-58: [lstm_in] from [bert_embeddings], whose last axis has the
    [bert_dim] entries of the encoder's hidden size. *)
Definition cnn_stage (bert_embeddings : list mat) : result (list mat) :=
  let cnn_in := map (permute_from bert_dim) bert_embeddings in
  conv <- mapM (conv1d bert_dim cnn_out_channels kernel_size padding
                  (params m ConvWeight) (params m ConvBias)) cnn_in ;;
  let cnn_out := map (map (map relu)) conv in
  Ok (map permute cnn_out).

(** line 61: the pair [self.lstm] returns, per example. *)
Definition lstm_stage (lstm_in : list mat) : result (list (mat * list vec)) :=
  mapM (fun bx =>
          lstm cnn_out_channels lstm_hidden_size (lstm_params m)
               (training m MLstm) (dropout_rate m) (lstm_keep w (fst bx))
               (snd bx))
       (indexed lstm_in).

(** line 62: [lstm_out[:, -1, :]]. *)
Definition final_hidden_of (lstm_out : list mat) : result (list vec) :=
  mapM last_step lstm_out.

(** lines 65-68. *)
Definition head_stage (final_hidden : list vec) : result (list vec) :=
  x <- mapM (linear (lstm_hidden_size * 2) dense_hidden_size
               (params m Dense1Weight) (params m Dense1Bias)) final_hidden ;;
  let x := map (map relu) x in
  let x := map (fun br =>
                  dropout (training m MDropout) (dropout_rate m)
                          (head_keep w (fst br)) (snd br))
               (indexed x) in
  mapM (linear dense_hidden_size num_classes
          (params m Dense2Weight) (params m Dense2Bias)) x.

Definition aggregated_state (bert_embeddings : list mat) : result (list vec) :=
  lstm_in <- cnn_stage bert_embeddings ;;
  r <- lstm_stage lstm_in ;;
  final_hidden_of (map fst r).

Definition logits_of (bert_embeddings : list mat) : result (list vec) :=
  final_hidden <- aggregated_state bert_embeddings ;;
  head_stage final_hidden.

Definition predictions_of (bert_embeddings : list mat) : result (list vec) :=
  logits <- logits_of bert_embeddings ;;
  Ok (map softmax logits).
End ForwardData.

(* ================================================================== *)
(** * The interpreter state and its monad *)

(** What the training loop does that an observer can see, in order. *)
Inductive event : Type :=
| EvTrain
| EvToDevice
| EvZeroGrad
| EvEncoder (grad_enabled encoder_training : bool)
| EvForward (predictions : list vec)
| EvCriterion (inputs : list vec) (target : list Z) (loss : pyfloat)
| EvBackward
| EvStep.

(** A tensor that came out of the model, with the parameters autograd would
    reach from it (those that were read while gradients were being tracked
    and that require a gradient). *)
Record tvar (A : Type) : Type := {
  data : A;
  leaves : list pname
}.
Arguments data {A} t.
Arguments leaves {A} t.

Section Training.
(** The pretrained encoder: parameters, its training flag, the random seed
    of its dropout, token ids and attention mask. *)
Variable bert :
  (nat -> tensor) -> bool -> nat -> list (list Z) -> list (list Z) ->
  result (list mat).
(** Number of parameter tensors of the encoder. *)
Variable bert_size : nat.
(** The loss function handed to [train_epoch]. *)
Variable criterion : list vec -> list Z -> result pyfloat.
(** The gradient of that loss with respect to a parameter, as
    [loss.backward()] computes it. *)
Variable autograd : SarcasmDetector -> noise -> batch -> pname -> tensor.
(** The optimizer's per-parameter state and update rule. *)
Context {S : Type}.
Variable update : S -> tensor -> tensor -> tensor * S.

Record optimizer : Type := {
  group : list pname;
  state : pname -> S
}.

Record world : Type := {
  net : SarcasmDetector;
  optim : optimizer;
  grad_mode : bool;
  log : list event
}.

Definition M (A : Type) : Type := world -> result A * world.

Definition ret {A} (a : A) : M A := fun s => (Ok a, s).

Definition bind {A B} (c : M A) (k : A -> M B) : M B :=
  fun s =>
    match c s with
    | (Ok a, s') => k a s'
    | (Raise e, s') => (Raise e, s')
    end.

Definition lift {A} (r : result A) : M A := fun s => (r, s).

Definition get : M world := fun s => (Ok s, s).

Definition emit (e : event) : M unit :=
  fun s => (Ok tt, {| net := net s; optim := optim s;
                      grad_mode := grad_mode s; log := log s ++ [e] |}).

Definition set_net (m : SarcasmDetector) : M unit :=
  fun s => (Ok tt, {| net := m; optim := optim s;
                      grad_mode := grad_mode s; log := log s |}).

Definition set_optim (o : optimizer) : M unit :=
  fun s => (Ok tt, {| net := net s; optim := o;
                      grad_mode := grad_mode s; log := log s |}).

Definition set_grad_mode (g : bool) (s : world) : world :=
  {| net := net s; optim := optim s; grad_mode := g; log := log s |}.

(** [with torch.no_grad(): body]: the previous mode is restored on the way
    out, also when [body] raises. *)
Definition no_grad {A} (body : M A) : M A :=
  fun s =>
    let r := body (set_grad_mode false s) in
    (fst r, set_grad_mode (grad_mode s) (snd r)).

Notation "x <- c1 ;; c2" := (bind c1 (fun x => c2))
  (at level 61, c1 at next level, right associativity).
Notation "c1 ;; c2" := (bind c1 (fun _ => c2))
  (at level 61, right associativity).

(** Parameters among [names] that a tensor computed now would reach. *)
Definition tracked (s : world) (names : list pname) : list pname :=
  if grad_mode s then filter (requires_grad (net s)) names else [].

Definition bert_param_names : list pname := map BertP (seq 0 bert_size).

(** [self.bert(input_ids=..., attention_mask=...)]. *)
Definition call_bert (w : noise) (ids mask : list (list Z)) : M (tvar (list mat)) :=
  s <- get ;;
  emit (EvEncoder (grad_mode s) (training (net s) MBert)) ;;
  out <- lift (bert (fun i => params (net s) (BertP i))
                    (training (net s) MBert) (bert_seed w) ids mask) ;;
  ret {| data := out; leaves := tracked s bert_param_names |}.

(** [SarcasmDetector.forward]. *)
Definition forward (w : noise) (ids mask : list (list Z)) : M (tvar (list vec)) :=
  bert_output <- no_grad (call_bert w ids mask) ;;
  let bert_embeddings := data bert_output in
  s <- get ;;
  predictions <- lift (predictions_of (net s) w bert_embeddings) ;;
  emit (EvForward predictions) ;;
  ret {| data := predictions;
         leaves := leaves bert_output ++ tracked s head_param_names |}.

(* ---------------------------------------------------------------- *)
(** ** Optimizer and autograd *)

Definition in_group (o : optimizer) (n : pname) : bool :=
  existsb (pname_eqb n) (group o).

(** [optimizer.zero_grad()]: the gradients of its parameters are reset. *)
Definition clear_grads (o : optimizer) (m : SarcasmDetector) : SarcasmDetector :=
  {| params := params m;
     requires_grad := requires_grad m;
     grad := fun n => if in_group o n then None else grad m n;
     training := training m;
     dropout_rate := dropout_rate m |}.

Definition zero_grad : M unit :=
  s <- get ;;
  set_net (clear_grads (optim s) (net s)) ;;
  emit EvZeroGrad.

Definition tensor_add (a b : tensor) : tensor := fun i => a i + b i.

(** Every leaf of the loss accumulates its gradient [g]. *)
Definition accumulate (reached : list pname) (g : pname -> tensor)
    (m : SarcasmDetector) : SarcasmDetector :=
  {| params := params m;
     requires_grad := requires_grad m;
     grad := fun n =>
       if existsb (pname_eqb n) reached then
         match grad m n with
         | None => Some (g n)
         | Some g0 => Some (tensor_add g0 (g n))
         end
       else grad m n;
     training := training m;
     dropout_rate := dropout_rate m |}.

(** [loss.backward()]; a loss that reaches no parameter is refused. *)
Definition backward (w : noise) (b : batch) (loss : tvar pyfloat) : M unit :=
  match leaves loss with
  | [] => lift (Raise RuntimeError)
  | _ :: _ =>
      s <- get ;;
      set_net (accumulate (leaves loss) (autograd (net s) w b) (net s)) ;;
      emit EvBackward
  end.

(** What [optimizer.step()] does to parameter [n]: parameters of the group
    that hold a gradient are updated; the others are skipped. *)
Definition updated (o : optimizer) (m : SarcasmDetector) (n : pname)
  : option (tensor * S) :=
  if in_group o n then
    match grad m n with
    | Some g => Some (update (state o n) (params m n) g)
    | None => None
    end
  else None.

Definition step_params (o : optimizer) (m : SarcasmDetector) : SarcasmDetector :=
  {| params := fun n =>
       match updated o m n with
       | Some r => fst r
       | None => params m n
       end;
     requires_grad := requires_grad m;
     grad := grad m;
     training := training m;
     dropout_rate := dropout_rate m |}.

Definition step_state (o : optimizer) (m : SarcasmDetector) : optimizer :=
  {| group := group o;
     state := fun n =>
       match updated o m n with
       | Some r => snd r
       | None => state o n
       end |}.

Definition step : M unit :=
  s <- get ;;
  set_net (step_params (optim s) (net s)) ;;
  set_optim (step_state (optim s) (net s)) ;;
  emit EvStep.

(* ---------------------------------------------------------------- *)
(** ** [train_epoch] *)

(** [model.train()]: the flag is set on the module and on every
    submodule, the encoder included. *)
Definition train_mode (m : SarcasmDetector) : SarcasmDetector :=
  {| params := params m;
     requires_grad := requires_grad m;
     grad := grad m;
     training := fun _ => true;
     dropout_rate := dropout_rate m |}.

Definition model_train : M unit :=
  s <- get ;;
  set_net (train_mode (net s)) ;;
  emit EvTrain.

Definition to_device {A} (x : A) : M A := emit EvToDevice ;; ret x.

Definition apply_criterion (outputs : tvar (list vec)) (target : list Z)
  : M (tvar pyfloat) :=
  l <- lift (criterion (data outputs) target) ;;
  emit (EvCriterion (data outputs) target l) ;;
  ret {| data := l; leaves := leaves outputs |}.

(** The body of the [for] loop, returning [loss.item()]. *)
Definition train_step (bw : batch * noise) : M pyfloat :=
  let b := fst bw in
  let w := snd bw in
  ids <- to_device (input_ids b) ;;
  mask <- to_device (attention_mask b) ;;
  target <- to_device (labels b) ;;
  zero_grad ;;
  outputs <- forward w ids mask ;;
  loss <- apply_criterion outputs target ;;
  backward w b loss ;;
  step ;;
  ret (data loss).

Fixpoint train_loop (train_loader : list (batch * noise)) (total_loss : pyfloat)
  : M pyfloat :=
  match train_loader with
  | [] => ret total_loss
  | bw :: rest =>
      l <- train_step bw ;;
      train_loop rest (fl_add total_loss l)
  end.

Definition train_epoch (train_loader : list (batch * noise)) : M pyfloat :=
  model_train ;;
  total_loss <- train_loop train_loader (Fl 0) ;;
  lift (py_div total_loss (length train_loader)).

End Training.

Arguments optimizer : clear implicits.
Arguments world : clear implicits.
Arguments M : clear implicits.

(* ================================================================== *)
(** * nn.CrossEntropyLoss() (mean reduction, class-index targets) *)

Definition ignore_index : Z := (-100)%Z.

(** The negative log-likelihood of class [y] under the softmax of [row]. *)
Definition nll (row : vec) (y : Z) : R :=
  - ln (nth (Z.to_nat y) (softmax row) 0).

Definition cross_entropy (inputs : list vec) (target : list Z) : result pyfloat :=
  if negb (length inputs =? length target)%nat then Raise ValueError
  else
    let used :=
      filter (fun rt => negb (snd rt =? ignore_index)%Z) (combine inputs target) in
    if forallb (fun rt => (0 <=? snd rt)%Z &&
                          (snd rt <? Z.of_nat (length (fst rt)))%Z) used
    then
      match used with
      | [] => Ok NaN
      | _ :: _ =>
          Ok (Fl (rsum (map (fun rt => nll (fst rt) (snd rt)) used) /
                  INR (length used)))
      end
    else Raise IndexError.

(* ================================================================== *)
(** * Construction: [SarcasmDetector] called with keyword arguments *)

(** The values a keyword argument is given here: None, a bool, a str, and
    the numbers of Python's numeric tower: int, float (finite, nan or an
    infinity), complex, fractions.Fraction and a finite decimal.Decimal. *)
Inductive pyval : Type :=
| PyNone
| PyBool (b : bool)
| PyInt (z : Z)
| PyFloat (q : Q)
| PyNan
| PyInf (negative : bool)
| PyStr (s : string)
| PyComplex (re im : Q)
| PyFraction (q : Q)
| PyDecimal (q : Q).

(** [if v:] *)
Definition truthy (v : pyval) : bool :=
  match v with
  | PyNone => false
  | PyBool b => b
  | PyInt z => negb (z =? 0)%Z
  | PyFloat q => negb (Qeq_bool q 0)
  | PyNan => true
  | PyInf _ => true
  | PyStr s => negb (String.eqb s EmptyString)
  | PyComplex re im => negb (Qeq_bool re 0 && Qeq_bool im 0)
  | PyFraction q => negb (Qeq_bool q 0)
  | PyDecimal q => negb (Qeq_bool q 0)
  end.

Definition unit_interval (q : Q) : bool := Qle_bool 0 q && Qle_bool q 1.

(** The least magnitude that no longer rounds to a float (a binary64):
    [float(n)] raises OverflowError from there on. *)
Definition float_limit : Z := (2 ^ 1024 - 2 ^ 970)%Z.

Definition beyond_float (q : Q) : bool :=
  Qle_bool (inject_Z float_limit) (Qabs q).

(** What [nn.LSTM] does with its [dropout] argument.  It first stores
    [float(dropout)], which raises TypeError for None and for a complex
    number and OverflowError for an int or a Fraction beyond the range of a
    float; then it raises ValueError unless the argument is a number, not a
    bool, with [0 <= dropout <= 1].  (A str that [float] cannot parse raises
    ValueError there, any other str in the check.)  The result is the rate
    the layer keeps. *)
Definition lstm_dropout_check (v : pyval) : result Q :=
  match v with
  | PyNone => Raise TypeError
  | PyComplex _ _ => Raise TypeError
  | PyInt z =>
      if beyond_float (inject_Z z) then Raise OverflowError
      else if unit_interval (inject_Z z) then Ok (inject_Z z)
      else Raise ValueError
  | PyFraction q =>
      if beyond_float q then Raise OverflowError
      else if unit_interval q then Ok q
      else Raise ValueError
  | PyFloat q => if unit_interval q then Ok q else Raise ValueError
  | PyDecimal q => if unit_interval q then Ok q else Raise ValueError
  | PyBool _ | PyNan | PyInf _ | PyStr _ => Raise ValueError
  end.

(** The check [nn.Dropout] makes on [p], reached here with the number the
    LSTM accepted: [p < 0 or p > 1] is refused. *)
Definition dropout_check (p : Q) : result unit :=
  if negb (Qle_bool 0 p) || negb (Qle_bool p 1) then Raise ValueError
  else Ok tt.

Fixpoint lookup (k : string) (kwargs : list (string * pyval)) (default : pyval)
  : pyval :=
  match kwargs with
  | [] => default
  | (k', v) :: rest => if String.eqb k k' then v else lookup k rest default
  end.

Definition recognized (k : string) : bool :=
  String.eqb k "dropout_rate" || String.eqb k "freeze_bert".

(** Binding of the keyword arguments to [__init__(self, dropout_rate=0.3,
    freeze_bert=True)]. *)
Definition bind_args (kwargs : list (string * pyval)) : result (pyval * pyval) :=
  if forallb (fun kv => recognized (fst kv)) kwargs then
    Ok (lookup "dropout_rate" kwargs (PyFloat (3 # 10)),
        lookup "freeze_bert" kwargs (PyBool true))
  else Raise TypeError.

(** The module as [__init__] leaves it: the encoder's parameters come from
    the snapshot, in evaluation mode as [from_pretrained] returns it, and
    without gradients when [frozen]; the other layers start from [init]. *)
Definition assemble (pretrained : nat -> tensor) (init : pname -> tensor)
    (frozen : bool) (p : Q) : SarcasmDetector :=
  {| params := fun n =>
       match n with
       | BertP i => pretrained i
       | _ => init n
       end;
     requires_grad := fun n =>
       match n with
       | BertP _ => negb frozen
       | _ => true
       end;
     grad := fun _ => None;
     training := fun s =>
       match s with
       | MBert => false
       | _ => true
       end;
     dropout_rate := p |}.

(** The module object [__init__] leaves behind: the layers, and the value
    [nn.Dropout] stored as its [p], which is the argument itself. *)
Record pymodule : Type := {
  detector : SarcasmDetector;
  head_p : pyval
}.

(** [hub] is what [BertModel.from_pretrained] yields (the snapshot, or its
    failure); [init] draws the initial values of the other layers. *)
Definition construct (hub : result (nat -> tensor)) (init : pname -> tensor)
    (kwargs : list (string * pyval)) : result pymodule :=
  (args <- bind_args kwargs ;;
   let dropout_arg := fst args in
   let freeze_bert := snd args in
   pretrained <- hub ;;
   let frozen := truthy freeze_bert in
   p <- lstm_dropout_check dropout_arg ;;
   _ <- dropout_check p ;;
   Ok {| detector := assemble pretrained init frozen p;
         head_p := dropout_arg |})%result.

(** [self.dropout(x)] on line 67 hands the stored [p] to the dropout
    kernel, which takes a float (an int converts) and raises TypeError for
    any other number. *)
Definition dropout_kernel_check (p : pyval) : result unit :=
  match p with
  | PyFloat _ | PyInt _ => Ok tt
  | _ => Raise TypeError
  end.

(** The forward pass of a constructed module in state [s] of its layers:
    what [forward] computes, unless line 67 is reached with a [p] that the
    dropout kernel refuses.  ([forward] can only raise before line 67.) *)
Definition module_forward
    (bert : (nat -> tensor) -> bool -> nat -> list (list Z) -> list (list Z) ->
            result (list mat))
    (bert_size : nat) {S : Type} (pm : pymodule) (w : noise)
    (ids mask : list (list Z)) (s : world S) : result (list vec) :=
  match fst (forward bert bert_size w ids mask s) with
  | Ok out => (_ <- dropout_kernel_check (head_p pm) ;; Ok (data out))%result
  | Raise e => Raise e
  end.

(** The value bound to [dropout_rate], and whether every keyword is one
    that [__init__] declares. *)
Definition dropout_arg (kwargs : list (string * pyval)) : pyval :=
  lookup "dropout_rate" kwargs (PyFloat (3 # 10)).

Definition all_recognized (kwargs : list (string * pyval)) : bool :=
  forallb (fun kv => recognized (fst kv)) kwargs.

(** An int or a float, and its value. *)
Definition int_or_float (v : pyval) : bool :=
  match v with
  | PyInt _ | PyFloat _ => true
  | _ => false
  end.

Definition dropout_value (v : pyval) : Q :=
  match v with
  | PyInt z => inject_Z z
  | PyFloat q => q
  | PyFraction q => q
  | PyDecimal q => q
  | _ => 0%Q
  end.

(** The dropout rates with which the code works: an int or a float in the
    closed interval [0, 1]. *)
Definition accepted_dropout (v : pyval) : bool :=
  int_or_float v && unit_interval (dropout_value v).

(** The rates the constructor lets through although the forward pass cannot
    use them: a Fraction or a Decimal in [0, 1]. *)
Definition deferred_dropout (v : pyval) : bool :=
  match v with
  | PyFraction q | PyDecimal q => unit_interval q
  | _ => false
  end.

(** The dropout rates the spec calls valid: a float in [0, 1). *)
Definition spec_valid_dropout (v : pyval) : bool :=
  match v with
  | PyFloat q => Qle_bool 0 q && negb (Qle_bool 1 q)
  | _ => false
  end.

(* ================================================================== *)
(** * The forward pass in binary32 arithmetic *)

(** The tensors of the forward pass hold IEEE binary32 numbers.  Where a
    property depends on their range, the layers are taken over these
    values: a finite number, an infinity, or NaN (zeros are not signed
    here).  The arithmetic is a parameter: how an exact result is rounded,
    infinities included when it overflows, and what the library's exp, tanh
    and sigmoid return at a finite argument.  Parameter tensors hold finite
    numbers. *)

Module F32.
Inductive t : Type :=
| Fin (r : R)
| PInf
| NInf
| NaN.

Record arith : Type := {
  rnd : R -> t;
  fexp : R -> t;
  ftanh : R -> t;
  fsigmoid : R -> t
}.

Definition finite (v : t) : Prop := exists r, v = Fin r.

(** The order of the values; NaN compares with nothing. *)
Definition le (v w : t) : Prop :=
  match v, w with
  | Fin x, Fin y => x <= y
  | NInf, (Fin _ | PInf | NInf) => True
  | (Fin _ | PInf), PInf => True
  | _, _ => False
  end.

(** The unit roundoff of binary32 and its smallest positive number. *)
Definition u : R := / IZR (2 ^ 24).
Definition eta : R := / IZR (2 ^ 149).

(** What every binary32 arithmetic does: rounding is monotone, it leaves 0,
    1, -1 and 2 as they are, and a finite result is within the relative
    error [u] (absolute error [eta] near 0) of the exact one; exp is 1 at 0
    and within [0, 1] below it, tanh is within [-1, 1] and sigmoid within
    [0, 1]. *)
Record standard (a : arith) : Prop := {
  rnd_mono : forall x y, x <= y -> le (rnd a x) (rnd a y);
  rnd_0 : rnd a 0 = Fin 0;
  rnd_1 : rnd a 1 = Fin 1;
  rnd_m1 : rnd a (- 1) = Fin (- 1);
  rnd_2 : rnd a 2 = Fin 2;
  rnd_error : forall x y, rnd a x = Fin y -> Rabs (y - x) <= u * Rabs x + eta;
  fexp_0 : fexp a 0 = Fin 1;
  fexp_range : forall x, x <= 0 -> exists y, fexp a x = Fin y /\ 0 <= y <= 1;
  ftanh_range : forall x, exists y, ftanh a x = Fin y /\ - 1 <= y <= 1;
  fsigmoid_range : forall x, exists y, fsigmoid a x = Fin y /\ 0 <= y <= 1
}.

Section Ops.
Variable a : arith.

Definition neg (v : t) : t :=
  match v with
  | Fin x => Fin (- x)
  | PInf => NInf
  | NInf => PInf
  | NaN => NaN
  end.

Definition add (v w : t) : t :=
  match v, w with
  | Fin x, Fin y => rnd a (x + y)
  | NaN, _ | _, NaN => NaN
  | PInf, NInf | NInf, PInf => NaN
  | PInf, _ | _, PInf => PInf
  | NInf, _ | _, NInf => NInf
  end.

Definition sub (v w : t) : t := add v (neg w).

(** An infinity of the given sign times the finite [x]; NaN when [x] is 0. *)
Definition scale_inf (positive : bool) (x : R) : t :=
  if Req_dec_T x 0 then NaN
  else if Rlt_dec 0 x then (if positive then PInf else NInf)
  else (if positive then NInf else PInf).

Definition mul (v w : t) : t :=
  match v, w with
  | Fin x, Fin y => rnd a (x * y)
  | NaN, _ | _, NaN => NaN
  | PInf, Fin x | Fin x, PInf => scale_inf true x
  | NInf, Fin x | Fin x, NInf => scale_inf false x
  | PInf, PInf | NInf, NInf => PInf
  | PInf, NInf | NInf, PInf => NInf
  end.

(** [x / 0] is NaN for [x = 0] and otherwise an infinity with the sign of
    [x]. *)
Definition div (v w : t) : t :=
  match v, w with
  | NaN, _ | _, NaN => NaN
  | Fin x, Fin y =>
      if Req_dec_T y 0 then scale_inf true x else rnd a (x / y)
  | Fin _, (PInf | NInf) => Fin 0
  | PInf, Fin y => if Rlt_dec y 0 then NInf else PInf
  | NInf, Fin y => if Rlt_dec y 0 then PInf else NInf
  | (PInf | NInf), (PInf | NInf) => NaN
  end.

(** The larger of two values; NaN if one of them is. *)
Definition max (v w : t) : t :=
  match v, w with
  | NaN, _ | _, NaN => NaN
  | PInf, _ | _, PInf => PInf
  | NInf, x | x, NInf => x
  | Fin x, Fin y => Fin (Rmax x y)
  end.

Definition relu (v : t) : t :=
  match v with
  | Fin x => Fin (Rmax 0 x)
  | PInf => PInf
  | NInf => Fin 0
  | NaN => NaN
  end.

Definition exp (v : t) : t :=
  match v with
  | Fin x => fexp a x
  | PInf => PInf
  | NInf => Fin 0
  | NaN => NaN
  end.

Definition tanh (v : t) : t :=
  match v with
  | Fin x => ftanh a x
  | PInf => Fin 1
  | NInf => Fin (- 1)
  | NaN => NaN
  end.

Definition sigmoid (v : t) : t :=
  match v with
  | Fin x => fsigmoid a x
  | PInf => Fin 1
  | NInf => Fin 0
  | NaN => NaN
  end.

(** A sum, accumulated from the left.  (The order in which a kernel adds
    is its own; nothing below depends on it.) *)
Definition sum (l : list t) : t :=
  match l with
  | [] => Fin 0
  | v :: l' => fold_left add l' v
  end.

Definition maximum (l : list t) : t :=
  match l with
  | [] => NInf
  | v :: l' => fold_left max l' v
  end.
End Ops.

End F32.

(** The largest finite binary32 number, and the least magnitude that rounds
    to an infinity. *)
Definition max_float32 : R := IZR (2 ^ 128 - 2 ^ 104).
Definition overflow_threshold32 : R := IZR (2 ^ 128 - 2 ^ 103).

(** An arithmetic without rounding error: a result within the range of
    binary32 is kept as it is, one beyond the largest number goes to that
    number or, from the threshold on, to an infinity; exp, tanh and sigmoid
    are the functions themselves.  It gives the value of the model on
    inputs on which rounding plays no part. *)
Definition rnd_exact32 (x : R) : F32.t :=
  if Rle_dec overflow_threshold32 x then F32.PInf
  else if Rle_dec x (- overflow_threshold32) then F32.NInf
  else if Rlt_dec max_float32 x then F32.Fin max_float32
  else if Rlt_dec x (- max_float32) then F32.Fin (- max_float32)
  else F32.Fin x.

Definition exact32 : F32.arith :=
  {| F32.rnd := rnd_exact32;
     F32.fexp := fun x => rnd_exact32 (exp x);
     F32.ftanh := fun x => F32.Fin (tanh x);
     F32.fsigmoid := fun x => F32.Fin (sigmoid x) |}.

Abbreviation vec32 := (list F32.t) (only parsing).
Abbreviation mat32 := (list (list F32.t)) (only parsing).

Definition dot32 (a : F32.arith) (w : nat -> R) (x : vec32) : F32.t :=
  F32.sum a (map (fun i => F32.mul a (F32.Fin (w i)) (nth i x (F32.Fin 0)))
                 (seq 0 (length x))).

Definition permute32 (x : mat32) : mat32 :=
  map (fun j => map (fun row => nth j row (F32.Fin 0)) x)
      (seq 0 (length (hd [] x))).

Definition permute_from32 (width : nat) (x : mat32) : mat32 :=
  match x with
  | [] => repeat [] width
  | _ :: _ => permute32 x
  end.

Definition pad32 (p : nat) (ch : vec32) : vec32 :=
  repeat (F32.Fin 0) p ++ ch ++ repeat (F32.Fin 0) p.

(** nn.Conv1d on one example: the bias, then the products in the order of
    the channels and of the kernel. *)
Definition conv1d32 (a : F32.arith) (in_ch out_ch k p : nat) (W b : tensor)
    (x : mat32) : result mat32 :=
  if negb (length x =? in_ch)%nat then Raise RuntimeError
  else
    let L := length (hd [] x) in
    if (L + 2 * p <? k)%nat then Raise RuntimeError
    else
      Ok (map (fun o =>
            map (fun t =>
                   F32.sum a
                     (F32.Fin (b [o]) ::
                      flat_map (fun c =>
                        map (fun j =>
                               F32.mul a (F32.Fin (W [o; c; j]))
                                 (nth (t + j) (pad32 p (nth c x []))
                                      (F32.Fin 0)))
                            (seq 0 k))
                        (seq 0 in_ch)))
                (seq 0 (L + 2 * p - (k - 1))))
            (seq 0 out_ch)).

(** Dropout: nothing in evaluation mode or with [p = 0]; otherwise the
    input times a mask that holds [1 / (1 - p)] for the units that are kept
    and 0 for the others (all of them when [p = 1]). *)
Definition dropout32 (a : F32.arith) (training : bool) (p : Q)
    (keep : nat -> bool) (x : vec32) : vec32 :=
  if training && negb (Qeq_bool p 0) then
    map (fun j =>
           F32.mul a (nth j x (F32.Fin 0))
                   (if kept p keep j then F32.rnd a (1 / (1 - Q2R p))
                    else F32.Fin 0))
        (seq 0 (length x))
  else x.

Definition gate32 (a : F32.arith) (P : lstm_weights) (x h : vec32) (r : nat)
  : F32.t :=
  F32.add a
    (F32.add a (F32.Fin (bias_ih P [r])) (dot32 a (fun c => weight_ih P [r; c]) x))
    (F32.add a (F32.Fin (bias_hh P [r])) (dot32 a (fun c => weight_hh P [r; c]) h)).

Definition lstm_cell32 (a : F32.arith) (H : nat) (P : lstm_weights) (x : vec32)
    (hc : vec32 * vec32) : vec32 * vec32 :=
  let h := fst hc in
  let c := snd hc in
  let c' :=
    map (fun j =>
           F32.add a
             (F32.mul a (F32.sigmoid a (gate32 a P x h (H + j)))
                        (nth j c (F32.Fin 0)))
             (F32.mul a (F32.sigmoid a (gate32 a P x h j))
                        (F32.tanh a (gate32 a P x h (2 * H + j)))))
        (seq 0 H) in
  let h' :=
    map (fun j =>
           F32.mul a (F32.sigmoid a (gate32 a P x h (3 * H + j)))
                     (F32.tanh a (nth j c' (F32.Fin 0))))
        (seq 0 H) in
  (h', c').

Fixpoint lstm_scan32 (a : F32.arith) (H : nat) (P : lstm_weights) (xs : mat32)
    (hc : vec32 * vec32) : mat32 * (vec32 * vec32) :=
  match xs with
  | [] => ([], hc)
  | x :: xs' =>
      let hc' := lstm_cell32 a H P x hc in
      let r := lstm_scan32 a H P xs' hc' in
      (fst hc' :: fst r, snd r)
  end.

Definition zero_state32 (H : nat) : vec32 * vec32 :=
  (repeat (F32.Fin 0) H, repeat (F32.Fin 0) H).

Definition lstm_layer32 (a : F32.arith) (H : nat) (Pf Pb : lstm_weights)
    (xs : mat32) : mat32 :=
  let f := lstm_scan32 a H Pf xs (zero_state32 H) in
  let b := lstm_scan32 a H Pb (rev xs) (zero_state32 H) in
  map (fun fb => fst fb ++ snd fb) (combine (fst f) (rev (fst b))).

Definition lstm_mid32 (a : F32.arith) (H : nat) (P : nat -> bool -> lstm_weights)
    (training : bool) (p : Q) (keep : nat -> nat -> bool) (xs : mat32)
  : mat32 :=
  map (fun tr => dropout32 a training p (keep (fst tr)) (snd tr))
      (indexed (lstm_layer32 a H (P 0%nat false) (P 0%nat true) xs)).

(** [lstm_out] of [self.lstm(xs)] for one example. *)
Definition lstm32 (a : F32.arith) (in_size H : nat)
    (P : nat -> bool -> lstm_weights) (training : bool) (p : Q)
    (keep : nat -> nat -> bool) (xs : mat32) : result mat32 :=
  match xs with
  | [] => Raise RuntimeError
  | _ :: _ =>
      if forallb (fun row => length row =? in_size)%nat xs then
        Ok (lstm_layer32 a H (P 1%nat false) (P 1%nat true)
                         (lstm_mid32 a H P training p keep xs))
      else Raise RuntimeError
  end.

Definition last_step32 (xs : mat32) : result vec32 :=
  match rev xs with
  | [] => Raise IndexError
  | r :: _ => Ok r
  end.

Definition linear32 (a : F32.arith) (in_f out_f : nat) (W b : tensor)
    (x : vec32) : result vec32 :=
  if (length x =? in_f)%nat then
    Ok (map (fun o => F32.add a (F32.Fin (b [o]))
                              (dot32 a (fun c => W [o; c]) x))
            (seq 0 out_f))
  else Raise RuntimeError.

(** nn.Softmax over one row, as the kernels compute it: the largest score
    is subtracted before the exponential. *)
Definition softmax32 (a : F32.arith) (row : vec32) : vec32 :=
  let largest := F32.maximum row in
  let e := map (fun z => F32.exp a (F32.sub a z largest)) row in
  let s := F32.sum a e in
  map (fun x => F32.div a x s) e.

Section Forward32.
Import Arch.
Local Open Scope result_scope.

Variable a : F32.arith.
Variable m : SarcasmDetector.
Variable w : noise.

(** lines 56-58. *)
Definition cnn_stage32 (bert_embeddings : list mat32) : result (list mat32) :=
  let cnn_in := map (permute_from32 bert_dim) bert_embeddings in
  conv <- mapM (conv1d32 a bert_dim cnn_out_channels kernel_size padding
                  (params m ConvWeight) (params m ConvBias)) cnn_in ;;
  let cnn_out := map (map (map F32.relu)) conv in
  Ok (map permute32 cnn_out).

(** line 61. *)
Definition lstm_stage32 (lstm_in : list mat32) : result (list mat32) :=
  mapM (fun bx =>
          lstm32 a cnn_out_channels lstm_hidden_size (lstm_params m)
                 (training m MLstm) (dropout_rate m) (lstm_keep w (fst bx))
                 (snd bx))
       (indexed lstm_in).

(** lines 56-62: [final_hidden]. *)
Definition aggregated_state32 (bert_embeddings : list mat32)
  : result (list vec32) :=
  lstm_in <- cnn_stage32 bert_embeddings ;;
  lstm_out <- lstm_stage32 lstm_in ;;
  mapM last_step32 lstm_out.

(** lines 65-68. *)
Definition head_stage32 (final_hidden : list vec32) : result (list vec32) :=
  x <- mapM (linear32 a (lstm_hidden_size * 2) dense_hidden_size
               (params m Dense1Weight) (params m Dense1Bias)) final_hidden ;;
  let x := map (map F32.relu) x in
  let x := map (fun br =>
                  dropout32 a (training m MDropout) (dropout_rate m)
                            (head_keep w (fst br)) (snd br))
               (indexed x) in
  mapM (linear32 a dense_hidden_size num_classes
          (params m Dense2Weight) (params m Dense2Bias)) x.

Definition logits32 (bert_embeddings : list mat32) : result (list vec32) :=
  final_hidden <- aggregated_state32 bert_embeddings ;;
  head_stage32 final_hidden.

Definition predictions32 (bert_embeddings : list mat32) : result (list vec32) :=
  logits <- logits32 bert_embeddings ;;
  Ok (map (softmax32 a) logits).

(** The value of [logits] on line 68 and the value [forward] returns, with
    the encoder [bert32]. *)
Variable bert32 :
  (nat -> tensor) -> bool -> nat -> list (list Z) -> list (list Z) ->
  result (list mat32).

Definition forward_logits32 (ids mask : list (list Z)) : result (list vec32) :=
  bert_embeddings <- bert32 (fun i => params m (BertP i)) (training m MBert)
                            (bert_seed w) ids mask ;;
  logits32 bert_embeddings.

Definition forward32 (ids mask : list (list Z)) : result (list vec32) :=
  bert_embeddings <- bert32 (fun i => params m (BertP i)) (training m MBert)
                            (bert_seed w) ids mask ;;
  predictions32 bert_embeddings.
End Forward32.

(* ================================================================== *)
(** * Well-formed inputs *)

(** bert-base-uncased: vocabulary size and the longest sequence it embeds. *)
Definition vocab_size : Z := 30522%Z.
Definition max_positions : nat := 512.

(** A token batch: [B] sequences of [L] token ids with a 0/1 mask of the
    same shape. *)
Definition token_batch (ids mask : list (list Z)) (B L : nat) : Prop :=
  shape ids B L /\ shape mask B L /\
  (1 <= L <= max_positions)%nat /\
  Forall (Forall (fun t => (0 <= t < vocab_size)%Z)) ids /\
  Forall (Forall (fun a => a = 0%Z \/ a = 1%Z)) mask.

(** What is assumed of the encoder: on a token batch it yields one
    [L] x 768 matrix of embeddings per sequence. *)
Definition encoder_contract
    (bert : (nat -> tensor) -> bool -> nat -> list (list Z) -> list (list Z) ->
            result (list mat)) : Prop :=
  forall P tr seed ids mask B L,
    token_batch ids mask B L ->
    exists emb,
      bert P tr seed ids mask = Ok emb /\
      length emb = B /\
      Forall (fun e => shape e L Arch.bert_dim) emb.

(** The same of the encoder in binary32: the embeddings have the shape,
    whatever their values. *)
Definition encoder_contract32
    (bert32 : (nat -> tensor) -> bool -> nat -> list (list Z) ->
              list (list Z) -> result (list mat32)) : Prop :=
  forall P tr seed ids mask B L,
    token_batch ids mask B L ->
    exists emb,
      bert32 P tr seed ids mask = Ok emb /\
      length emb = B /\
      Forall (fun e => shape e L Arch.bert_dim) emb.

(** A labelled batch as the data loader yields it. *)
Definition labelled_batch (b : batch) : Prop :=
  exists B L,
    (1 <= B)%nat /\
    token_batch (input_ids b) (attention_mask b) B L /\
    length (labels b) = B /\
    Forall (fun y => y = 0%Z \/ y = 1%Z) (labels b).

(** A row of class probabilities. *)
Definition distribution (row : vec) : Prop :=
  Rabs (rsum row - 1) <= 1 / 1000000 /\
  Forall (fun p => 0 <= p <= 1) row.

(** A row of class probabilities in binary32: finite numbers that form
    one. *)
Definition distribution32 (row : vec32) : Prop :=
  exists ps, row = map F32.Fin ps /\ distribution ps.

(** A row of raw scores that the softmax can normalise: its largest score
    is a finite number (so no score is NaN or plus infinity, and not all
    are minus infinity). *)
Definition scorable (row : vec32) : Prop := F32.finite (F32.maximum row).

(** What is assumed of the loss function: on rows of class probabilities and
    0/1 targets, one per row, it yields a finite, non-negative number. *)
Definition criterion_contract
    (criterion : list vec -> list Z -> result pyfloat) : Prop :=
  forall inputs target B,
    (1 <= B)%nat ->
    shape inputs B Arch.num_classes ->
    Forall distribution inputs ->
    length target = B ->
    Forall (fun y => y = 0%Z \/ y = 1%Z) target ->
    exists l, criterion inputs target = Ok (Fl l) /\ 0 <= l.


(** The events of one pass up to the end of its forward pass, which
    returned [probabilities]. *)
Definition step_prefix (encoder_training : bool) (probabilities : list vec)
  : list event :=
  [EvToDevice; EvToDevice; EvToDevice; EvZeroGrad;
   EvEncoder false encoder_training; EvForward probabilities].

(** One pass through the loop body, as it shows in the log: the batch, the
    raw scores the head produced for it, and the loss. *)
Record pass : Type := {
  pass_batch : batch;
  pass_logits : list vec;
  pass_loss : R
}.

Definition render (encoder_training : bool) (p : pass) : list event :=
  [EvToDevice; EvToDevice; EvToDevice;
   EvZeroGrad;
   EvEncoder false encoder_training;
   EvForward (map softmax (pass_logits p));
   EvCriterion (map softmax (pass_logits p)) (labels (pass_batch p))
               (Fl (pass_loss p));
   EvBackward;
   EvStep].

(** The phases of the loop, without their payloads. *)
Inductive phase : Type :=
| PTrain | PToDevice | PZeroGrad | PEncoder | PForward | PCriterion
| PBackward | PStep.

Definition phase_of (e : event) : phase :=
  match e with
  | EvTrain => PTrain
  | EvToDevice => PToDevice
  | EvZeroGrad => PZeroGrad
  | EvEncoder _ _ => PEncoder
  | EvForward _ => PForward
  | EvCriterion _ _ _ => PCriterion
  | EvBackward => PBackward
  | EvStep => PStep
  end.

Definition batch_phases : list phase :=
  [PToDevice; PToDevice; PToDevice;
   PZeroGrad; PEncoder; PForward; PCriterion; PBackward; PStep].

(** A state in which the loop can train: gradients are being tracked and
    the layers after the encoder require them. *)
Definition trainable {S} (s : world S) : Prop :=
  grad_mode s = true /\
  forall n, In n head_param_names -> requires_grad (net s) n = true.

(** The state one pass leaves behind, given the raw scores and the loss it
    computed on the way. *)
Definition after_pass {S}
    (autograd : SarcasmDetector -> noise -> batch -> pname -> tensor)
    (update : S -> tensor -> tensor -> tensor * S)
    (s : world S) (w : noise) (p : pass) : world S :=
  let m1 := clear_grads (optim s) (net s) in
  let m2 :=
    accumulate (tracked s head_param_names)
               (autograd m1 w (pass_batch p)) m1 in
  {| net := step_params update (optim s) m2;
     optim := step_state update (optim s) m2;
     grad_mode := grad_mode s;
     log := log s ++ render (training (net s) MBert) p |}.

(** What the log of a pass records is what the code computed: the raw
    scores have one row of two per label, and the logged loss is the
    criterion at their softmax. *)
Definition pass_ok (criterion : list vec -> list Z -> result pyfloat) (p : pass)
  : Prop :=
  shape (pass_logits p) (length (labels (pass_batch p))) Arch.num_classes /\
  criterion (map softmax (pass_logits p)) (labels (pass_batch p)) =
    Ok (Fl (pass_loss p)) /\
  0 <= pass_loss p.

(** The losses the log records, in order. *)
Definition losses_of (evs : list event) : list pyfloat :=
  flat_map (fun e => match e with EvCriterion _ _ l => [l] | _ => [] end) evs.

(** The encoder calls the log records: for each, whether gradients were
    being tracked and whether the encoder was in training mode. *)
Definition encoder_calls (evs : list event) : list (bool * bool) :=
  flat_map (fun e => match e with EvEncoder g t => [(g, t)] | _ => [] end) evs.

(** Inference-only evaluation in the words of the spec: no gradient
    tracking and no dropout inside the encoder. *)
Definition inference_only (call : bool * bool) : Prop :=
  fst call = false /\ snd call = false.

(** The aggregated state in the words of the spec, from what [self.lstm]
    returns for one example: the final forward and the final backward hidden
    state of the last layer ([h_n[-2]] and [h_n[-1]]), concatenated. *)
Definition spec_aggregated (r : list (list R) * list (list R)) : list R :=
  nth 2 (snd r) [] ++ nth 3 (snd r) [].

(** The two halves of the aggregated state as the code computes it for one
    example with LSTM input [xs], where [mid] is the input of the last
    layer: the forward direction after all of [mid], and the backward
    direction after one step, on the last element of [mid], from the zero
    state. *)
Definition forward_half (H : nat) (P : nat -> bool -> lstm_weights)
    (training : bool) (p : Q) (keep : nat -> nat -> bool) (xs : list (list R))
  : list R :=
  let mid := lstm_mid H P training p keep xs in
  fst (snd (lstm_scan H (P 1%nat false) mid (zero_state H))).

Definition backward_half (H : nat) (P : nat -> bool -> lstm_weights)
    (training : bool) (p : Q) (keep : nat -> nat -> bool) (xs : list (list R))
  : list R :=
  let mid := lstm_mid H P training p keep xs in
  fst (lstm_cell H (P 1%nat true) (last mid []) (zero_state H)).

Definition last_position (H : nat) (P : nat -> bool -> lstm_weights)
    (training : bool) (p : Q) (keep : nat -> nat -> bool) (xs : list (list R))
  : list R :=
  forward_half H P training p keep xs ++ backward_half H P training p keep xs.

(** A gradient that is not zero everywhere, and an update rule that moves
    a parameter whenever it is given such a gradient (as gradient descent
    with a learning rate other than zero does). *)
Definition nonzero (g : tensor) : Prop := exists i, g i <> 0.

Definition moving {S} (update : S -> tensor -> tensor -> tensor * S) : Prop :=
  forall st p g, nonzero g -> fst (update st p g) <> p.

(* ================================================================== *)
(** * A small concrete instance *)

Module Demo.
(** An encoder stub that embeds every token as the zero vector. *)
Definition zero_encoder (P : nat -> tensor) (tr : bool) (seed : nat)
    (ids mask : list (list Z)) : result (list mat) :=
  Ok (map (map (fun _ : Z => repeat 0 Arch.bert_dim)) ids).

(** bert-base has 199 parameter tensors. *)
Definition bert_size : nat := 199.

Definition zeros : tensor := fun _ => 0.

(** Plain gradient descent with learning rate 2e-5, without state. *)
Definition sgd (st : unit) (p g : tensor) : tensor * unit :=
  (fun i => p i - 2 / 100000 * g i, st).

Definition no_gradient (m : SarcasmDetector) (w : noise) (b : batch)
  : pname -> tensor := fun _ => zeros.

(** The model [SarcasmDetector()] builds from a snapshot of zeros and the
    initial values [init]. *)
Definition built (init : pname -> tensor) : SarcasmDetector :=
  assemble (fun _ => zeros) init true (3 # 10).

Definition model : SarcasmDetector := built (fun _ => zeros).

(** The same, except that [lstm.bias_ih_l1_reverse] is 1 everywhere. *)
Definition biased : SarcasmDetector :=
  built (fun n =>
           match n with
           | LstmP BiasIh 1 true => fun _ => 1
           | _ => zeros
           end).

(** The embeddings of one sequence of two tokens, as [zero_encoder] gives
    them. *)
Definition two_embeddings : list mat :=
  [[repeat 0 Arch.bert_dim; repeat 0 Arch.bert_dim]].

Definition keep_all : noise :=
  {| bert_seed := 0;
     lstm_keep := fun _ _ _ => true;
     head_keep := fun _ _ => true |}.

(** One sequence of three tokens, labelled sarcastic. *)
Definition one_batch : batch :=
  {| input_ids := [[101; 2023; 102]%Z];
     attention_mask := [[1; 1; 1]%Z];
     labels := [1%Z] |}.

(** [AdamW(model.parameters(), ...)] is bound to every parameter. *)
Definition start : world unit :=
  {| net := model;
     optim := {| group := bert_param_names bert_size ++ head_param_names;
                 state := fun _ => tt |};
     grad_mode := true;
     log := [] |}.
End Demo.

(* ================================================================== *)
(** * The script (main.py, lines 95-125) *)

(** What the script prints, line by line.  An epoch line is kept as its
    fields; the rendering of the loss with four decimals is not modelled. *)
Inductive line : Type :=
| UsingDevice (cuda : bool)
| TrainingModel
| EpochLine (epoch total : nat) (loss : pyfloat).

Definition model_params : list (string * pyval) :=
  [("dropout_rate"%string, PyFloat (3 # 10));
   ("freeze_bert"%string, PyBool true)].

Definition num_epochs : nat := 5.

Section Script.
Variable bert :
  (nat -> tensor) -> bool -> nat -> list (list Z) -> list (list Z) ->
  result (list mat).
Variable bert_size : nat.
Variable autograd : SarcasmDetector -> noise -> batch -> pname -> tensor.
Context {S : Type}.
(** The update rule of AdamW and the state it starts a parameter with. *)
Variable update : S -> tensor -> tensor -> tensor * S.
Variable fresh : S.

(** [model.parameters()]: every parameter tensor, the frozen ones too. *)
Definition all_param_names : list pname :=
  bert_param_names bert_size ++ head_param_names.

(** The [for epoch in range(num_epochs)] loop, from epoch index [epoch] with
    [remaining] iterations to go; [train_loader k] lists the batches the
    loader yields in epoch [k], with the random draws made on each. *)
Fixpoint epochs_loop (train_loader : nat -> list (batch * noise))
    (epoch remaining : nat) (printed : list line) (s : world S)
  : result unit * (list line * world S) :=
  match remaining with
  | O => (Ok tt, (printed, s))
  | Datatypes.S k =>
      match train_epoch bert bert_size cross_entropy autograd update
                        (train_loader epoch) s with
      | (Ok loss, s') =>
          epochs_loop train_loader (Datatypes.S epoch) k
            (printed ++ [EpochLine (epoch + 1) num_epochs loss]) s'
      | (Raise e, s') => (Raise e, (printed, s'))
      end
  end.

(** The state in which the script starts training: the model it built, a
    fresh optimizer over all of its parameters, gradients being tracked. *)
Definition initial_world (model : SarcasmDetector) : world S :=
  {| net := model;
     optim := {| group := all_param_names; state := fun _ => fresh |};
     grad_mode := true;
     log := [] |}.

(** [cuda] is [torch.cuda.is_available()], [data] what [prepare_bert_data]
    yields (or its failure), [hub] and [init] as for [construct].  The
    result carries the printed lines and, once the model exists, the state
    the script ends in. *)
Definition main (cuda : bool)
    (data : result (nat -> list (batch * noise)))
    (hub : result (nat -> tensor)) (init : pname -> tensor)
  : result unit * (list line * option (world S)) :=
  let printed := [UsingDevice cuda] in
  match data with
  | Raise e => (Raise e, (printed, None))
  | Ok train_loader =>
      match construct hub init model_params with
      | Raise e => (Raise e, (printed, None))
      | Ok model =>
          let r := epochs_loop train_loader 0 num_epochs
                               (printed ++ [TrainingModel])
                               (initial_world (detector model)) in
          (fst r, (fst (snd r), Some (snd (snd r))))
      end
  end.
End Script.

(** The number of optimizer steps a log records. *)
Definition optimizer_steps (evs : list event) : nat :=
  length (filter (fun e => match e with EvStep => true | _ => false end) evs).

(* ================================================================== *)
(** * Further concrete scenarios *)

Module Scenario.
(** [Demo.start] as it is inside a [torch.no_grad()] block. *)
Definition no_grad_start : world unit :=
  {| net := Demo.model;
     optim := optim Demo.start;
     grad_mode := false;
     log := [] |}.

(** One sequence of three tokens with a label that is no class. *)
Definition bad_label_batch : batch :=
  {| input_ids := [[101; 2023; 102]%Z];
     attention_mask := [[1; 1; 1]%Z];
     labels := [2%Z] |}.

(** [Demo.model], except that [lstm.weight_hh_l1_reverse] is 1 everywhere. *)
Definition other_recurrent : SarcasmDetector :=
  Demo.built (fun n =>
                match n with
                | LstmP WeightHh 1 true => fun _ => 1
                | _ => Demo.zeros
                end).

(** A loader that yields [Demo.one_batch] in every epoch, and one that
    yields nothing. *)
Definition one_batch_loader (epoch : nat) : list (batch * noise) :=
  [(Demo.one_batch, Demo.keep_all)].

Definition empty_loader (epoch : nat) : list (batch * noise) := [].





(** The encoder stub of [Demo] in binary32. *)
Definition zero_encoder32 (P : nat -> tensor) (tr : bool) (seed : nat)
    (ids mask : list (list Z)) : result (list mat32) :=
  Ok (map (map (fun _ : Z => repeat (F32.Fin 0) Arch.bert_dim)) ids).

(** The model [SarcasmDetector(dropout_rate=0.0)] builds, with every
    parameter 0 except [dense1.bias], which is 1 everywhere, and
    [dense2.weight], which is 2^127 everywhere (a binary32 number). *)
Definition overflowing : SarcasmDetector :=
  assemble (fun _ => Demo.zeros)
           (fun n =>
              match n with
              | Dense1Bias => fun _ => 1
              | Dense2Weight => fun _ => IZR (2 ^ 127)
              | _ => Demo.zeros
              end)
           true 0.

(** [Demo.start] with an optimizer that was given the dense layers only. *)
Definition dense_only_start : world unit :=
  {| net := Demo.model;
     optim := {| group := [Dense1Weight; Dense1Bias; Dense2Weight; Dense2Bias];
                 state := fun _ => tt |};
     grad_mode := true;
     log := [] |}.
End Scenario.

(** Dropout does nothing: the module is in evaluation mode, or the rate
    is 0. *)
Definition dropout_off (training : bool) (p : Q) : Prop :=
  training = false \/ Qeq_bool p 0 = true.

(* ================================================================== *)
(** * Properties *)

(** ** Lists and outcomes *)

Lemma mapM_ok {A B} (f : A -> result B) (Q : B -> Prop) (l : list A) :
  (forall a, In a l -> exists b, f a = Ok b /\ Q b) ->
  exists bs, mapM f l = Ok bs /\ length bs = length l /\ Forall Q bs.
Proof.
  induction l as [|a l IH]; intros Hf.
  - exists []. repeat split; constructor.
  - destruct (Hf a (or_introl eq_refl)) as (b & Hb & Qb).
    destruct IH as (bs & Hbs & Hlen & HQ).
    { intros a' Ha'. apply Hf. now right. }
    exists (b :: bs). cbn [mapM]. rewrite Hb. cbn [rbind]. rewrite Hbs.
    cbn [rbind length]. repeat split; auto.
Qed.

Lemma mapM_raise {A B} (f : A -> result B) (l : list A) (e : exn) :
  l <> [] -> (forall a, In a l -> f a = Raise e) -> mapM f l = Raise e.
Proof.
  destruct l as [|a l]; [congruence|]. intros _ Hf.
  cbn [mapM]. rewrite (Hf a (or_introl eq_refl)). reflexivity.
Qed.

Lemma indexed_length {A} (l : list A) : length (indexed l) = length l.
Proof.
  unfold indexed. rewrite length_combine, length_seq. apply Nat.min_id.
Qed.

Lemma indexed_snd {A} (l : list A) : map snd (indexed l) = l.
Proof.
  unfold indexed. generalize 0%nat.
  induction l as [|a l IH]; intros n; cbn; [reflexivity|].
  now rewrite IH.
Qed.

Lemma indexed_In {A} (l : list A) (ia : nat * A) : In ia (indexed l) -> In (snd ia) l.
Proof.
  intros H. rewrite <- (indexed_snd l). now apply in_map.
Qed.

Lemma shape_hd {A} (x : list (list A)) (r c : nat) :
  shape x r c -> (1 <= r)%nat -> length (hd [] x) = c.
Proof.
  intros [Hr Hc] Hpos. destruct x as [|row x]; cbn in *; [lia|].
  now inversion Hc.
Qed.

(** ** Sums, softmax *)

Lemma rsum_nil : rsum [] = 0.
Proof. reflexivity. Qed.

Lemma rsum_cons (x : R) (l : list R) : rsum (x :: l) = x + rsum l.
Proof. reflexivity. Qed.

Lemma rsum_nonneg (l : list R) : Forall (fun x => 0 <= x) l -> 0 <= rsum l.
Proof.
  induction 1 as [|x l Hx _ IH]; [rewrite rsum_nil|rewrite rsum_cons]; lra.
Qed.

Lemma rsum_zero {A} (f : A -> R) (l : list A) :
  (forall a, In a l -> f a = 0) -> rsum (map f l) = 0.
Proof.
  induction l as [|a l IH]; intros Hf; cbn [map]; [reflexivity|].
  rewrite rsum_cons, (Hf a (or_introl eq_refl)), IH; [lra|].
  intros a' Ha'. apply Hf. now right.
Qed.

Lemma rsum_scale (c : R) (l : list R) :
  rsum (map (fun x => x / c) l) = rsum l / c.
Proof.
  induction l as [|x l IH]; cbn [map];
    [rewrite rsum_nil|rewrite !rsum_cons, IH]; unfold Rdiv; ring.
Qed.

Lemma rsum_exp_pos (row : vec) : row <> [] -> 0 < rsum (map exp row).
Proof.
  destruct row as [|z row]; [congruence|]. intros _.
  cbn [map]. rewrite rsum_cons.
  assert (0 <= rsum (map exp row)).
  { apply rsum_nonneg, Forall_forall. intros x Hx.
    apply in_map_iff in Hx as (y & <- & _). left. apply exp_pos. }
  pose proof (exp_pos z). lra.
Qed.

Lemma rsum_In_le (l : list R) (x : R) :
  Forall (fun y => 0 <= y) l -> In x l -> x <= rsum l.
Proof.
  induction 1 as [|y l Hy Hl IH]; intros Hin; [contradiction|].
  rewrite rsum_cons.
  pose proof (rsum_nonneg l Hl). destruct Hin as [->|Hin]; [lra|].
  specialize (IH Hin). lra.
Qed.

Lemma softmax_length (row : vec) : length (softmax row) = length row.
Proof. unfold softmax. apply length_map. Qed.

Lemma softmax_sum (row : vec) : row <> [] -> rsum (softmax row) = 1.
Proof.
  intros Hne. unfold softmax.
  rewrite <- (map_map exp (fun e => e / rsum (map exp row))).
  rewrite rsum_scale. pose proof (rsum_exp_pos row Hne). field. lra.
Qed.

Lemma softmax_range (row : vec) (p : R) : In p (softmax row) -> 0 < p <= 1.
Proof.
  unfold softmax. intros Hin. apply in_map_iff in Hin as (z & <- & Hz).
  assert (Hne : row <> []) by (intros ->; contradiction).
  pose proof (rsum_exp_pos row Hne) as Hpos.
  pose proof (exp_pos z) as Hz0.
  assert (exp z <= rsum (map exp row)).
  { apply rsum_In_le; [|now apply in_map].
    apply Forall_forall. intros x Hx.
    apply in_map_iff in Hx as (y & <- & _). left. apply exp_pos. }
  split.
  - now apply Rdiv_lt_0_compat.
  - replace 1 with (rsum (map exp row) / rsum (map exp row)) by (field; lra).
    unfold Rdiv. apply Rmult_le_compat_r; [|assumption].
    left. now apply Rinv_0_lt_compat.
Qed.

Lemma softmax_distribution (row : vec) : row <> [] -> distribution (softmax row).
Proof.
  intros Hne. split.
  - rewrite (softmax_sum row Hne).
    replace (1 - 1) with 0 by lra. rewrite Rabs_R0. lra.
  - apply Forall_forall. intros p Hp. apply softmax_range in Hp. lra.
Qed.

(** ** Shapes through the layers *)

Lemma shape_map_map {A B} (f : A -> B) (x : list (list A)) (r c : nat) :
  shape x r c -> shape (map (map f) x) r c.
Proof.
  intros [Hr Hc]. split.
  - now rewrite length_map.
  - apply Forall_map. eapply Forall_impl; [|exact Hc].
    intros row Hrow. cbn. now rewrite length_map.
Qed.

Lemma permute_shape (x : mat) (r c : nat) :
  shape x r c -> (1 <= r)%nat -> shape (permute x) c r.
Proof.
  intros Hx Hr. unfold permute. rewrite (shape_hd x r c Hx Hr).
  destruct Hx as [Hlen _]. split.
  - now rewrite length_map, length_seq.
  - apply Forall_map, Forall_forall. intros j _. now rewrite length_map.
Qed.

Lemma permute_from_rows (width : nat) (x : mat) (r c : nat) :
  shape x r c -> (1 <= r)%nat -> permute_from width x = permute x.
Proof.
  intros [Hlen _] Hr. destruct x; [cbn in Hlen; lia|reflexivity].
Qed.

Lemma map_permute_from (width : nat) (xs : list mat) (r c : nat) :
  Forall (fun x => shape x r c) xs -> (1 <= r)%nat ->
  map (permute_from width) xs = map permute xs.
Proof.
  intros Hxs Hr. apply map_ext_in. intros x Hx.
  rewrite Forall_forall in Hxs. exact (permute_from_rows width x r c (Hxs x Hx) Hr).
Qed.

Lemma conv1d_ok (in_ch out_ch k p : nat) (W b : tensor) (x : mat) (L : nat) :
  shape x in_ch L -> (1 <= in_ch)%nat -> (k <= L + 2 * p)%nat ->
  exists y,
    conv1d in_ch out_ch k p W b x = Ok y /\
    shape y out_ch (L + 2 * p - (k - 1)).
Proof.
  intros Hx Hin Hk. unfold conv1d.
  rewrite (shape_hd x in_ch L Hx Hin). destruct Hx as [Hlen _].
  rewrite Hlen, Nat.eqb_refl. cbn [negb].
  destruct (Nat.ltb_spec (L + 2 * p) k) as [Hlt|_]; [lia|].
  eexists. split; [reflexivity|]. split.
  - now rewrite length_map, length_seq.
  - apply Forall_map, Forall_forall. intros o _.
    now rewrite length_map, length_seq.
Qed.

(** Too short a sequence is refused (kernel wider than the padded input). *)
Lemma conv1d_too_short (in_ch out_ch k p : nat) (W b : tensor) (x : mat) :
  (length (hd [] x) + 2 * p < k)%nat ->
  conv1d in_ch out_ch k p W b x = Raise RuntimeError.
Proof.
  intros Hlt. unfold conv1d.
  destruct (negb (length x =? in_ch)%nat); [reflexivity|].
  destruct (Nat.ltb_spec (length (hd [] x) + 2 * p) k); [reflexivity|lia].
Qed.

Lemma dropout_length (tr : bool) (p : Q) (keep : nat -> bool) (x : vec) :
  length (dropout tr p keep x) = length x.
Proof.
  unfold dropout. destruct tr; [|reflexivity].
  now rewrite length_map, length_seq.
Qed.

Lemma lstm_cell_shape (H : nat) (P : lstm_weights) (x : vec) (hc : vec * vec) :
  length (fst (lstm_cell H P x hc)) = H /\ length (snd (lstm_cell H P x hc)) = H.
Proof.
  unfold lstm_cell. cbn [fst snd]. now rewrite !length_map, !length_seq.
Qed.

Lemma lstm_scan_shape (H : nat) (P : lstm_weights) (xs : mat) (hc : vec * vec) :
  shape (fst (lstm_scan H P xs hc)) (length xs) H.
Proof.
  revert hc. induction xs as [|x xs IH]; intros hc; cbn [lstm_scan fst length].
  - split; [reflexivity|constructor].
  - destruct (IH (lstm_cell H P x hc)) as [Hlen Hrows]. split.
    + cbn [length]. now rewrite Hlen.
    + constructor; [apply lstm_cell_shape|exact Hrows].
Qed.

Lemma lstm_layer_shape (H : nat) (Pf Pb : lstm_weights) (xs : mat) :
  shape (fst (lstm_layer H Pf Pb xs)) (length xs) (H + H).
Proof.
  unfold lstm_layer. cbn [fst].
  destruct (lstm_scan_shape H Pf xs (zero_state H)) as [Hlf Hrf].
  destruct (lstm_scan_shape H Pb (rev xs) (zero_state H)) as [Hlb Hrb].
  rewrite length_rev in Hlb. split.
  - rewrite length_map, length_combine, length_rev, Hlf, Hlb. apply Nat.min_id.
  - apply Forall_map, Forall_forall. intros [f b] Hin. cbn [fst snd].
    rewrite length_app.
    rewrite Forall_forall in Hrf, Hrb.
    pose proof (in_combine_l _ _ _ _ Hin) as Hf.
    pose proof (in_combine_r _ _ _ _ Hin) as Hb.
    apply in_rev in Hb. now rewrite (Hrf f Hf), (Hrb b Hb).
Qed.

Lemma lstm_mid_length (H : nat) (P : nat -> bool -> lstm_weights)
    (tr : bool) (p : Q) (keep : nat -> nat -> bool) (xs : mat) :
  length (lstm_mid H P tr p keep xs) = length xs.
Proof.
  unfold lstm_mid. rewrite length_map, indexed_length.
  apply (lstm_layer_shape H (P 0%nat false) (P 0%nat true) xs).
Qed.

Lemma lstm_ok (in_size H : nat) (P : nat -> bool -> lstm_weights)
    (tr : bool) (p : Q) (keep : nat -> nat -> bool) (xs : mat) (L : nat) :
  shape xs L in_size -> (1 <= L)%nat ->
  lstm in_size H P tr p keep xs =
    Ok (fst (lstm_layer H (P 1%nat false) (P 1%nat true)
                        (lstm_mid H P tr p keep xs)),
        snd (lstm_layer H (P 0%nat false) (P 0%nat true) xs) ++
        snd (lstm_layer H (P 1%nat false) (P 1%nat true)
                        (lstm_mid H P tr p keep xs))) /\
  shape (fst (lstm_layer H (P 1%nat false) (P 1%nat true)
                         (lstm_mid H P tr p keep xs))) L (H + H).
Proof.
  intros [Hlen Hrows] HL. unfold lstm.
  destruct xs as [|x0 xs0] eqn:Exs; [cbn in Hlen; lia|]. rewrite <- Exs in *.
  assert (Hall : forallb (fun row => (length row =? in_size)%nat) xs = true).
  { apply forallb_forall. intros row Hrow. rewrite Forall_forall in Hrows.
    apply Nat.eqb_eq. now apply Hrows. }
  rewrite Hall. split; [reflexivity|].
  rewrite <- Hlen, <- (lstm_mid_length H P tr p keep xs).
  apply lstm_layer_shape.
Qed.

Lemma last_step_ok (xs : mat) :
  xs <> [] -> exists r, last_step xs = Ok r /\ In r xs.
Proof.
  intros Hne. unfold last_step.
  destruct (rev xs) as [|r rest] eqn:E.
  - apply (f_equal (@rev (list R))) in E. rewrite rev_involutive in E. now cbn in E.
  - exists r. split; [reflexivity|]. apply in_rev. rewrite E. now left.
Qed.

Lemma last_step_empty : last_step [] = Raise IndexError.
Proof. reflexivity. Qed.

Lemma linear_ok (in_f out_f : nat) (W b : tensor) (x : vec) :
  length x = in_f ->
  exists y, linear in_f out_f W b x = Ok y /\ length y = out_f.
Proof.
  intros Hlen. unfold linear. rewrite Hlen, Nat.eqb_refl.
  eexists. split; [reflexivity|]. now rewrite length_map, length_seq.
Qed.

(** ** The stages of the forward computation *)

Section Stages.
Import Arch.
Variable m : SarcasmDetector.
Variable w : noise.

Lemma cnn_stage_ok (embs : list mat) (L : nat) :
  Forall (fun e => shape e L bert_dim) embs -> (1 <= L)%nat ->
  exists lstm_in,
    cnn_stage m embs = Ok lstm_in /\
    length lstm_in = length embs /\
    Forall (fun x => shape x L cnn_out_channels) lstm_in.
Proof.
  intros Hembs HL. unfold cnn_stage.
  rewrite (map_permute_from bert_dim embs L bert_dim Hembs HL).
  destruct (mapM_ok
              (conv1d bert_dim cnn_out_channels kernel_size padding
                      (params m ConvWeight) (params m ConvBias))
              (fun y => shape y cnn_out_channels L)
              (map permute embs)) as (conv & Hconv & Hlen & Hshape).
  { intros x Hx. apply in_map_iff in Hx as (e & <- & He).
    rewrite Forall_forall in Hembs.
    pose proof (permute_shape e L bert_dim (Hembs e He) HL) as Hp.
    destruct (conv1d_ok bert_dim cnn_out_channels kernel_size padding
                (params m ConvWeight) (params m ConvBias) (permute e) L Hp)
      as (y & Hy & Hs).
    - unfold bert_dim. lia.
    - unfold kernel_size, padding. lia.
    - exists y. split; [exact Hy|].
      replace (L + 2 * padding - (kernel_size - 1))%nat with L in Hs
        by (unfold kernel_size, padding; lia).
      exact Hs. }
  rewrite Hconv. cbn [rbind]. eexists. split; [reflexivity|]. split.
  - now rewrite !length_map, Hlen, length_map.
  - apply Forall_map, Forall_map. eapply Forall_impl; [|exact Hshape].
    intros y Hy. cbn. apply permute_shape.
    + now apply shape_map_map.
    + unfold cnn_out_channels. lia.
Qed.

Lemma lstm_stage_ok (lstm_in : list mat) (L : nat) :
  Forall (fun x => shape x L cnn_out_channels) lstm_in -> (1 <= L)%nat ->
  exists r,
    lstm_stage m w lstm_in = Ok r /\
    length r = length lstm_in /\
    Forall (fun o => shape (fst o) L (lstm_hidden_size + lstm_hidden_size)) r.
Proof.
  intros Hin HL. unfold lstm_stage.
  destruct (mapM_ok
              (fun bx : nat * mat =>
                 lstm cnn_out_channels lstm_hidden_size (lstm_params m)
                      (training m MLstm) (dropout_rate m)
                      (lstm_keep w (fst bx)) (snd bx))
              (fun o => shape (fst o) L (lstm_hidden_size + lstm_hidden_size))
              (indexed lstm_in)) as (r & Hr & Hlen & Hshape).
  { intros bx Hbx. apply indexed_In in Hbx.
    rewrite Forall_forall in Hin.
    destruct (lstm_ok cnn_out_channels lstm_hidden_size (lstm_params m)
                (training m MLstm) (dropout_rate m) (lstm_keep w (fst bx))
                (snd bx) L (Hin _ Hbx) HL) as [Hrun Hs].
    eexists. split; [exact Hrun|exact Hs]. }
  exists r. rewrite indexed_length in Hlen. auto.
Qed.

Lemma final_hidden_ok (lstm_out : list mat) (L : nat) :
  Forall (fun o => shape o L (lstm_hidden_size + lstm_hidden_size)) lstm_out ->
  (1 <= L)%nat ->
  exists fh,
    final_hidden_of lstm_out = Ok fh /\
    length fh = length lstm_out /\
    Forall (fun v => length v = (lstm_hidden_size + lstm_hidden_size)%nat) fh.
Proof.
  intros Hout HL. unfold final_hidden_of. apply mapM_ok.
  intros o Ho. rewrite Forall_forall in Hout.
  destruct (Hout o Ho) as [Hlen Hrows].
  destruct (last_step_ok o) as (r & Hr & Hin).
  { intros ->. cbn in Hlen. lia. }
  exists r. split; [exact Hr|]. rewrite Forall_forall in Hrows. now apply Hrows.
Qed.

Lemma head_stage_ok (fh : list vec) :
  Forall (fun v => length v = (lstm_hidden_size + lstm_hidden_size)%nat) fh ->
  exists logits,
    head_stage m w fh = Ok logits /\
    length logits = length fh /\
    Forall (fun row => length row = num_classes) logits.
Proof.
  intros Hfh. unfold head_stage.
  destruct (mapM_ok
              (linear (lstm_hidden_size * 2) dense_hidden_size
                      (params m Dense1Weight) (params m Dense1Bias))
              (fun y => length y = dense_hidden_size) fh)
    as (x & Hx & Hlen & Hrows).
  { intros v Hv. rewrite Forall_forall in Hfh. apply linear_ok.
    rewrite (Hfh v Hv). lia. }
  rewrite Hx. cbn [rbind].
  match goal with
  | |- exists logits, mapM ?f ?l = _ /\ _ =>
      destruct (mapM_ok f (fun row => length row = num_classes) l)
        as (logits & Hl & Hlen' & Hrows')
  end.
  { intros v Hv. apply linear_ok.
    apply in_map_iff in Hv as (br & <- & Hbr). rewrite dropout_length.
    apply indexed_In, in_map_iff in Hbr as (y & <- & Hy).
    rewrite length_map. rewrite Forall_forall in Hrows. now apply Hrows. }
  exists logits. split; [exact Hl|]. split; [|exact Hrows'].
  now rewrite Hlen', length_map, indexed_length, length_map.
Qed.

Lemma aggregated_state_ok (embs : list mat) (L : nat) :
  Forall (fun e => shape e L bert_dim) embs -> (1 <= L)%nat ->
  exists fh,
    aggregated_state m w embs = Ok fh /\
    length fh = length embs /\
    Forall (fun v => length v = (lstm_hidden_size + lstm_hidden_size)%nat) fh.
Proof.
  intros Hembs HL. unfold aggregated_state.
  destruct (cnn_stage_ok embs L Hembs HL) as (lstm_in & -> & Hlen1 & Hs1).
  cbn [rbind].
  destruct (lstm_stage_ok lstm_in L Hs1 HL) as (r & -> & Hlen2 & Hs2).
  cbn [rbind].
  destruct (final_hidden_ok (map fst r) L) as (fh & Hfh & Hlen3 & Hs3); auto.
  { now apply Forall_map. }
  exists fh. split; [exact Hfh|]. split; [|exact Hs3].
  now rewrite Hlen3, length_map, Hlen2.
Qed.

Lemma predictions_ok (embs : list mat) (L : nat) :
  Forall (fun e => shape e L bert_dim) embs -> (1 <= L)%nat ->
  exists logits,
    logits_of m w embs = Ok logits /\
    predictions_of m w embs = Ok (map softmax logits) /\
    shape logits (length embs) num_classes.
Proof.
  intros Hembs HL. unfold predictions_of, logits_of.
  destruct (aggregated_state_ok embs L Hembs HL) as (fh & -> & Hlen1 & Hs1).
  cbn [rbind].
  destruct (head_stage_ok fh Hs1) as (logits & -> & Hlen2 & Hs2).
  cbn [rbind]. exists logits. repeat split; auto. congruence.
Qed.
End Stages.

(** A sequence of length 0 reaches the convolution with all of its
    channels, each of them empty, and is refused there because the padded
    length, 2, is less than the kernel size. *)
Lemma conv1d_empty_sequence (W b : tensor) :
  conv1d Arch.bert_dim Arch.cnn_out_channels Arch.kernel_size Arch.padding W b
         (permute_from Arch.bert_dim []) = Raise RuntimeError.
Proof.
  unfold conv1d, permute_from. rewrite repeat_length, Nat.eqb_refl.
  reflexivity.
Qed.

(** A batch of empty sequences does not get past the convolution. *)
Lemma cnn_stage_empty_sequence (m : SarcasmDetector) (B : nat) :
  cnn_stage m (repeat [] (S B)) = Raise RuntimeError.
Proof.
  unfold cnn_stage. rewrite mapM_raise with (e := RuntimeError); [reflexivity| |].
  - discriminate.
  - intros x Hx. apply in_map_iff in Hx as (e & <- & He).
    apply repeat_spec in He. subst e. apply conv1d_empty_sequence.
Qed.

(** ** Running the loop *)

Ltac run :=
  cbv [train_epoch train_loop train_step forward apply_criterion backward step
       zero_grad model_train to_device call_bert no_grad
       bind get emit lift ret set_net set_optim set_grad_mode];
  cbn [fst snd net optim grad_mode log data leaves].

Lemma head_names_not_encoder (n : pname) :
  In n head_param_names -> is_encoder n = false.
Proof.
  intros Hin.
  assert (H : forallb (fun n => negb (is_encoder n)) head_param_names = true)
    by reflexivity.
  rewrite forallb_forall in H. apply H in Hin.
  now destruct (is_encoder n).
Qed.

Lemma pname_eqb_eq (a b : pname) : pname_eqb a b = true <-> a = b.
Proof.
  split.
  - destruct a as [i| | |s l r| | | |], b as [j| | |s' l' r'| | | |];
      cbn; try discriminate; try reflexivity.
    + intros H. apply Nat.eqb_eq in H. now subst.
    + intros H. apply andb_prop in H as [H Hr]. apply andb_prop in H as [Hs Hl].
      apply Nat.eqb_eq in Hl. apply Bool.eqb_prop in Hr. subst.
      destruct s, s'; cbn in Hs; try discriminate; reflexivity.
  - intros <-. destruct a as [i| | |s l r| | | |]; cbn; try reflexivity.
    + apply Nat.eqb_refl.
    + rewrite Nat.eqb_refl, Bool.eqb_reflx. now destruct s.
Qed.

Lemma existsb_pname (n : pname) (l : list pname) :
  existsb (pname_eqb n) l = true <-> In n l.
Proof.
  rewrite existsb_exists. split.
  - intros (x & Hx & Heq). apply pname_eqb_eq in Heq. now subst.
  - intros Hin. exists n. split; [exact Hin|]. now apply pname_eqb_eq.
Qed.

Section Run.
Variable bert :
  (nat -> tensor) -> bool -> nat -> list (list Z) -> list (list Z) ->
  result (list mat).
Variable bert_size : nat.
Variable criterion : list vec -> list Z -> result pyfloat.
Variable autograd : SarcasmDetector -> noise -> batch -> pname -> tensor.
Context {S : Type}.
Variable update : S -> tensor -> tensor -> tensor * S.

Hypothesis bert_ok : encoder_contract bert.
Hypothesis criterion_ok : criterion_contract criterion.

Lemma tracked_nonempty (s : world S) :
  trainable s -> tracked s head_param_names <> [].
Proof.
  intros [Hgm Hreq]. unfold tracked. rewrite Hgm.
  unfold head_param_names. cbn [app filter].
  rewrite (Hreq ConvWeight) by (now left). discriminate.
Qed.

Lemma forward_run (s : world S) (w : noise) (ids mask : list (list Z))
    (B L : nat) :
  token_batch ids mask B L ->
  exists logits,
    shape logits B Arch.num_classes /\
    forward bert bert_size w ids mask s =
    (Ok {| data := map softmax logits;
           leaves := tracked s head_param_names |},
     {| net := net s; optim := optim s; grad_mode := grad_mode s;
        log := log s ++ [EvEncoder false (training (net s) MBert);
                         EvForward (map softmax logits)] |}).
Proof.
  intros Htok.
  destruct (bert_ok (fun i => params (net s) (BertP i))
              (training (net s) MBert) (bert_seed w) ids mask B L Htok)
    as (emb & Hemb & Hlen & Hshape).
  destruct Htok as (_ & _ & HL & _).
  destruct (predictions_ok (net s) w emb L Hshape (proj1 HL))
    as (logits & _ & Hpred & Hs).
  exists logits. split; [now rewrite <- Hlen|].
  run. rewrite Hemb. run. rewrite Hpred.
  unfold tracked. cbn [grad_mode net app]. now rewrite <- app_assoc.
Qed.

Lemma softmax_rows (logits : list vec) (B : nat) :
  shape logits B Arch.num_classes ->
  shape (map softmax logits) B Arch.num_classes /\
  Forall distribution (map softmax logits).
Proof.
  intros [Hlen Hrows]. split; [split|].
  - now rewrite length_map.
  - apply Forall_map. eapply Forall_impl; [|exact Hrows].
    intros row Hrow. cbn. now rewrite softmax_length.
  - apply Forall_map. eapply Forall_impl; [|exact Hrows].
    intros row Hrow. cbn. apply softmax_distribution.
    intros ->. discriminate Hrow.
Qed.

Lemma train_step_run (s : world S) (b : batch) (w : noise) :
  trainable s -> labelled_batch b ->
  exists logits l,
    let p := {| pass_batch := b; pass_logits := logits; pass_loss := l |} in
    train_step bert bert_size criterion autograd update (b, w) s =
    (Ok (Fl l), after_pass autograd update s w p) /\
    shape logits (length (labels b)) Arch.num_classes /\
    criterion (map softmax logits) (labels b) = Ok (Fl l) /\
    0 <= l.
Proof.
  intros [Hgm Hreq] (B & L & HB & Htok & Hlab & H01).
  destruct (forward_run
              {| net := clear_grads (optim s) (net s); optim := optim s;
                 grad_mode := grad_mode s;
                 log := (((log s ++ [EvToDevice]) ++ [EvToDevice]) ++
                         [EvToDevice]) ++ [EvZeroGrad] |}
              w (input_ids b) (attention_mask b) B L Htok)
    as (logits & Hshape & Hfwd).
  destruct (softmax_rows logits B Hshape) as [Hsm Hdist].
  destruct (criterion_ok (map softmax logits) (labels b) B HB Hsm Hdist Hlab H01)
    as (l & Hcrit & Hl).
  exists logits, l. cbn zeta. rewrite Hlab.
  split; [|split; [exact Hshape|split; [exact Hcrit|exact Hl]]].
  cbv [train_step bind to_device emit ret zero_grad get set_net fst snd];
    cbn [fst snd net optim grad_mode log data leaves].
  rewrite Hfwd.
  cbv [apply_criterion bind lift emit ret];
    cbn [fst snd net optim grad_mode log data leaves].
  rewrite Hcrit.
  cbn [net optim grad_mode log data leaves training clear_grads].
  change (tracked _ head_param_names) with (tracked s head_param_names).
  unfold after_pass. cbn [pass_batch].
  pose proof (tracked_nonempty s (conj Hgm Hreq)) as Hne.
  destruct (tracked s head_param_names) as [|n rest]; [congruence|].
  run. unfold render. cbn [pass_logits pass_batch pass_loss].
  now rewrite <- !app_assoc.
Qed.

Lemma after_pass_encoder (s : world S) (w : noise) (p : pass) (i : nat) :
  params (net (after_pass autograd update s w p)) (BertP i) =
  params (net s) (BertP i).
Proof.
  unfold after_pass. cbn [net step_params params updated accumulate grad
                          clear_grads].
  assert (Hnot : existsb (pname_eqb (BertP i)) (tracked s head_param_names)
                 = false).
  { destruct (existsb _ _) eqn:E; [|reflexivity].
    apply existsb_pname in E. unfold tracked in E.
    destruct (grad_mode s); [|contradiction].
    apply filter_In in E as [E _].
    apply head_names_not_encoder in E. discriminate E. }
  unfold updated. cbn [accumulate grad clear_grads].
  rewrite Hnot. now destruct (in_group (optim s) (BertP i)).
Qed.

Lemma after_pass_trainable (s : world S) (w : noise) (p : pass) :
  trainable s -> trainable (after_pass autograd update s w p).
Proof. intros H. exact H. Qed.

Lemma after_pass_training (s : world S) (w : noise) (p : pass) :
  training (net (after_pass autograd update s w p)) = training (net s).
Proof. reflexivity. Qed.

Lemma train_loop_run (train_loader : list (batch * noise)) :
  forall (s : world S) (total : R),
    trainable s ->
    Forall (fun bw => labelled_batch (fst bw)) train_loader ->
    exists ps s',
      train_loop bert bert_size criterion autograd update train_loader
                 (Fl total) s =
      (Ok (Fl (total + rsum (map pass_loss ps))), s') /\
      map pass_batch ps = map fst train_loader /\
      Forall (pass_ok criterion) ps /\
      log s' = log s ++ flat_map (render (training (net s) MBert)) ps /\
      (forall i, params (net s') (BertP i) = params (net s) (BertP i)) /\
      trainable s'.
Proof.
  induction train_loader as [|[b w] rest IH]; intros s total Htr Hall.
  - exists [], s. cbn [train_loop map flat_map]. unfold ret.
    rewrite rsum_nil, Rplus_0_r, app_nil_r.
    repeat (split; [solve [auto]|]). exact Htr.
  - inversion Hall as [|bw rest' Hb Hrest]; subst. cbn [fst] in Hb.
    destruct (train_step_run s b w Htr Hb) as (logits & l & Hstep & Hok).
    cbn zeta in Hstep.
    set (p := {| pass_batch := b; pass_logits := logits; pass_loss := l |}) in *.
    destruct (IH (after_pass autograd update s w p) (total + l)
                (after_pass_trainable s w p Htr) Hrest)
      as (ps & s' & Hloop & Hbatches & Hps & Hlog & Hframe & Htr').
    exists (p :: ps), s'. split; [|split; [|split; [|split; [|split]]]].
    + cbn [train_loop]. unfold bind at 1. rewrite Hstep.
      cbn [fl_add]. rewrite Hloop. cbn [map]. rewrite rsum_cons.
      cbn [pass_loss p]. do 3 f_equal. ring.
    + cbn [map fst]. now rewrite Hbatches.
    + constructor; [exact Hok|exact Hps].
    + rewrite Hlog. cbn [flat_map]. unfold after_pass at 1. cbn [log].
      rewrite after_pass_training. now rewrite app_assoc.
    + intros i. rewrite Hframe. apply after_pass_encoder.
    + exact Htr'.
Qed.

Lemma train_epoch_run (train_loader : list (batch * noise)) (s : world S) :
  trainable s ->
  Forall (fun bw => labelled_batch (fst bw)) train_loader ->
  exists ps s',
    train_epoch bert bert_size criterion autograd update train_loader s =
    (py_div (Fl (rsum (map pass_loss ps))) (length train_loader), s') /\
    map pass_batch ps = map fst train_loader /\
    Forall (pass_ok criterion) ps /\
    log s' = log s ++ EvTrain :: flat_map (render true) ps /\
    (forall i, params (net s') (BertP i) = params (net s) (BertP i)) /\
    trainable s'.
Proof.
  intros Htr Hall.
  destruct (train_loop_run train_loader
              {| net := train_mode (net s); optim := optim s;
                 grad_mode := grad_mode s; log := log s ++ [EvTrain] |}
              0 Htr Hall)
    as (ps & s' & Hloop & Hbatches & Hps & Hlog & Hframe & Htr').
  exists ps, s'. split; [|split; [|split; [|split; [|split]]]]; auto.
  - cbv [train_epoch model_train bind get set_net emit lift];
      cbn [fst snd net optim grad_mode log].
    rewrite Hloop. now rewrite Rplus_0_l.
  - rewrite Hlog. cbn [log net train_mode training].
    now rewrite <- app_assoc.
Qed.
End Run.

(** ** The stubs meet the contracts *)

Lemma zero_encoder_contract : encoder_contract Demo.zero_encoder.
Proof.
  intros P tr seed ids mask B L (Hids & _).
  eexists. split; [reflexivity|]. destruct Hids as [Hlen Hrows]. split.
  - now rewrite length_map.
  - apply Forall_map. eapply Forall_impl; [|exact Hrows].
    intros row Hrow. cbn beta. split.
    + now rewrite length_map.
    + apply Forall_map, Forall_forall. intros t _. apply repeat_length.
Qed.

Lemma nll_nonneg (row : vec) (y : Z) :
  (0 <= y < Z.of_nat (length row))%Z -> 0 <= nll row y.
Proof.
  intros Hy. unfold nll.
  assert (Hin : In (nth (Z.to_nat y) (softmax row) 0) (softmax row)).
  { apply nth_In. rewrite softmax_length. lia. }
  apply softmax_range in Hin as [Hpos Hle].
  destruct Hle as [Hlt|Heq].
  - pose proof (ln_increasing _ _ Hpos Hlt) as Hln. rewrite ln_1 in Hln. lra.
  - rewrite Heq, ln_1. lra.
Qed.

Lemma cross_entropy_contract : criterion_contract cross_entropy.
Proof.
  intros inputs target B HB [Hlen Hrows] _ Htlen H01.
  unfold cross_entropy. rewrite Hlen, Htlen, Nat.eqb_refl. cbn [negb].
  assert (Hused :
    filter (fun rt : list R * Z => negb (snd rt =? ignore_index)%Z)
           (combine inputs target) = combine inputs target).
  { apply forallb_filter_id, forallb_forall. intros [row y] Hin. cbn [snd].
    apply in_combine_r in Hin. rewrite Forall_forall in H01.
    destruct (H01 y Hin) as [-> | ->]; reflexivity. }
  rewrite Hused.
  assert (Hrange : forall rt, In rt (combine inputs target) ->
            (0 <= snd rt < Z.of_nat (length (fst rt)))%Z).
  { intros [row y] Hin. cbn [fst snd].
    rewrite Forall_forall in Hrows, H01.
    rewrite (Hrows row (in_combine_l _ _ _ _ Hin)).
    destruct (H01 y (in_combine_r _ _ _ _ Hin)) as [-> | ->];
      unfold Arch.num_classes; lia. }
  assert (Hall : forallb (fun rt : list R * Z =>
                   (0 <=? snd rt)%Z && (snd rt <? Z.of_nat (length (fst rt)))%Z)
                   (combine inputs target) = true).
  { apply forallb_forall. intros rt Hin. specialize (Hrange rt Hin).
    apply andb_true_intro. split; [apply Z.leb_le|apply Z.ltb_lt]; lia. }
  rewrite Hall.
  destruct (combine inputs target) as [|rt used] eqn:E.
  - apply (f_equal (@length _)) in E.
    rewrite length_combine, Hlen, Htlen, Nat.min_id in E. cbn in E. lia.
  - eexists. split; [reflexivity|].
    apply Rmult_le_pos.
    + apply rsum_nonneg, Forall_map, Forall_forall.
      intros rt' Hin. apply nll_nonneg. now apply Hrange.
    + left. apply Rinv_0_lt_compat, lt_0_INR. cbn [length]. lia.
Qed.

Lemma demo_constructed (init : pname -> tensor) :
  construct (Ok (fun _ => Demo.zeros)) init [] =
  Ok {| detector := Demo.built init; head_p := PyFloat (3 # 10) |}.
Proof. reflexivity. Qed.

Lemma demo_tokens :
  token_batch (input_ids Demo.one_batch) (attention_mask Demo.one_batch) 1 3.
Proof.
  unfold token_batch, shape, max_positions, vocab_size.
  cbn [Demo.one_batch input_ids attention_mask length].
  repeat split; try lia;
    repeat (apply Forall_cons || apply Forall_nil);
    try reflexivity; try lia; now right.
Qed.


Lemma demo_labelled : labelled_batch Demo.one_batch.
Proof.
  exists 1%nat, 3%nat. split; [lia|]. split; [exact demo_tokens|].
  split; [reflexivity|]. apply Forall_cons; [now right|apply Forall_nil].
Qed.

Lemma demo_trainable : trainable Demo.start.
Proof.
  split; [reflexivity|]. intros n Hn. apply head_names_not_encoder in Hn.
  cbn. now destruct n.
Qed.

Lemma demo_loader_labelled :
  Forall (fun bw : batch * noise => labelled_batch (fst bw))
         [(Demo.one_batch, Demo.keep_all)].
Proof. constructor; [exact demo_labelled|constructor]. Qed.



(** ** Facts about logs *)

Lemma losses_of_app (a b : list event) :
  losses_of (a ++ b) = losses_of a ++ losses_of b.
Proof. apply flat_map_app. Qed.

Lemma losses_of_passes (tr : bool) (ps : list pass) :
  losses_of (flat_map (render tr) ps) = map (fun p => Fl (pass_loss p)) ps.
Proof.
  induction ps as [|p ps IH]; [reflexivity|].
  cbn [flat_map map]. rewrite losses_of_app, IH. reflexivity.
Qed.

Lemma phases_of_passes (tr : bool) (ps : list pass) :
  map phase_of (flat_map (render tr) ps) =
  concat (repeat batch_phases (length ps)).
Proof.
  induction ps as [|p ps IH]; [reflexivity|].
  cbn [flat_map length repeat concat]. rewrite map_app, IH. reflexivity.
Qed.

Lemma in_passes (tr : bool) (ps : list pass) (e : event) :
  In e (flat_map (render tr) ps) <-> exists p, In p ps /\ In e (render tr p).
Proof. apply in_flat_map. Qed.

Lemma passes_length (ps : list pass) (bs : list (batch * noise)) :
  map pass_batch ps = map fst bs -> length ps = length bs.
Proof.
  intros H. apply (f_equal (@length _)) in H. now rewrite !length_map in H.
Qed.

Lemma encoder_calls_app (a b : list event) :
  encoder_calls (a ++ b) = encoder_calls a ++ encoder_calls b.
Proof. apply flat_map_app. Qed.

Lemma encoder_calls_passes (tr : bool) (ps : list pass) :
  encoder_calls (flat_map (render tr) ps) = repeat (false, tr) (length ps).
Proof.
  induction ps as [|p ps IH]; [reflexivity|].
  cbn [flat_map length repeat]. rewrite encoder_calls_app, IH. reflexivity.
Qed.

(** ** Construction *)

Lemma lstm_then_dropout_check (v : pyval) (p : Q) :
  lstm_dropout_check v = Ok p -> dropout_check p = Ok tt.
Proof.
  assert (Hin : forall q, unit_interval q = true -> dropout_check q = Ok tt).
  { intros q E. unfold dropout_check. unfold unit_interval in E.
    apply andb_prop in E as [-> ->]. reflexivity. }
  destruct v as [|b|z|q| | |str|re im|q|q]; cbn [lstm_dropout_check];
    try discriminate.
  - destruct (beyond_float (inject_Z z)); [discriminate|].
    destruct (unit_interval (inject_Z z)) eqn:E; [|discriminate].
    intros [= <-]. now apply Hin.
  - destruct (unit_interval q) eqn:E; [|discriminate].
    intros [= <-]. now apply Hin.
  - destruct (beyond_float q); [discriminate|].
    destruct (unit_interval q) eqn:E; [|discriminate].
    intros [= <-]. now apply Hin.
  - destruct (unit_interval q) eqn:E; [|discriminate].
    intros [= <-]. now apply Hin.
Qed.

Lemma construct_outcome (hub : result (nat -> tensor)) (init : pname -> tensor)
    (kwargs : list (string * pyval)) :
  construct hub init kwargs =
  if all_recognized kwargs then
    match hub with
    | Ok pretrained =>
        match lstm_dropout_check (dropout_arg kwargs) with
        | Ok p =>
            Ok {| detector :=
                    assemble pretrained init
                      (truthy (lookup "freeze_bert" kwargs (PyBool true))) p;
                  head_p := dropout_arg kwargs |}
        | Raise e => Raise e
        end
    | Raise e => Raise e
    end
  else Raise TypeError.
Proof.
  unfold construct, bind_args, all_recognized, dropout_arg.
  destruct (forallb (fun kv => recognized (fst kv)) kwargs); [|reflexivity].
  cbn [rbind fst snd]. destruct hub as [pretrained|e]; [|reflexivity].
  cbn [rbind].
  destruct (lstm_dropout_check (lookup "dropout_rate" kwargs (PyFloat (3 # 10))))
    as [p|e] eqn:E; [|reflexivity].
  cbn [rbind]. now rewrite (lstm_then_dropout_check _ p E).
Qed.

Lemma unit_interval_range (q : Q) :
  unit_interval q = true -> (0 <= q <= 1)%Q.
Proof.
  unfold unit_interval. intros E. apply andb_prop in E as [E0 E1].
  split; now apply Qle_bool_iff.
Qed.

(** Within [0, 1] a number is far from the limit of a float. *)
Lemma unit_interval_not_beyond (q : Q) :
  unit_interval q = true -> beyond_float q = false.
Proof.
  intros E. apply unit_interval_range in E as [E0 E1].
  unfold beyond_float. destruct (Qle_bool _ _) eqn:Hb; [|reflexivity].
  apply Qle_bool_iff in Hb. rewrite (Qabs_pos q E0) in Hb.
  assert (H2 : (2 <= inject_Z float_limit)%Q).
  { unfold Qle, float_limit. cbn [Qnum Qden inject_Z]. vm_compute. discriminate. }
  exfalso. apply (Qle_not_lt _ _ (Qle_trans _ _ _ H2 (Qle_trans _ _ _ Hb E1))).
  reflexivity.
Qed.

Lemma lstm_dropout_check_accepted (v : pyval) :
  accepted_dropout v = true -> lstm_dropout_check v = Ok (dropout_value v).
Proof.
  unfold accepted_dropout.
  destruct v as [|b|z|q| | |str|re im|q|q];
    cbn [int_or_float andb dropout_value lstm_dropout_check];
    try discriminate; intros E.
  - now rewrite (unit_interval_not_beyond _ E), E.
  - now rewrite E.
Qed.

Lemma lstm_dropout_check_deferred (v : pyval) :
  deferred_dropout v = true -> lstm_dropout_check v = Ok (dropout_value v).
Proof.
  destruct v as [|b|z|q| | |str|re im|q|q];
    cbn [deferred_dropout dropout_value lstm_dropout_check];
    try discriminate; intros E.
  - now rewrite (unit_interval_not_beyond _ E), E.
  - now rewrite E.
Qed.

Lemma lstm_dropout_check_range (v : pyval) (p : Q) :
  lstm_dropout_check v = Ok p -> (0 <= p <= 1)%Q.
Proof.
  destruct v as [|b|z|q| | |str|re im|q|q]; cbn [lstm_dropout_check];
    try discriminate.
  - destruct (beyond_float (inject_Z z)); [discriminate|].
    destruct (unit_interval (inject_Z z)) eqn:E; [|discriminate].
    intros [= <-]. now apply unit_interval_range.
  - destruct (unit_interval q) eqn:E; [|discriminate].
    intros [= <-]. now apply unit_interval_range.
  - destruct (beyond_float q); [discriminate|].
    destruct (unit_interval q) eqn:E; [|discriminate].
    intros [= <-]. now apply unit_interval_range.
  - destruct (unit_interval q) eqn:E; [|discriminate].
    intros [= <-]. now apply unit_interval_range.
Qed.

(** ** The last time step of a bidirectional layer *)

Lemma lstm_scan_app (H : nat) (P : lstm_weights) (a b : mat) (hc : vec * vec) :
  lstm_scan H P (a ++ b) hc =
  (fst (lstm_scan H P a hc) ++
   fst (lstm_scan H P b (snd (lstm_scan H P a hc))),
   snd (lstm_scan H P b (snd (lstm_scan H P a hc)))).
Proof.
  revert hc. induction a as [|x a IH]; intros hc; cbn [app lstm_scan fst snd].
  - now destruct (lstm_scan H P b hc).
  - now rewrite IH.
Qed.

Lemma last_step_snoc (l : mat) (x : vec) : last_step (l ++ [x]) = Ok x.
Proof. unfold last_step. now rewrite rev_app_distr. Qed.

Lemma combine_snoc {A B} (a : list A) (b : list B) (x : A) (y : B) :
  length a = length b ->
  combine (a ++ [x]) (b ++ [y]) = combine a b ++ [(x, y)].
Proof.
  revert b. induction a as [|a0 a IH]; intros [|b0 b] Hlen;
    cbn in Hlen; try discriminate; cbn [app combine]; [reflexivity|].
  f_equal. apply IH. now injection Hlen.
Qed.

Lemma lstm_layer_last (H : nat) (Pf Pb : lstm_weights) (ys : mat) (y : vec) :
  last_step (fst (lstm_layer H Pf Pb (ys ++ [y]))) =
  Ok (fst (snd (lstm_scan H Pf (ys ++ [y]) (zero_state H))) ++
      fst (lstm_cell H Pb y (zero_state H))).
Proof.
  unfold lstm_layer. cbn [fst].
  rewrite rev_app_distr. cbn [rev app lstm_scan fst].
  rewrite lstm_scan_app. cbn [lstm_scan fst snd].
  rewrite combine_snoc, map_app. cbn [map fst snd].
  - apply last_step_snoc.
  - rewrite length_rev.
    destruct (lstm_scan_shape H Pf ys (zero_state H)) as [-> _].
    destruct (lstm_scan_shape H Pb (rev ys)
                (lstm_cell H Pb y (zero_state H))) as [-> _].
    now rewrite length_rev.
Qed.

Lemma lstm_scan_final_length (H : nat) (P : lstm_weights) (xs : mat)
    (hc : vec * vec) :
  length (fst hc) = H ->
  length (fst (snd (lstm_scan H P xs hc))) = H.
Proof.
  revert hc. induction xs as [|x xs IH]; intros hc Hhc; cbn [lstm_scan snd].
  - exact Hhc.
  - apply IH. apply lstm_cell_shape.
Qed.

Lemma last_position_ok (in_size H : nat) (P : nat -> bool -> lstm_weights)
    (tr : bool) (p : Q) (keep : nat -> nat -> bool) (xs : mat) (L : nat) :
  shape xs L in_size -> (1 <= L)%nat ->
  exists r,
    lstm in_size H P tr p keep xs = Ok r /\
    last_step (fst r) = Ok (last_position H P tr p keep xs) /\
    nth 2 (snd r) [] =
      fst (snd (lstm_scan H (P 1%nat false) (lstm_mid H P tr p keep xs)
                          (zero_state H))) /\
    nth 3 (snd r) [] =
      fst (snd (lstm_scan H (P 1%nat true) (rev (lstm_mid H P tr p keep xs))
                          (zero_state H))).
Proof.
  intros Hxs HL. destruct (lstm_ok in_size H P tr p keep xs L Hxs HL) as [Hrun _].
  eexists. split; [exact Hrun|]. cbn [fst snd].
  split; [|split; reflexivity].
  unfold last_position, forward_half, backward_half. cbn zeta.
  pose proof (lstm_mid_length H P tr p keep xs) as Hmid.
  destruct Hxs as [Hlen _].
  assert (Hne : lstm_mid H P tr p keep xs <> []).
  { intros E. rewrite E in Hmid. cbn in Hmid. lia. }
  rewrite (app_removelast_last [] Hne) at 1 2.
  apply lstm_layer_last.
Qed.

Lemma mapM_map {A B C} (k : A -> B) (g : B -> result C) (l : list A) :
  mapM g (map k l) = mapM (fun a => g (k a)) l.
Proof.
  induction l as [|a l IH]; [reflexivity|]. cbn [map mapM]. now rewrite IH.
Qed.

Lemma mapM_then {A B C} (f : A -> result B) (g : B -> result C) (h : A -> C)
    (l : list A) :
  (forall a, In a l -> exists b, f a = Ok b /\ g b = Ok (h a)) ->
  exists bs, mapM f l = Ok bs /\ mapM g bs = Ok (map h l).
Proof.
  induction l as [|a l IH]; intros Hf.
  - exists []. split; reflexivity.
  - destruct (Hf a (or_introl eq_refl)) as (b & Hb & Hg).
    destruct IH as (bs & Hbs & Hgs).
    { intros a' Ha'. apply Hf. now right. }
    exists (b :: bs). cbn [mapM map]. rewrite Hb. cbn [rbind]. rewrite Hbs.
    cbn [rbind]. rewrite Hg. cbn [rbind]. rewrite Hgs. split; reflexivity.
Qed.

(** ** Hyperbolic tangent and the logistic function *)

Lemma sigmoid_pos (x : R) : 0 < sigmoid x.
Proof.
  unfold sigmoid. pose proof (exp_pos (- x)). apply Rdiv_lt_0_compat; lra.
Qed.

Lemma tanh_exp (x : R) : tanh x = (exp x * exp x - 1) / (exp x * exp x + 1).
Proof.
  unfold tanh, sinh, cosh. rewrite exp_Ropp.
  pose proof (exp_pos x). field. split; nra.
Qed.

Lemma ratio_inj (X Y : R) :
  0 < X -> 0 < Y -> (X - 1) / (X + 1) = (Y - 1) / (Y + 1) -> X = Y.
Proof.
  intros HX HY H.
  assert (E : (X - 1) / (X + 1) * ((X + 1) * (Y + 1)) =
              (Y - 1) / (Y + 1) * ((X + 1) * (Y + 1))) by (now rewrite H).
  replace ((X - 1) / (X + 1) * ((X + 1) * (Y + 1)))
    with ((X - 1) * (Y + 1)) in E by (field; lra).
  replace ((Y - 1) / (Y + 1) * ((X + 1) * (Y + 1)))
    with ((Y - 1) * (X + 1)) in E by (field; lra).
  lra.
Qed.

Lemma tanh_inj (x y : R) : tanh x = tanh y -> x = y.
Proof.
  rewrite !tanh_exp. intros H.
  pose proof (exp_pos x) as Hx. pose proof (exp_pos y) as Hy.
  apply ratio_inj in H; [|nra|nra].
  assert (E : (exp x - exp y) * (exp x + exp y) = 0) by lra.
  apply Rmult_integral in E as [E|E]; [|lra].
  apply exp_inv. lra.
Qed.

Lemma tanh_1_pos : 0 < tanh 1.
Proof.
  rewrite tanh_exp. pose proof (exp_pos 1).
  assert (Hlt : exp 0 < exp 1) by (apply exp_increasing; lra).
  rewrite exp_0 in Hlt.
  apply Rdiv_lt_0_compat; nra.
Qed.

(** ** The backward direction of the last layer of [Demo.biased] *)

Lemma dot_zeros (w : nat -> R) (x : vec) :
  (forall c, w c = 0) -> dot w x = 0.
Proof.
  intros Hw. unfold dot. apply rsum_zero. intros i _. rewrite Hw. ring.
Qed.

Lemma biased_gate (x h : vec) (r : nat) :
  gate (lstm_params Demo.biased 1 true) x h r = 1.
Proof.
  unfold gate. cbn [lstm_params weight_ih weight_hh bias_ih bias_hh
                    Demo.biased Demo.built assemble params].
  rewrite !dot_zeros by reflexivity. unfold Demo.zeros. ring.
Qed.

Lemma biased_cell (n : nat) (x : vec) (hc : vec * vec) :
  nth 0 (fst (lstm_cell (S n) (lstm_params Demo.biased 1 true) x hc)) 0 =
    sigmoid 1 * tanh (sigmoid 1 * nth 0 (snd hc) 0 + sigmoid 1 * tanh 1) /\
  nth 0 (snd (lstm_cell (S n) (lstm_params Demo.biased 1 true) x hc)) 0 =
    sigmoid 1 * nth 0 (snd hc) 0 + sigmoid 1 * tanh 1.
Proof.
  unfold lstm_cell. cbn [fst snd seq map nth]. rewrite !biased_gate.
  split; reflexivity.
Qed.

Lemma biased_first_step_differs (n : nat) (y1 y2 : vec) :
  fst (lstm_cell (S n) (lstm_params Demo.biased 1 true) y2 (zero_state (S n)))
  <>
  fst (lstm_cell (S n) (lstm_params Demo.biased 1 true) y1
         (lstm_cell (S n) (lstm_params Demo.biased 1 true) y2
            (zero_state (S n)))).
Proof.
  intros E. apply (f_equal (fun v => nth 0 v 0)) in E.
  rewrite (proj1 (biased_cell n y1 _)) in E.
  rewrite (proj2 (biased_cell n y2 _)) in E.
  rewrite (proj1 (biased_cell n y2 _)) in E.
  cbn [zero_state snd repeat nth] in E.
  pose proof (sigmoid_pos 1) as Ha. pose proof tanh_1_pos as Hb.
  apply Rmult_eq_reg_l in E; [|lra].
  apply tanh_inj in E.
  assert (0 < sigmoid 1 * (sigmoid 1 * tanh 1))
    by (apply Rmult_lt_0_compat;
        [exact Ha|apply Rmult_lt_0_compat; [exact Ha|exact Hb]]).
  lra.
Qed.

(** ** One pass of the loop body, for any loss function *)

Section Steps.
Variable bert :
  (nat -> tensor) -> bool -> nat -> list (list Z) -> list (list Z) ->
  result (list mat).
Variable bert_size : nat.
Variable criterion : list vec -> list Z -> result pyfloat.
Variable autograd : SarcasmDetector -> noise -> batch -> pname -> tensor.
Context {S : Type}.
Variable update : S -> tensor -> tensor -> tensor * S.

Lemma tracked_record (m : SarcasmDetector) (o : optimizer S) (g : bool)
    (lg : list event) (names : list pname) :
  tracked {| net := m; optim := o; grad_mode := g; log := lg |} names =
  if g then filter (requires_grad m) names else [].
Proof. reflexivity. Qed.

(** One pass of the loop body, case by case. *)
Lemma train_step_unfold (b : batch) (w : noise) (s : world S) :
  let m1 := clear_grads (optim s) (net s) in
  let at_encoder :=
    log s ++ [EvToDevice; EvToDevice; EvToDevice; EvZeroGrad;
              EvEncoder false (training (net s) MBert)] in
  let stopped lg :=
    {| net := m1; optim := optim s; grad_mode := grad_mode s; log := lg |} in
  train_step bert bert_size criterion autograd update (b, w) s =
  match bert (fun i => params (net s) (BertP i)) (training (net s) MBert)
             (bert_seed w) (input_ids b) (attention_mask b) with
  | Raise e => (Raise e, stopped at_encoder)
  | Ok emb =>
      match predictions_of m1 w emb with
      | Raise e => (Raise e, stopped at_encoder)
      | Ok preds =>
          match criterion preds (labels b) with
          | Raise e => (Raise e, stopped (at_encoder ++ [EvForward preds]))
          | Ok l =>
              match tracked s head_param_names with
              | [] =>
                  (Raise RuntimeError,
                   stopped (at_encoder ++
                            [EvForward preds; EvCriterion preds (labels b) l]))
              | _ :: _ =>
                  let m2 := accumulate (tracked s head_param_names)
                                       (autograd m1 w b) m1 in
                  (Ok l,
                   {| net := step_params update (optim s) m2;
                      optim := step_state update (optim s) m2;
                      grad_mode := grad_mode s;
                      log := at_encoder ++
                             [EvForward preds; EvCriterion preds (labels b) l;
                              EvBackward; EvStep] |})
              end
          end
      end
  end.
Proof.
  cbn zeta. run.
  destruct (bert _ _ _ _ _) as [emb|e]; run;
    [|now rewrite <- !app_assoc].
  destruct (predictions_of _ w emb) as [preds|e]; run;
    [|now rewrite <- !app_assoc].
  destruct (criterion preds (labels b)) as [l|e]; run;
    [|now rewrite <- !app_assoc].
  rewrite !tracked_record. cbn [app requires_grad clear_grads].
  fold (tracked s head_param_names).
  destruct (tracked s head_param_names) as [|n rest]; run;
    now rewrite <- !app_assoc.
Qed.

(** What the forward pass of a step computes on a labelled batch. *)
Lemma step_forward (b : batch) (w : noise) (s : world S) :
  encoder_contract bert -> labelled_batch b ->
  exists embs logits,
    bert (fun i => params (net s) (BertP i)) (training (net s) MBert)
         (bert_seed w) (input_ids b) (attention_mask b) = Ok embs /\
    logits_of (net s) w embs = Ok logits /\
    predictions_of (clear_grads (optim s) (net s)) w embs =
      Ok (map softmax logits) /\
    shape logits (length (labels b)) Arch.num_classes /\
    (1 <= length (labels b))%nat.
Proof.
  intros Hbert (B & L & HB & Htok & Hlab & _).
  destruct (Hbert (fun i => params (net s) (BertP i)) (training (net s) MBert)
              (bert_seed w) (input_ids b) (attention_mask b) B L Htok)
    as (embs & Hemb & Hlen & Hshape).
  destruct Htok as (_ & _ & HL & _).
  destruct (predictions_ok (net s) w embs L Hshape (proj1 HL))
    as (logits & Hlogits & Hpred & Hs).
  exists embs, logits. rewrite Hlab, <- Hlen.
  split; [exact Hemb|]. split; [exact Hlogits|].
  split; [exact Hpred|]. split; [exact Hs|]. now rewrite Hlen.
Qed.

Lemma trainable_record (m : SarcasmDetector) (o : optimizer S) (g : bool)
    (lg : list event) (s : world S) :
  trainable s -> requires_grad m = requires_grad (net s) -> g = grad_mode s ->
  trainable {| net := m; optim := o; grad_mode := g; log := lg |}.
Proof.
  intros [Hgm Hreq] Hm ->. split; [exact Hgm|].
  intros n Hn. cbn [net]. rewrite Hm. now apply Hreq.
Qed.



End Steps.




(** ** What an epoch does to the parameters *)

Section Frame.
Variable bert :
  (nat -> tensor) -> bool -> nat -> list (list Z) -> list (list Z) ->
  result (list mat).
Variable bert_size : nat.
Variable criterion : list vec -> list Z -> result pyfloat.
Variable autograd : SarcasmDetector -> noise -> batch -> pname -> tensor.
Context {S : Type}.
Variable update : S -> tensor -> tensor -> tensor * S.

Hypothesis bert_ok : encoder_contract bert.
Hypothesis criterion_ok : criterion_contract criterion.

(** The encoder's parameters are the same after the epoch as before it,
    whether or not they require a gradient and whether or not the optimizer
    was given them: the encoder is read with gradient tracking suspended, so
    they never hold a gradient when the optimizer steps. *)
Lemma train_epoch_preserves_encoder (train_loader : list (batch * noise))
    (s : world S) (i : nat) :
  trainable s ->
  Forall (fun bw => labelled_batch (fst bw)) train_loader ->
  params (net (snd (train_epoch bert bert_size criterion autograd update
                                train_loader s))) (BertP i) =
  params (net s) (BertP i).
Proof.
  intros Htr Hall.
  destruct (train_epoch_run bert bert_size criterion autograd update
              bert_ok criterion_ok train_loader s Htr Hall)
    as (ps & s' & Hrun & _ & _ & _ & Hframe & _).
  rewrite Hrun. apply Hframe.
Qed.

(** Every pass hands each parameter of the later layers that the optimizer
    holds to the optimizer's update rule, with the gradient of that batch
    alone (the gradients were cleared at the start of the pass). *)
Lemma after_pass_head_update (s : world S) (w : noise) (p : pass) (n : pname) :
  trainable s ->
  In n head_param_names ->
  in_group (optim s) n = true ->
  params (net (after_pass autograd update s w p)) n =
  fst (update (state (optim s) n) (params (net s) n)
              (autograd (clear_grads (optim s) (net s)) w (pass_batch p) n)).
Proof.
  intros [Hgm Hreq] Hn Hgroup.
  unfold after_pass. cbn [net step_params params]. unfold updated.
  cbn [accumulate grad clear_grads params]. rewrite Hgroup.
  assert (Hin : existsb (pname_eqb n) (tracked s head_param_names) = true).
  { apply existsb_pname. unfold tracked. rewrite Hgm.
    apply filter_In. split; [exact Hn|]. now apply Hreq. }
  rewrite Hin. reflexivity.
Qed.

(** In one pass such an update rule changes every parameter of the later
    layers whose gradient on that batch is not zero. *)
Lemma after_pass_moves_head (s : world S) (w : noise) (p : pass) (n : pname) :
  trainable s ->
  In n head_param_names ->
  in_group (optim s) n = true ->
  moving update ->
  nonzero (autograd (clear_grads (optim s) (net s)) w (pass_batch p) n) ->
  params (net (after_pass autograd update s w p)) n <> params (net s) n.
Proof.
  intros Htr Hn Hgroup Hmove Hg.
  rewrite (after_pass_head_update s w p n Htr Hn Hgroup).
  now apply Hmove.
Qed.
End Frame.

Lemma sgd_moving : moving Demo.sgd.
Proof.
  intros st p g [i Hi] E. cbn [Demo.sgd fst] in E.
  apply (f_equal (fun t => t i)) in E. cbn beta in E. lra.
Qed.

Lemma mapM_In {A B} (f : A -> result B) (l : list A) (bs : list B) :
  mapM f l = Ok bs ->
  forall b, In b bs -> exists a, In a l /\ f a = Ok b.
Proof.
  revert bs. induction l as [|a l IH]; intros bs; cbn [mapM].
  - intros [= <-] b [].
  - destruct (f a) as [b0|e] eqn:Ea; [|discriminate]. cbn [rbind].
    destruct (mapM f l) as [bs0|e]; [|discriminate]. cbn [rbind].
    intros [= <-] b [<-|Hb].
    + exists a. split; [now left|exact Ea].
    + destruct (IH bs0 eq_refl b Hb) as (a' & Ha' & Hf).
      exists a'. split; [now right|exact Hf].
Qed.

(* ================================================================== *)
(** * Properties of the forward pass in binary32 *)

(** ** The arithmetic *)

Lemma F32_rnd_between (a : F32.arith) (lo hi x : R) :
  F32.standard a ->
  F32.rnd a lo = F32.Fin lo -> F32.rnd a hi = F32.Fin hi ->
  lo <= x <= hi ->
  exists y, F32.rnd a x = F32.Fin y /\ lo <= y <= hi.
Proof.
  intros Hstd Hlo Hhi [H1 H2].
  pose proof (F32.rnd_mono a Hstd lo x H1) as Hle1.
  pose proof (F32.rnd_mono a Hstd x hi H2) as Hle2.
  rewrite Hlo in Hle1. rewrite Hhi in Hle2.
  destruct (F32.rnd a x) as [y| | |]; cbn [F32.le] in Hle1, Hle2;
    try contradiction.
  exists y. split; [reflexivity|lra].
Qed.

Lemma F32_u_small : 0 < F32.u <= 1 / 16000000.
Proof.
  unfold F32.u.
  assert (H : IZR 16000000 <= IZR (2 ^ 24)) by (apply IZR_le; vm_compute; discriminate).
  assert (Hpos : 0 < IZR (2 ^ 24)) by lra.
  split; [now apply Rinv_0_lt_compat|].
  unfold Rdiv. rewrite Rmult_1_l. apply Rinv_le_contravar; lra.
Qed.

Lemma F32_eta_small : 0 < F32.eta <= 1 / 16000000.
Proof.
  unfold F32.eta.
  assert (H : IZR 16000000 <= IZR (2 ^ 149)) by (apply IZR_le; vm_compute; discriminate).
  assert (Hpos : 0 < IZR (2 ^ 149)) by lra.
  split; [now apply Rinv_0_lt_compat|].
  unfold Rdiv. rewrite Rmult_1_l. apply Rinv_le_contravar; lra.
Qed.

(** ** nn.Softmax on two scores *)

Lemma F32_exp_sub_below (a : F32.arith) (z : F32.t) (m : R) :
  F32.standard a ->
  z = F32.NInf \/ (exists x, z = F32.Fin x /\ x <= m) ->
  exists e, F32.exp a (F32.sub a z (F32.Fin m)) = F32.Fin e /\ 0 <= e <= 1.
Proof.
  intros Hstd [-> | (x & -> & Hx)].
  - exists 0. split; [reflexivity|lra].
  - unfold F32.sub. cbn [F32.neg F32.add].
    assert (Hle : x + - m <= 0) by lra.
    pose proof (F32.rnd_mono a Hstd _ _ Hle) as Hmono.
    rewrite (F32.rnd_0 a Hstd) in Hmono.
    destruct (F32.rnd a (x + - m)) as [d| | |]; cbn [F32.le] in Hmono;
      try contradiction; cbn [F32.exp].
    + exact (F32.fexp_range a Hstd d Hmono).
    + exists 0. split; [reflexivity|lra].
Qed.

Lemma F32_exp_sub_self (a : F32.arith) (m : R) :
  F32.standard a ->
  F32.exp a (F32.sub a (F32.Fin m) (F32.Fin m)) = F32.Fin 1.
Proof.
  intros Hstd. unfold F32.sub. cbn [F32.neg F32.add].
  rewrite Rplus_opp_r, (F32.rnd_0 a Hstd). cbn [F32.exp].
  exact (F32.fexp_0 a Hstd).
Qed.

(** The normalisation of two exponentials of which the larger is 1. *)
Lemma F32_normalise_pair (a : F32.arith) (e1 e2 : R) :
  F32.standard a ->
  0 <= e1 <= 1 -> 0 <= e2 <= 1 -> e1 = 1 \/ e2 = 1 ->
  distribution32
    [F32.div a (F32.Fin e1) (F32.add a (F32.Fin e1) (F32.Fin e2));
     F32.div a (F32.Fin e2) (F32.add a (F32.Fin e1) (F32.Fin e2))].
Proof.
  intros Hstd He1 He2 Hone. cbn [F32.add].
  pose proof F32_u_small as [Hu0 Hu]. pose proof F32_eta_small as [Heta0 Heta].
  assert (Ht : 1 <= e1 + e2 <= 2) by (destruct Hone; lra).
  destruct (F32_rnd_between a 1 2 (e1 + e2) Hstd
              (F32.rnd_1 a Hstd) (F32.rnd_2 a Hstd) Ht) as (s & Hs & Hs12).
  pose proof (F32.rnd_error a Hstd _ _ Hs) as Hserr.
  rewrite (Rabs_right (e1 + e2)) in Hserr by lra.
  rewrite Hs. cbn [F32.div].
  destruct (Req_dec_T s 0) as [E|_]; [lra|].
  assert (Hspos : 0 < s) by lra.
  assert (Hinv : 0 < / s <= 1).
  { split; [now apply Rinv_0_lt_compat|].
    rewrite <- Rinv_1. apply Rinv_le_contravar; lra. }
  assert (Hq : forall e, 0 <= e <= 1 -> 0 <= e / s <= 1).
  { intros e He. unfold Rdiv. split; [apply Rmult_le_pos; lra|].
    destruct Hinv as [Hi0 Hi1]. nra. }
  destruct (F32_rnd_between a 0 1 (e1 / s) Hstd
              (F32.rnd_0 a Hstd) (F32.rnd_1 a Hstd) (Hq e1 He1))
    as (p1 & Hp1 & Hp1r).
  destruct (F32_rnd_between a 0 1 (e2 / s) Hstd
              (F32.rnd_0 a Hstd) (F32.rnd_1 a Hstd) (Hq e2 He2))
    as (p2 & Hp2 & Hp2r).
  pose proof (F32.rnd_error a Hstd _ _ Hp1) as Hp1err.
  pose proof (F32.rnd_error a Hstd _ _ Hp2) as Hp2err.
  rewrite (Rabs_right (e1 / s)) in Hp1err by (destruct (Hq e1 He1); lra).
  rewrite (Rabs_right (e2 / s)) in Hp2err by (destruct (Hq e2 He2); lra).
  rewrite Hp1, Hp2. exists [p1; p2]. split; [reflexivity|].
  split; [|apply Forall_cons; [lra|apply Forall_cons; [lra|apply Forall_nil]]].
  rewrite !rsum_cons, rsum_nil.
  pose proof (Hq e1 He1) as Hq1. pose proof (Hq e2 He2) as Hq2.
  assert (Hratio : Rabs ((e1 + e2) / s - 1) <= F32.u * 2 + F32.eta).
  { replace ((e1 + e2) / s - 1) with ((e1 + e2 - s) * / s) by (field; lra).
    rewrite Rabs_mult, (Rabs_right (/ s)) by lra.
    rewrite <- Rabs_Ropp in Hserr.
    replace (- (s - (e1 + e2))) with (e1 + e2 - s) in Hserr by ring.
    pose proof (Rabs_pos (e1 + e2 - s)) as Hpos.
    destruct Hinv as [Hi0 Hi1].
    apply Rle_trans with (Rabs (e1 + e2 - s) * 1); [nra|].
    rewrite Rmult_1_r. nra. }
  replace (p1 + (p2 + 0) - 1)
    with ((p1 - e1 / s) + (p2 - e2 / s) + ((e1 + e2) / s - 1))
    by (field; lra).
  eapply Rle_trans; [apply Rabs_triang|].
  eapply Rle_trans; [apply Rplus_le_compat_r, Rabs_triang|].
  assert (Hb1 : Rabs (p1 - e1 / s) <= F32.u + F32.eta) by nra.
  assert (Hb2 : Rabs (p2 - e2 / s) <= F32.u + F32.eta) by nra.
  lra.
Qed.

(** A row whose largest score is finite becomes a distribution. *)
Lemma softmax32_scorable (a : F32.arith) (z1 z2 : F32.t) :
  F32.standard a ->
  scorable [z1; z2] -> distribution32 (softmax32 a [z1; z2]).
Proof.
  intros Hstd [m Hm]. unfold softmax32.
  cbn [F32.maximum fold_left] in Hm |- *. rewrite Hm.
  cbn [map F32.sum fold_left].
  assert (Hz : (z1 = F32.NInf \/ exists x, z1 = F32.Fin x /\ x <= m) /\
               (z2 = F32.NInf \/ exists x, z2 = F32.Fin x /\ x <= m) /\
               (z1 = F32.Fin m \/ z2 = F32.Fin m)).
  { destruct z1 as [x| | |], z2 as [y| | |]; cbn [F32.max] in Hm;
      try discriminate Hm; injection Hm as <-.
    - split; [right; exists x; split; [reflexivity|apply Rmax_l]|].
      split; [right; exists y; split; [reflexivity|apply Rmax_r]|].
      unfold Rmax. destruct (Rle_dec x y); [now right|now left].
    - split; [right; exists x; split; [reflexivity|lra]|].
      split; [now left|now left].
    - split; [now left|].
      split; [right; exists y; split; [reflexivity|lra]|now right]. }
  destruct Hz as (H1 & H2 & Hmax).
  destruct (F32_exp_sub_below a z1 m Hstd H1) as (e1 & He1 & He1r).
  destruct (F32_exp_sub_below a z2 m Hstd H2) as (e2 & He2 & He2r).
  assert (Hone : e1 = 1 \/ e2 = 1).
  { destruct Hmax as [-> | ->].
    - left. rewrite (F32_exp_sub_self a m Hstd) in He1. congruence.
    - right. rewrite (F32_exp_sub_self a m Hstd) in He2. congruence. }
  rewrite He1, He2. now apply F32_normalise_pair.
Qed.

(** Any other row becomes NaN throughout. *)
Lemma softmax32_unscorable (a : F32.arith) (z1 z2 : F32.t) :
  ~ scorable [z1; z2] -> softmax32 a [z1; z2] = [F32.NaN; F32.NaN].
Proof.
  intros Hno. unfold softmax32.
  destruct z1 as [x| | |], z2 as [y| | |];
    try reflexivity;
    exfalso; apply Hno; unfold scorable; cbn [F32.maximum fold_left F32.max];
    eexists; reflexivity.
Qed.

Lemma not_distribution32_nan : ~ distribution32 [F32.NaN; F32.NaN].
Proof.
  intros (ps & Hps & _). destruct ps as [|p ps]; discriminate Hps.
Qed.

(** ** Shapes *)

Lemma permute32_shape (x : mat32) (r c : nat) :
  shape x r c -> (1 <= r)%nat -> shape (permute32 x) c r.
Proof.
  intros Hx Hr. unfold permute32. rewrite (shape_hd x r c Hx Hr).
  destruct Hx as [Hlen _]. split.
  - now rewrite length_map, length_seq.
  - apply Forall_map, Forall_forall. intros j _. now rewrite length_map.
Qed.

Lemma permute_from32_rows (width : nat) (x : mat32) (r c : nat) :
  shape x r c -> (1 <= r)%nat -> permute_from32 width x = permute32 x.
Proof.
  intros [Hlen _] Hr. destruct x; [cbn in Hlen; lia|reflexivity].
Qed.

Lemma conv1d32_ok (a : F32.arith) (in_ch out_ch k p : nat) (W b : tensor)
    (x : mat32) (L : nat) :
  shape x in_ch L -> (1 <= in_ch)%nat -> (k <= L + 2 * p)%nat ->
  exists y,
    conv1d32 a in_ch out_ch k p W b x = Ok y /\
    shape y out_ch (L + 2 * p - (k - 1)).
Proof.
  intros Hx Hin Hk. unfold conv1d32.
  rewrite (shape_hd x in_ch L Hx Hin). destruct Hx as [Hlen _].
  rewrite Hlen, Nat.eqb_refl. cbn [negb].
  destruct (Nat.ltb_spec (L + 2 * p) k) as [Hlt|_]; [lia|].
  eexists. split; [reflexivity|]. split.
  - now rewrite length_map, length_seq.
  - apply Forall_map, Forall_forall. intros o _.
    now rewrite length_map, length_seq.
Qed.

Lemma dropout32_length (a : F32.arith) (tr : bool) (p : Q) (keep : nat -> bool)
    (x : vec32) :
  length (dropout32 a tr p keep x) = length x.
Proof.
  unfold dropout32. destruct (tr && negb (Qeq_bool p 0)); [|reflexivity].
  now rewrite length_map, length_seq.
Qed.

Lemma lstm_cell32_shape (a : F32.arith) (H : nat) (P : lstm_weights)
    (x : vec32) (hc : vec32 * vec32) :
  length (fst (lstm_cell32 a H P x hc)) = H.
Proof.
  unfold lstm_cell32. cbn [fst]. now rewrite length_map, length_seq.
Qed.

Lemma lstm_scan32_shape (a : F32.arith) (H : nat) (P : lstm_weights)
    (xs : mat32) (hc : vec32 * vec32) :
  shape (fst (lstm_scan32 a H P xs hc)) (length xs) H.
Proof.
  revert hc. induction xs as [|x xs IH]; intros hc;
    cbn [lstm_scan32 fst length].
  - split; [reflexivity|constructor].
  - destruct (IH (lstm_cell32 a H P x hc)) as [Hlen Hrows]. split.
    + cbn [length]. now rewrite Hlen.
    + constructor; [apply lstm_cell32_shape|exact Hrows].
Qed.

Lemma lstm_layer32_shape (a : F32.arith) (H : nat) (Pf Pb : lstm_weights)
    (xs : mat32) :
  shape (lstm_layer32 a H Pf Pb xs) (length xs) (H + H).
Proof.
  unfold lstm_layer32.
  destruct (lstm_scan32_shape a H Pf xs (zero_state32 H)) as [Hlf Hrf].
  destruct (lstm_scan32_shape a H Pb (rev xs) (zero_state32 H)) as [Hlb Hrb].
  rewrite length_rev in Hlb. split.
  - rewrite length_map, length_combine, length_rev, Hlf, Hlb. apply Nat.min_id.
  - apply Forall_map, Forall_forall. intros [f b] Hin. cbn [fst snd].
    rewrite length_app.
    rewrite Forall_forall in Hrf, Hrb.
    pose proof (in_combine_l _ _ _ _ Hin) as Hf.
    pose proof (in_combine_r _ _ _ _ Hin) as Hb.
    apply in_rev in Hb. now rewrite (Hrf f Hf), (Hrb b Hb).
Qed.

Lemma lstm_mid32_length (a : F32.arith) (H : nat)
    (P : nat -> bool -> lstm_weights) (tr : bool) (p : Q)
    (keep : nat -> nat -> bool) (xs : mat32) :
  length (lstm_mid32 a H P tr p keep xs) = length xs.
Proof.
  unfold lstm_mid32. rewrite length_map, indexed_length.
  apply (lstm_layer32_shape a H (P 0%nat false) (P 0%nat true) xs).
Qed.

Lemma lstm32_ok (a : F32.arith) (in_size H : nat)
    (P : nat -> bool -> lstm_weights) (tr : bool) (p : Q)
    (keep : nat -> nat -> bool) (xs : mat32) (L : nat) :
  shape xs L in_size -> (1 <= L)%nat ->
  lstm32 a in_size H P tr p keep xs =
    Ok (lstm_layer32 a H (P 1%nat false) (P 1%nat true)
                     (lstm_mid32 a H P tr p keep xs)) /\
  shape (lstm_layer32 a H (P 1%nat false) (P 1%nat true)
                      (lstm_mid32 a H P tr p keep xs)) L (H + H).
Proof.
  intros [Hlen Hrows] HL. unfold lstm32.
  destruct xs as [|x0 xs0] eqn:Exs; [cbn in Hlen; lia|]. rewrite <- Exs in *.
  assert (Hall : forallb (fun row => (length row =? in_size)%nat) xs = true).
  { apply forallb_forall. intros row Hrow. rewrite Forall_forall in Hrows.
    apply Nat.eqb_eq. now apply Hrows. }
  rewrite Hall. split; [reflexivity|].
  rewrite <- Hlen, <- (lstm_mid32_length a H P tr p keep xs).
  apply lstm_layer32_shape.
Qed.

Lemma last_step32_ok (xs : mat32) :
  xs <> [] -> exists r, last_step32 xs = Ok r /\ In r xs.
Proof.
  intros Hne. unfold last_step32.
  destruct (rev xs) as [|r rest] eqn:E.
  - apply (f_equal (@rev (list F32.t))) in E. rewrite rev_involutive in E.
    now cbn in E.
  - exists r. split; [reflexivity|]. apply in_rev. rewrite E. now left.
Qed.

Lemma linear32_ok (a : F32.arith) (in_f out_f : nat) (W b : tensor)
    (x : vec32) :
  length x = in_f ->
  exists y, linear32 a in_f out_f W b x = Ok y /\ length y = out_f.
Proof.
  intros Hlen. unfold linear32. rewrite Hlen, Nat.eqb_refl.
  eexists. split; [reflexivity|]. now rewrite length_map, length_seq.
Qed.

Section Stages32.
Import Arch.
Variable a : F32.arith.
Variable m : SarcasmDetector.
Variable w : noise.

Lemma cnn_stage32_ok (embs : list mat32) (L : nat) :
  Forall (fun e => shape e L bert_dim) embs -> (1 <= L)%nat ->
  exists lstm_in,
    cnn_stage32 a m embs = Ok lstm_in /\
    length lstm_in = length embs /\
    Forall (fun x => shape x L cnn_out_channels) lstm_in.
Proof.
  intros Hembs HL. unfold cnn_stage32.
  assert (Hmap : map (permute_from32 bert_dim) embs = map permute32 embs).
  { apply map_ext_in. intros x Hx. rewrite Forall_forall in Hembs.
    exact (permute_from32_rows bert_dim x L bert_dim (Hembs x Hx) HL). }
  rewrite Hmap.
  destruct (mapM_ok
              (conv1d32 a bert_dim cnn_out_channels kernel_size padding
                        (params m ConvWeight) (params m ConvBias))
              (fun y => shape y cnn_out_channels L)
              (map permute32 embs)) as (conv & Hconv & Hlen & Hshape).
  { intros x Hx. apply in_map_iff in Hx as (e & <- & He).
    rewrite Forall_forall in Hembs.
    pose proof (permute32_shape e L bert_dim (Hembs e He) HL) as Hp.
    destruct (conv1d32_ok a bert_dim cnn_out_channels kernel_size padding
                (params m ConvWeight) (params m ConvBias) (permute32 e) L Hp)
      as (y & Hy & Hs).
    - unfold bert_dim. lia.
    - unfold kernel_size, padding. lia.
    - exists y. split; [exact Hy|].
      replace (L + 2 * padding - (kernel_size - 1))%nat with L in Hs
        by (unfold kernel_size, padding; lia).
      exact Hs. }
  rewrite Hconv. cbn [rbind]. eexists. split; [reflexivity|]. split.
  - now rewrite !length_map, Hlen, length_map.
  - apply Forall_map, Forall_map. eapply Forall_impl; [|exact Hshape].
    intros y Hy. cbn. apply permute32_shape.
    + now apply shape_map_map.
    + unfold cnn_out_channels. lia.
Qed.

Lemma lstm_stage32_ok (lstm_in : list mat32) (L : nat) :
  Forall (fun x => shape x L cnn_out_channels) lstm_in -> (1 <= L)%nat ->
  exists out,
    lstm_stage32 a m w lstm_in = Ok out /\
    length out = length lstm_in /\
    Forall (fun o => shape o L (lstm_hidden_size + lstm_hidden_size)) out.
Proof.
  intros Hin HL. unfold lstm_stage32.
  destruct (mapM_ok
              (fun bx : nat * mat32 =>
                 lstm32 a cnn_out_channels lstm_hidden_size (lstm_params m)
                        (training m MLstm) (dropout_rate m)
                        (lstm_keep w (fst bx)) (snd bx))
              (fun o => shape o L (lstm_hidden_size + lstm_hidden_size))
              (indexed lstm_in)) as (r & Hr & Hlen & Hshape).
  { intros bx Hbx. apply indexed_In in Hbx.
    rewrite Forall_forall in Hin.
    destruct (lstm32_ok a cnn_out_channels lstm_hidden_size (lstm_params m)
                (training m MLstm) (dropout_rate m) (lstm_keep w (fst bx))
                (snd bx) L (Hin _ Hbx) HL) as [Hrun Hs].
    eexists. split; [exact Hrun|exact Hs]. }
  exists r. rewrite indexed_length in Hlen. auto.
Qed.

Lemma aggregated_state32_ok (embs : list mat32) (L : nat) :
  Forall (fun e => shape e L bert_dim) embs -> (1 <= L)%nat ->
  exists fh,
    aggregated_state32 a m w embs = Ok fh /\
    length fh = length embs /\
    Forall (fun v => length v = (lstm_hidden_size + lstm_hidden_size)%nat) fh.
Proof.
  intros Hembs HL. unfold aggregated_state32.
  destruct (cnn_stage32_ok embs L Hembs HL) as (lstm_in & -> & Hlen1 & Hs1).
  cbn [rbind].
  destruct (lstm_stage32_ok lstm_in L Hs1 HL) as (out & -> & Hlen2 & Hs2).
  cbn [rbind].
  destruct (mapM_ok last_step32
              (fun v => length v = (lstm_hidden_size + lstm_hidden_size)%nat)
              out) as (fh & Hfh & Hlen3 & Hs3).
  { intros o Ho. rewrite Forall_forall in Hs2.
    destruct (Hs2 o Ho) as [Hlen Hrows].
    destruct (last_step32_ok o) as (r & Hr & Hin).
    { intros ->. cbn in Hlen. lia. }
    exists r. split; [exact Hr|]. rewrite Forall_forall in Hrows.
    now apply Hrows. }
  exists fh. split; [exact Hfh|]. split; [|exact Hs3].
  now rewrite Hlen3, Hlen2.
Qed.

Lemma head_stage32_ok (fh : list vec32) :
  Forall (fun v => length v = (lstm_hidden_size + lstm_hidden_size)%nat) fh ->
  exists logits,
    head_stage32 a m w fh = Ok logits /\
    length logits = length fh /\
    Forall (fun row => length row = num_classes) logits.
Proof.
  intros Hfh. unfold head_stage32.
  destruct (mapM_ok
              (linear32 a (lstm_hidden_size * 2) dense_hidden_size
                        (params m Dense1Weight) (params m Dense1Bias))
              (fun y => length y = dense_hidden_size) fh)
    as (x & Hx & Hlen & Hrows).
  { intros v Hv. rewrite Forall_forall in Hfh. apply linear32_ok.
    rewrite (Hfh v Hv). lia. }
  rewrite Hx. cbn [rbind].
  match goal with
  | |- exists logits, mapM ?f ?l = _ /\ _ =>
      destruct (mapM_ok f (fun row => length row = num_classes) l)
        as (logits & Hl & Hlen' & Hrows')
  end.
  { intros v Hv. apply linear32_ok.
    apply in_map_iff in Hv as (br & <- & Hbr). rewrite dropout32_length.
    apply indexed_In, in_map_iff in Hbr as (y & <- & Hy).
    rewrite length_map. rewrite Forall_forall in Hrows. now apply Hrows. }
  exists logits. split; [exact Hl|]. split; [|exact Hrows'].
  now rewrite Hlen', length_map, indexed_length, length_map.
Qed.

Lemma logits32_ok (embs : list mat32) (L : nat) :
  Forall (fun e => shape e L bert_dim) embs -> (1 <= L)%nat ->
  exists logits,
    logits32 a m w embs = Ok logits /\
    shape logits (length embs) num_classes.
Proof.
  intros Hembs HL. unfold logits32.
  destruct (aggregated_state32_ok embs L Hembs HL) as (fh & -> & Hlen1 & Hs1).
  cbn [rbind].
  destruct (head_stage32_ok fh Hs1) as (logits & -> & Hlen2 & Hs2).
  exists logits. repeat split; auto. congruence.
Qed.
End Stages32.

Lemma softmax32_length (a : F32.arith) (row : vec32) :
  length (softmax32 a row) = length row.
Proof. unfold softmax32. now rewrite !length_map. Qed.

(** What [forward] returns in binary32, on a token batch. *)
Lemma forward32_run (a : F32.arith) (m : SarcasmDetector) (w : noise)
    (bert32 : (nat -> tensor) -> bool -> nat -> list (list Z) ->
              list (list Z) -> result (list mat32))
    (ids mask : list (list Z)) (B L : nat) :
  encoder_contract32 bert32 ->
  token_batch ids mask B L ->
  exists logits,
    forward_logits32 a m w bert32 ids mask = Ok logits /\
    forward32 a m w bert32 ids mask = Ok (map (softmax32 a) logits) /\
    shape logits B Arch.num_classes.
Proof.
  intros Hbert Htok.
  destruct (Hbert (fun i => params m (BertP i)) (training m MBert)
              (bert_seed w) ids mask B L Htok) as (emb & Hemb & Hlen & Hshape).
  destruct Htok as (_ & _ & HL & _).
  destruct (logits32_ok a m w emb L Hshape (proj1 HL)) as (logits & Hl & Hs).
  exists logits. unfold forward_logits32, forward32, predictions32.
  rewrite Hemb. cbn [rbind]. rewrite Hl. cbn [rbind].
  split; [reflexivity|]. split; [reflexivity|]. now rewrite <- Hlen.
Qed.

(** ** The arithmetic without rounding error *)

Lemma max_float32_facts :
  2 <= max_float32 /\ max_float32 < overflow_threshold32.
Proof.
  unfold max_float32, overflow_threshold32. split.
  - apply IZR_le. vm_compute. discriminate.
  - apply IZR_lt. vm_compute. reflexivity.
Qed.

Lemma rnd_exact32_in_range (x : R) :
  - max_float32 <= x <= max_float32 -> rnd_exact32 x = F32.Fin x.
Proof.
  intros Hx. pose proof max_float32_facts as [H2 Hlt]. unfold rnd_exact32.
  destruct (Rle_dec overflow_threshold32 x); [lra|].
  destruct (Rle_dec x (- overflow_threshold32)); [lra|].
  destruct (Rlt_dec max_float32 x); [lra|].
  destruct (Rlt_dec x (- max_float32)); [lra|]. reflexivity.
Qed.

Lemma rnd_exact32_overflow (x : R) :
  overflow_threshold32 <= x -> rnd_exact32 x = F32.PInf.
Proof.
  intros Hx. unfold rnd_exact32.
  destruct (Rle_dec overflow_threshold32 x); [reflexivity|lra].
Qed.

Lemma rnd_exact32_mono (x y : R) :
  x <= y -> F32.le (rnd_exact32 x) (rnd_exact32 y).
Proof.
  intros Hxy. pose proof max_float32_facts as [H2 Hlt]. unfold rnd_exact32.
  destruct (Rle_dec overflow_threshold32 x);
    destruct (Rle_dec overflow_threshold32 y);
    destruct (Rle_dec x (- overflow_threshold32));
    destruct (Rle_dec y (- overflow_threshold32));
    destruct (Rlt_dec max_float32 x);
    destruct (Rlt_dec max_float32 y);
    destruct (Rlt_dec x (- max_float32));
    destruct (Rlt_dec y (- max_float32));
    cbn [F32.le]; try exact I; lra.
Qed.

(** Half the gap above the largest number is within its relative error. *)
Lemma overflow_gap :
  overflow_threshold32 - max_float32 <= F32.u * max_float32.
Proof.
  unfold overflow_threshold32, max_float32, F32.u.
  assert (Hpos : 0 < IZR (2 ^ 24)) by (apply IZR_lt; vm_compute; reflexivity).
  apply Rmult_le_reg_l with (IZR (2 ^ 24)); [exact Hpos|].
  rewrite <- Rmult_assoc, Rinv_r, Rmult_1_l by lra.
  rewrite <- minus_IZR, <- mult_IZR. apply IZR_le. vm_compute. discriminate.
Qed.

Lemma rnd_exact32_error (x y : R) :
  rnd_exact32 x = F32.Fin y -> Rabs (y - x) <= F32.u * Rabs x + F32.eta.
Proof.
  pose proof max_float32_facts as [H2 Hlt]. pose proof overflow_gap as Hgap.
  pose proof F32_u_small as [Hu0 _]. pose proof F32_eta_small as [He0 _].
  unfold rnd_exact32.
  destruct (Rle_dec overflow_threshold32 x); [discriminate|].
  destruct (Rle_dec x (- overflow_threshold32)); [discriminate|].
  destruct (Rlt_dec max_float32 x) as [Hhi|Hhi].
  - intros [= <-]. rewrite (Rabs_right x) by lra.
    rewrite Rabs_left by lra.
    assert (F32.u * max_float32 <= F32.u * x)
      by (apply Rmult_le_compat_l; lra).
    lra.
  - destruct (Rlt_dec x (- max_float32)) as [Hlo|Hlo].
    + intros [= <-]. rewrite (Rabs_left x) by lra.
      rewrite Rabs_right by lra.
      assert (F32.u * max_float32 <= F32.u * - x)
        by (apply Rmult_le_compat_l; lra).
      lra.
    + intros [= <-]. replace (x - x) with 0 by ring. rewrite Rabs_R0.
      pose proof (Rabs_pos x). nra.
Qed.

Lemma tanh_bounds (x : R) : - 1 <= tanh x <= 1.
Proof.
  rewrite tanh_exp. pose proof (exp_pos x) as He.
  assert (Hsq : 0 < exp x * exp x) by nra.
  split.
  - apply Rmult_le_reg_r with (exp x * exp x + 1); [lra|].
    unfold Rdiv. rewrite Rmult_assoc, Rinv_l by lra. lra.
  - apply Rmult_le_reg_r with (exp x * exp x + 1); [lra|].
    unfold Rdiv. rewrite Rmult_assoc, Rinv_l by lra. lra.
Qed.

Lemma sigmoid_bounds (x : R) : 0 <= sigmoid x <= 1.
Proof.
  pose proof (sigmoid_pos x) as Hpos. split; [lra|].
  unfold sigmoid. pose proof (exp_pos (- x)).
  apply Rmult_le_reg_r with (1 + exp (- x)); [lra|].
  unfold Rdiv. rewrite Rmult_assoc, Rinv_l by lra. lra.
Qed.

Lemma exact32_standard : F32.standard exact32.
Proof.
  pose proof max_float32_facts as [H2 Hlt].
  constructor; cbn [exact32 F32.rnd F32.fexp F32.ftanh F32.fsigmoid].
  - exact rnd_exact32_mono.
  - apply rnd_exact32_in_range. lra.
  - apply rnd_exact32_in_range. lra.
  - apply rnd_exact32_in_range. lra.
  - apply rnd_exact32_in_range. lra.
  - exact rnd_exact32_error.
  - rewrite exp_0. apply rnd_exact32_in_range. lra.
  - intros x Hx. exists (exp x).
    pose proof (exp_pos x) as Hpos.
    assert (Hle : exp x <= 1).
    { rewrite <- exp_0. destruct Hx as [Hx|Hx].
      - left. now apply exp_increasing.
      - rewrite Hx. lra. }
    split; [apply rnd_exact32_in_range; lra|lra].
  - intros x. exists (tanh x). split; [reflexivity|apply tanh_bounds].
  - intros x. exists (sigmoid x). split; [reflexivity|apply sigmoid_bounds].
Qed.

Lemma zero_encoder32_contract : encoder_contract32 Scenario.zero_encoder32.
Proof.
  intros P tr seed ids mask B L (Hids & _).
  eexists. split; [reflexivity|]. destruct Hids as [Hlen Hrows]. split.
  - now rewrite length_map.
  - apply Forall_map. eapply Forall_impl; [|exact Hrows].
    intros row Hrow. cbn beta in Hrow |- *. split.
    + now rewrite length_map.
    + apply Forall_map, Forall_forall. intros t _. apply repeat_length.
Qed.

(** ** A forward pass that overflows *)

Lemma nth_all32 (v : F32.t) (l : vec32) (i : nat) :
  Forall (eq v) l -> nth i l v = v.
Proof.
  intros H. destruct (nth_in_or_default i l v) as [Hin|E]; [|exact E].
  rewrite Forall_forall in H. symmetry. now apply H.
Qed.

Lemma exact32_rnd_0 : rnd_exact32 0 = F32.Fin 0.
Proof. exact (F32.rnd_0 exact32 exact32_standard). Qed.

Lemma exact32_mul_zero_l (x : R) :
  F32.mul exact32 (F32.Fin 0) (F32.Fin x) = F32.Fin 0.
Proof. cbn [F32.mul exact32 F32.rnd]. rewrite Rmult_0_l. exact exact32_rnd_0. Qed.

Lemma exact32_mul_zero_r (x : R) :
  F32.mul exact32 (F32.Fin x) (F32.Fin 0) = F32.Fin 0.
Proof. cbn [F32.mul exact32 F32.rnd]. rewrite Rmult_0_r. exact exact32_rnd_0. Qed.

Lemma exact32_add_zero :
  F32.add exact32 (F32.Fin 0) (F32.Fin 0) = F32.Fin 0.
Proof. cbn [F32.add exact32 F32.rnd]. rewrite Rplus_0_l. exact exact32_rnd_0. Qed.

Lemma fold_zeros32 (l : vec32) :
  Forall (eq (F32.Fin 0)) l ->
  fold_left (F32.add exact32) l (F32.Fin 0) = F32.Fin 0.
Proof.
  induction 1 as [|v l <- _ IH]; [reflexivity|].
  cbn [fold_left]. now rewrite exact32_add_zero.
Qed.

Lemma sum_zeros32 (l : vec32) :
  Forall (eq (F32.Fin 0)) l -> F32.sum exact32 l = F32.Fin 0.
Proof.
  intros H. destruct l as [|v l]; [reflexivity|].
  inversion H as [|v' l' <- Hl]; subst. cbn [F32.sum].
  now apply fold_zeros32.
Qed.

Lemma dot32_zero_weights (w : nat -> R) (x : vec32) :
  (forall c, w c = 0) -> Forall (eq (F32.Fin 0)) x ->
  dot32 exact32 w x = F32.Fin 0.
Proof.
  intros Hw Hx. unfold dot32. apply sum_zeros32, Forall_map, Forall_forall.
  intros i _. rewrite Hw, (nth_all32 _ x i Hx). symmetry.
  apply exact32_mul_zero_l.
Qed.

Lemma permute32_zero (x : mat32) :
  Forall (Forall (eq (F32.Fin 0))) x ->
  Forall (Forall (eq (F32.Fin 0))) (permute32 x).
Proof.
  intros Hx. unfold permute32. apply Forall_map, Forall_forall. intros j _.
  apply Forall_map. eapply Forall_impl; [|exact Hx].
  intros row Hrow. cbn beta. symmetry. now apply nth_all32.
Qed.

Lemma permute_from32_zero (width : nat) (x : mat32) :
  Forall (Forall (eq (F32.Fin 0))) x ->
  Forall (Forall (eq (F32.Fin 0))) (permute_from32 width x).
Proof.
  intros Hx. destruct x as [|row x]; [|now apply permute32_zero].
  cbn [permute_from32]. apply Forall_forall. intros r Hr.
  apply repeat_spec in Hr. subst r. constructor.
Qed.

Lemma conv1d32_zero (in_ch out_ch k p : nat) (x y : mat32) :
  Forall (Forall (eq (F32.Fin 0))) x ->
  conv1d32 exact32 in_ch out_ch k p Demo.zeros Demo.zeros x = Ok y ->
  Forall (Forall (eq (F32.Fin 0))) y.
Proof.
  intros Hx. unfold conv1d32.
  destruct (negb (length x =? in_ch)%nat); [discriminate|].
  destruct (length (hd [] x) + 2 * p <? k)%nat; [discriminate|].
  intros Heq.
  match type of Heq with
  | Ok ?e = _ => assert (Hy : y = e) by congruence
  end.
  rewrite Hy. clear Heq Hy.
  apply Forall_map, Forall_forall. intros o _.
  apply Forall_map, Forall_forall. intros t _. symmetry.
  apply sum_zeros32. constructor; [reflexivity|].
  apply Forall_forall. intros v Hv.
  apply in_flat_map in Hv as (c & _ & Hv).
  apply in_map_iff in Hv as (j & <- & _).
  assert (Hrow : Forall (eq (F32.Fin 0)) (pad32 p (nth c x []))).
  { unfold pad32. rewrite !Forall_app.
    assert (Hrep : Forall (eq (F32.Fin 0)) (repeat (F32.Fin 0) p)).
    { apply Forall_forall. intros r Hr. apply repeat_spec in Hr. now subst. }
    split; [exact Hrep|]. split; [|exact Hrep].
    destruct (nth_in_or_default c x []) as [Hin| ->]; [|constructor].
    rewrite Forall_forall in Hx. now apply Hx. }
  rewrite (nth_all32 _ _ (t + j) Hrow). symmetry.
  apply exact32_mul_zero_l.
Qed.

Lemma relu32_zero : F32.relu (F32.Fin 0) = F32.Fin 0.
Proof.
  cbn [F32.relu]. f_equal. unfold Rmax. destruct (Rle_dec 0 0); reflexivity.
Qed.

Lemma cnn_stage32_zero (w : noise) (embs lstm_in : list mat32) :
  Forall (Forall (Forall (eq (F32.Fin 0)))) embs ->
  cnn_stage32 exact32 Scenario.overflowing embs = Ok lstm_in ->
  Forall (Forall (Forall (eq (F32.Fin 0)))) lstm_in.
Proof.
  intros Hembs. unfold cnn_stage32.
  destruct (mapM _ _) as [conv|e] eqn:Hconv; [|discriminate].
  cbn [rbind]. intros [= <-].
  apply Forall_map, Forall_map, Forall_forall. intros y Hy. cbn beta.
  destruct (mapM_In _ _ _ Hconv y Hy) as (x & Hx & Hrun).
  apply in_map_iff in Hx as (e & <- & He).
  rewrite Forall_forall in Hembs.
  pose proof (permute_from32_zero Arch.bert_dim e (Hembs e He)) as Hin.
  pose proof (conv1d32_zero _ _ _ _ _ y Hin Hrun) as Hout.
  apply permute32_zero, Forall_map. eapply Forall_impl; [|exact Hout].
  intros row Hrow. cbn beta. apply Forall_map.
  eapply Forall_impl; [|exact Hrow]. intros v <-. symmetry. exact relu32_zero.
Qed.

Lemma tanh_zero : tanh 0 = 0.
Proof. unfold tanh. rewrite sinh_0. unfold Rdiv. apply Rmult_0_l. Qed.

Lemma gate32_zero (P : lstm_weights) (x h : vec32) (r : nat) :
  (forall i, weight_ih P i = 0) -> (forall i, weight_hh P i = 0) ->
  (forall i, bias_ih P i = 0) -> (forall i, bias_hh P i = 0) ->
  Forall (eq (F32.Fin 0)) x -> Forall (eq (F32.Fin 0)) h ->
  gate32 exact32 P x h r = F32.Fin 0.
Proof.
  intros Hwi Hwh Hbi Hbh Hx Hh. unfold gate32.
  rewrite Hbi, Hbh, !dot32_zero_weights by auto.
  now rewrite !exact32_add_zero.
Qed.

Lemma lstm_cell32_zero (H : nat) (P : lstm_weights) (x : vec32)
    (hc : vec32 * vec32) :
  (forall i, weight_ih P i = 0) -> (forall i, weight_hh P i = 0) ->
  (forall i, bias_ih P i = 0) -> (forall i, bias_hh P i = 0) ->
  Forall (eq (F32.Fin 0)) x ->
  Forall (eq (F32.Fin 0)) (fst hc) -> Forall (eq (F32.Fin 0)) (snd hc) ->
  Forall (eq (F32.Fin 0)) (fst (lstm_cell32 exact32 H P x hc)) /\
  Forall (eq (F32.Fin 0)) (snd (lstm_cell32 exact32 H P x hc)).
Proof.
  intros Hwi Hwh Hbi Hbh Hx Hh Hc. unfold lstm_cell32. cbn [fst snd].
  assert (Hc' : Forall (eq (F32.Fin 0))
    (map (fun j =>
            F32.add exact32
              (F32.mul exact32
                 (F32.sigmoid exact32 (gate32 exact32 P x (fst hc) (H + j)))
                 (nth j (snd hc) (F32.Fin 0)))
              (F32.mul exact32
                 (F32.sigmoid exact32 (gate32 exact32 P x (fst hc) j))
                 (F32.tanh exact32 (gate32 exact32 P x (fst hc) (2 * H + j)))))
         (seq 0 H))).
  { apply Forall_map, Forall_forall. intros j _.
    rewrite !gate32_zero by auto. rewrite (nth_all32 _ _ j Hc).
    cbn [F32.sigmoid F32.tanh exact32 F32.fsigmoid F32.ftanh].
    rewrite tanh_zero, !exact32_mul_zero_r. symmetry. exact exact32_add_zero. }
  split; [|exact Hc'].
  apply Forall_map, Forall_forall. intros j _.
  rewrite gate32_zero by auto. rewrite (nth_all32 _ _ j Hc').
  cbn [F32.sigmoid F32.tanh exact32 F32.fsigmoid F32.ftanh].
  rewrite tanh_zero. symmetry. apply exact32_mul_zero_r.
Qed.

Lemma lstm_scan32_zero (H : nat) (P : lstm_weights) (xs : mat32) :
  (forall i, weight_ih P i = 0) -> (forall i, weight_hh P i = 0) ->
  (forall i, bias_ih P i = 0) -> (forall i, bias_hh P i = 0) ->
  Forall (Forall (eq (F32.Fin 0))) xs ->
  forall hc,
    Forall (eq (F32.Fin 0)) (fst hc) -> Forall (eq (F32.Fin 0)) (snd hc) ->
    Forall (Forall (eq (F32.Fin 0))) (fst (lstm_scan32 exact32 H P xs hc)).
Proof.
  intros Hwi Hwh Hbi Hbh Hxs.
  induction Hxs as [|x xs Hx _ IH]; intros hc Hh Hc;
    cbn [lstm_scan32 fst]; [constructor|].
  destruct (lstm_cell32_zero H P x hc Hwi Hwh Hbi Hbh Hx Hh Hc) as [Hh' Hc'].
  constructor; [exact Hh'|]. now apply IH.
Qed.

Lemma zero_state32_zero (H : nat) :
  Forall (eq (F32.Fin 0)) (fst (zero_state32 H)) /\
  Forall (eq (F32.Fin 0)) (snd (zero_state32 H)).
Proof.
  unfold zero_state32. cbn [fst snd].
  assert (Hrep : Forall (eq (F32.Fin 0)) (repeat (F32.Fin 0) H)).
  { apply Forall_forall. intros r Hr. apply repeat_spec in Hr. now subst. }
  now split.
Qed.

Lemma lstm_layer32_zero (H : nat) (Pf Pb : lstm_weights) (xs : mat32) :
  (forall i, weight_ih Pf i = 0) -> (forall i, weight_hh Pf i = 0) ->
  (forall i, bias_ih Pf i = 0) -> (forall i, bias_hh Pf i = 0) ->
  (forall i, weight_ih Pb i = 0) -> (forall i, weight_hh Pb i = 0) ->
  (forall i, bias_ih Pb i = 0) -> (forall i, bias_hh Pb i = 0) ->
  Forall (Forall (eq (F32.Fin 0))) xs ->
  Forall (Forall (eq (F32.Fin 0))) (lstm_layer32 exact32 H Pf Pb xs).
Proof.
  intros F1 F2 F3 F4 B1 B2 B3 B4 Hxs. unfold lstm_layer32.
  destruct (zero_state32_zero H) as [Hz1 Hz2].
  pose proof (lstm_scan32_zero H Pf xs F1 F2 F3 F4 Hxs _ Hz1 Hz2) as Hf.
  assert (Hrev : Forall (Forall (eq (F32.Fin 0))) (rev xs)).
  { apply Forall_forall. intros x Hx. apply in_rev in Hx.
    rewrite Forall_forall in Hxs. now apply Hxs. }
  pose proof (lstm_scan32_zero H Pb (rev xs) B1 B2 B3 B4 Hrev _ Hz1 Hz2) as Hb.
  apply Forall_map, Forall_forall. intros [f b] Hin. cbn [fst snd].
  rewrite Forall_forall in Hf, Hb. apply Forall_app. split.
  - apply Hf. eapply in_combine_l, Hin.
  - apply Hb, in_rev. eapply in_combine_r, Hin.
Qed.

Lemma dropout32_off (a : F32.arith) (tr : bool) (p : Q) (keep : nat -> bool)
    (x : vec32) :
  Qeq_bool p 0 = true -> dropout32 a tr p keep x = x.
Proof.
  intros Hp. unfold dropout32. rewrite Hp. now rewrite andb_false_r.
Qed.

Lemma aggregated_state32_zero (w : noise) (embs : list mat32)
    (fh : list vec32) :
  Forall (Forall (Forall (eq (F32.Fin 0)))) embs ->
  aggregated_state32 exact32 Scenario.overflowing w embs = Ok fh ->
  Forall (Forall (eq (F32.Fin 0))) fh.
Proof.
  intros Hembs. unfold aggregated_state32.
  destruct (cnn_stage32 _ _ embs) as [lstm_in|e] eqn:Hcnn; [|discriminate].
  cbn [rbind].
  pose proof (cnn_stage32_zero w embs lstm_in Hembs Hcnn) as Hin.
  unfold lstm_stage32.
  destruct (mapM _ (indexed lstm_in)) as [out|e] eqn:Hout; [|discriminate].
  cbn [rbind]. intros Hfh. apply Forall_forall. intros v Hv.
  destruct (mapM_In _ _ _ Hfh v Hv) as (o & Ho & Hlast).
  destruct (mapM_In _ _ _ Hout o Ho) as (bx & Hbx & Hlstm).
  apply indexed_In in Hbx. rewrite Forall_forall in Hin.
  pose proof (Hin _ Hbx) as Hxs.
  unfold lstm32 in Hlstm. destruct (snd bx) as [|x0 xs0] eqn:E; [discriminate|].
  rewrite <- E in *. destruct (forallb _ (snd bx)); [|discriminate].
  injection Hlstm as <-.
  assert (Hzero : forall layer rev i,
            weight_ih (lstm_params Scenario.overflowing layer rev) i = 0 /\
            weight_hh (lstm_params Scenario.overflowing layer rev) i = 0 /\
            bias_ih (lstm_params Scenario.overflowing layer rev) i = 0 /\
            bias_hh (lstm_params Scenario.overflowing layer rev) i = 0).
  { intros layer rev i. repeat split; reflexivity. }
  assert (Hmid : Forall (Forall (eq (F32.Fin 0)))
                   (lstm_mid32 exact32 Arch.lstm_hidden_size
                      (lstm_params Scenario.overflowing)
                      (training Scenario.overflowing MLstm)
                      (dropout_rate Scenario.overflowing)
                      (lstm_keep w (fst bx)) (snd bx))).
  { unfold lstm_mid32. apply Forall_map, Forall_forall. intros tr Htr.
    rewrite dropout32_off by reflexivity.
    apply indexed_In in Htr. revert Htr. apply Forall_forall.
    apply lstm_layer32_zero; try (intros i; apply Hzero). exact Hxs. }
  unfold last_step32 in Hlast.
  destruct (rev _) as [|row rest] eqn:Erev; [discriminate|].
  injection Hlast as <-.
  pose proof (in_eq row rest) as Hrow. rewrite <- Erev in Hrow.
  apply in_rev in Hrow. revert Hrow. apply Forall_forall.
  apply lstm_layer32_zero; try (intros i; apply Hzero). exact Hmid.
Qed.

Lemma exact32_pinf_absorbs (l : vec32) :
  Forall (fun v => exists x, v = F32.Fin x) l ->
  fold_left (F32.add exact32) l F32.PInf = F32.PInf.
Proof.
  induction 1 as [|v l [x ->] _ IH]; [reflexivity|]. exact IH.
Qed.

(** The second dense layer on 64 ones: the sum of its 64 weights, 2^127
    each, overflows. *)
Lemma dense2_overflows (x : vec32) :
  x = repeat (F32.Fin 1) Arch.dense_hidden_size ->
  linear32 exact32 Arch.dense_hidden_size Arch.num_classes
           (params Scenario.overflowing Dense2Weight)
           (params Scenario.overflowing Dense2Bias) x =
  Ok [F32.PInf; F32.PInf].
Proof.
  intros ->. unfold linear32. rewrite repeat_length, Nat.eqb_refl.
  pose proof max_float32_facts as [H2 Hlt].
  assert (Hw : 0 <= IZR (2 ^ 127) <= max_float32).
  { unfold max_float32. split; apply IZR_le; vm_compute; discriminate. }
  assert (Hdot : dot32 exact32 (fun _ => IZR (2 ^ 127))
                       (repeat (F32.Fin 1) Arch.dense_hidden_size) =
                 F32.PInf).
  { unfold dot32. rewrite repeat_length.
    assert (Hterms :
      map (fun i => F32.mul exact32 (F32.Fin (IZR (2 ^ 127)))
                      (nth i (repeat (F32.Fin 1) Arch.dense_hidden_size)
                           (F32.Fin 0)))
          (seq 0 Arch.dense_hidden_size) =
      map (fun _ => F32.Fin (IZR (2 ^ 127))) (seq 0 Arch.dense_hidden_size)).
    { apply map_ext_in. intros i Hi. apply in_seq in Hi.
      rewrite (nth_indep _ (F32.Fin 0) (F32.Fin 1))
        by (rewrite repeat_length; lia).
      rewrite nth_repeat. cbn [F32.mul exact32 F32.rnd].
      rewrite Rmult_1_r. apply rnd_exact32_in_range. lra. }
    rewrite Hterms.
    change (seq 0 Arch.dense_hidden_size) with (0 :: 1 :: seq 2 62)%nat.
    cbn [map F32.sum fold_left].
    assert (Hadd : F32.add exact32 (F32.Fin (IZR (2 ^ 127)))
                           (F32.Fin (IZR (2 ^ 127))) = F32.PInf).
    { cbn [F32.add exact32 F32.rnd]. apply rnd_exact32_overflow.
      unfold overflow_threshold32. rewrite <- plus_IZR.
      apply IZR_le. vm_compute. discriminate. }
    rewrite Hadd. apply exact32_pinf_absorbs, Forall_map, Forall_forall.
    intros i _. eexists. reflexivity. }
  cbn [params Scenario.overflowing assemble]. rewrite Hdot.
  reflexivity.
Qed.

Lemma dense1_ones (x : vec32) :
  length x = (Arch.lstm_hidden_size * 2)%nat ->
  Forall (eq (F32.Fin 0)) x ->
  linear32 exact32 (Arch.lstm_hidden_size * 2) Arch.dense_hidden_size
           (params Scenario.overflowing Dense1Weight)
           (params Scenario.overflowing Dense1Bias) x =
  Ok (repeat (F32.Fin 1) Arch.dense_hidden_size).
Proof.
  intros Hlen Hx. unfold linear32. rewrite Hlen, Nat.eqb_refl. f_equal.
  cbn [params Scenario.overflowing assemble].
  rewrite (map_ext _ (fun _ => F32.Fin 1)).
  - generalize Arch.dense_hidden_size. intros n. generalize 0%nat.
    induction n as [|n IH]; intros k; [reflexivity|].
    cbn [seq map repeat]. now rewrite IH.
  - intros o. rewrite dot32_zero_weights by (exact Hx || reflexivity).
    cbn [F32.add exact32 F32.rnd]. rewrite Rplus_0_r.
    apply rnd_exact32_in_range. pose proof max_float32_facts as [H2 _]. lra.
Qed.

Lemma relu32_one : F32.relu (F32.Fin 1) = F32.Fin 1.
Proof.
  cbn [F32.relu]. f_equal. unfold Rmax. destruct (Rle_dec 0 1); [reflexivity|lra].
Qed.

Lemma mapM_const {A B} (f : A -> result B) (b : B) (l : list A) :
  (forall x, In x l -> f x = Ok b) -> mapM f l = Ok (repeat b (length l)).
Proof.
  induction l as [|x l IH]; intros Hf; [reflexivity|].
  cbn [mapM length repeat]. rewrite (Hf x (or_introl eq_refl)). cbn [rbind].
  rewrite IH by (intros y Hy; apply Hf; now right). reflexivity.
Qed.

Lemma head_stage32_overflows (w : noise) (fh : list vec32) :
  Forall (fun v => length v = (Arch.lstm_hidden_size * 2)%nat) fh ->
  Forall (Forall (eq (F32.Fin 0))) fh ->
  head_stage32 exact32 Scenario.overflowing w fh =
  Ok (repeat [F32.PInf; F32.PInf] (length fh)).
Proof.
  intros Hlen Hzero. unfold head_stage32.
  rewrite (mapM_const _ (repeat (F32.Fin 1) Arch.dense_hidden_size) fh).
  2:{ intros x Hx. rewrite Forall_forall in Hlen, Hzero.
      apply dense1_ones; auto. }
  cbn [rbind].
  match goal with
  | |- mapM ?f ?l = _ =>
      rewrite (mapM_const f [F32.PInf; F32.PInf] l)
  end.
  - now rewrite length_map, indexed_length, length_map, repeat_length.
  - intros x Hx. apply dense2_overflows.
    apply in_map_iff in Hx as (br & <- & Hbr).
    rewrite dropout32_off by reflexivity.
    apply indexed_In, in_map_iff in Hbr as (y & <- & Hy).
    apply repeat_spec in Hy. subst y.
    rewrite map_repeat. now rewrite relu32_one.
Qed.

(* ================================================================== *)
(** * The claims *)

(** C1, as the code has it, in binary32 arithmetic: on every well-formed
    token batch the forward pass returns a tensor with one row per input
    sequence and two columns.  A row is a probability distribution (its
    entries are finite numbers in [0, 1] that sum to 1 within 1e-6) when
    the largest of its two raw scores is a finite number; any other row,
    that is one with a raw score that is NaN or plus infinity or with both
    minus infinity, is NaN in both entries.  This holds in any state of the
    model and whatever values the encoder returns. *)
Theorem forward_returns_distributions
    (a : F32.arith) (m : SarcasmDetector) (w : noise)
    (bert32 : (nat -> tensor) -> bool -> nat -> list (list Z) ->
              list (list Z) -> result (list mat32))
    (ids mask : list (list Z)) (B L : nat) :
  F32.standard a ->
  encoder_contract32 bert32 ->
  token_batch ids mask B L ->
  exists logits,
    forward_logits32 a m w bert32 ids mask = Ok logits /\
    forward32 a m w bert32 ids mask = Ok (map (softmax32 a) logits) /\
    shape logits B Arch.num_classes /\
    shape (map (softmax32 a) logits) B Arch.num_classes /\
    Forall (fun scores =>
              (scorable scores -> distribution32 (softmax32 a scores)) /\
              (~ scorable scores ->
               softmax32 a scores = [F32.NaN; F32.NaN]))
           logits.
Proof.
  intros Hstd Hbert Htok.
  destruct (forward32_run a m w bert32 ids mask B L Hbert Htok)
    as (logits & Hlogits & Hrun & Hshape).
  exists logits. split; [exact Hlogits|]. split; [exact Hrun|].
  split; [exact Hshape|]. destruct Hshape as [Hlen Hrows]. split.
  - split; [now rewrite length_map|].
    apply Forall_map. eapply Forall_impl; [|exact Hrows].
    intros row Hrow. cbn beta. now rewrite softmax32_length.
  - eapply Forall_impl; [|exact Hrows]. intros row Hrow. cbn beta in Hrow.
    destruct row as [|z1 [|z2 [|z3 row]]]; try discriminate Hrow.
    split.
    + now apply softmax32_scorable.
    + apply softmax32_unscorable.
Qed.

Lemma forward_returns_distributions_witness :
  exists logits,
    forward_logits32 exact32 Demo.model Demo.keep_all Scenario.zero_encoder32
                     (input_ids Demo.one_batch)
                     (attention_mask Demo.one_batch) = Ok logits /\
    forward32 exact32 Demo.model Demo.keep_all Scenario.zero_encoder32
              (input_ids Demo.one_batch) (attention_mask Demo.one_batch) =
      Ok (map (softmax32 exact32) logits) /\
    shape logits 1 Arch.num_classes /\
    shape (map (softmax32 exact32) logits) 1 Arch.num_classes /\
    Forall (fun scores =>
              (scorable scores ->
               distribution32 (softmax32 exact32 scores)) /\
              (~ scorable scores ->
               softmax32 exact32 scores = [F32.NaN; F32.NaN]))
           logits.
Proof.
  apply (forward_returns_distributions exact32 Demo.model Demo.keep_all
           Scenario.zero_encoder32 _ _ 1 3).
  - exact exact32_standard.
  - exact zero_encoder32_contract.
  - exact demo_tokens.
Defined.

(** The claim as the spec words it fails on a well-formed batch when the raw
    scores overflow.  In the model that [SarcasmDetector(dropout_rate=0.0)]
    builds, with [dense1.bias] set to 1, [dense2.weight] to 2^127 and every
    other parameter to 0, both raw scores are the sum of 64 products
    2^127 * 1, which is plus infinity in binary32, and the row that
    [forward] returns is NaN in both entries. *)
Lemma forward_overflow_gives_nan :
  token_batch (input_ids Demo.one_batch) (attention_mask Demo.one_batch) 1 3 /\
  forward_logits32 exact32 Scenario.overflowing Demo.keep_all
                   Scenario.zero_encoder32 (input_ids Demo.one_batch)
                   (attention_mask Demo.one_batch) =
    Ok [[F32.PInf; F32.PInf]] /\
  forward32 exact32 Scenario.overflowing Demo.keep_all
            Scenario.zero_encoder32 (input_ids Demo.one_batch)
            (attention_mask Demo.one_batch) = Ok [[F32.NaN; F32.NaN]] /\
  ~ distribution32 [F32.NaN; F32.NaN].
Proof.
  split; [exact demo_tokens|].
  assert (Hlogits :
    logits32 exact32 Scenario.overflowing Demo.keep_all
             [[repeat (F32.Fin 0) Arch.bert_dim;
               repeat (F32.Fin 0) Arch.bert_dim;
               repeat (F32.Fin 0) Arch.bert_dim]] =
    Ok [[F32.PInf; F32.PInf]]).
  { assert (Hzero : Forall (Forall (Forall (eq (F32.Fin 0))))
              [[repeat (F32.Fin 0) Arch.bert_dim;
                repeat (F32.Fin 0) Arch.bert_dim;
                repeat (F32.Fin 0) Arch.bert_dim]]).
    { assert (Hrep : Forall (eq (F32.Fin 0)) (repeat (F32.Fin 0) Arch.bert_dim)).
      { apply Forall_forall. intros r Hr. apply repeat_spec in Hr. now subst. }
      repeat constructor; exact Hrep. }
    destruct (aggregated_state32_ok exact32 Scenario.overflowing Demo.keep_all
                [[repeat (F32.Fin 0) Arch.bert_dim;
                  repeat (F32.Fin 0) Arch.bert_dim;
                  repeat (F32.Fin 0) Arch.bert_dim]] 3)
      as (fh & Hfh & Hlen & Hrows).
    { constructor; [|constructor]. split; [reflexivity|].
      repeat constructor; apply repeat_length. }
    { lia. }
    unfold logits32. rewrite Hfh. cbn [rbind].
    rewrite (head_stage32_overflows Demo.keep_all fh).
    - now rewrite Hlen.
    - eapply Forall_impl; [|exact Hrows]. intros v Hv. cbn beta in Hv |- *.
      rewrite Hv. unfold Arch.lstm_hidden_size. lia.
    - exact (aggregated_state32_zero Demo.keep_all _ fh Hzero Hfh). }
  split; [|split; [|exact not_distribution32_nan]].
  - unfold forward_logits32, Scenario.zero_encoder32.
    cbn [Demo.one_batch input_ids map rbind]. exact Hlogits.
  - unfold forward32, Scenario.zero_encoder32, predictions32.
    cbn [Demo.one_batch input_ids map rbind]. rewrite Hlogits.
    reflexivity.
Qed.

(** C2, as the code has it: during an epoch the encoder is called once per
    batch, every time with gradient tracking disabled, whatever
    [freeze_bert] was, and every time in training mode: [model.train()]
    sets the flag on the encoder too and [forward] only suspends gradient
    tracking, so the dropout inside the encoder stays active. *)
Theorem encoder_calls_during_training
    (bert : (nat -> tensor) -> bool -> nat -> list (list Z) -> list (list Z) ->
            result (list mat))
    (bert_size : nat)
    (criterion : list vec -> list Z -> result pyfloat)
    (autograd : SarcasmDetector -> noise -> batch -> pname -> tensor)
    {S : Type} (update : S -> tensor -> tensor -> tensor * S)
    (train_loader : list (batch * noise)) (s : world S) :
  encoder_contract bert ->
  criterion_contract criterion ->
  trainable s ->
  Forall (fun bw => labelled_batch (fst bw)) train_loader ->
  exists evs,
    log (snd (train_epoch bert bert_size criterion autograd update
                          train_loader s)) = log s ++ evs /\
    encoder_calls evs = repeat (false, true) (length train_loader).
Proof.
  intros Hbert Hcrit Htr Hall.
  destruct (train_epoch_run bert bert_size criterion autograd update
              Hbert Hcrit train_loader s Htr Hall)
    as (ps & s' & Hrun & Hbatches & _ & Hlog & _ & _).
  exists (EvTrain :: flat_map (render true) ps). rewrite Hrun. cbn [snd].
  split; [exact Hlog|].
  change (EvTrain :: flat_map (render true) ps)
    with ([EvTrain] ++ flat_map (render true) ps).
  rewrite encoder_calls_app, encoder_calls_passes.
  now rewrite (passes_length ps train_loader Hbatches).
Qed.

Lemma encoder_calls_during_training_witness :
  exists evs,
    log (snd (train_epoch Demo.zero_encoder Demo.bert_size cross_entropy
                          Demo.no_gradient Demo.sgd
                          [(Demo.one_batch, Demo.keep_all)] Demo.start)) =
      log Demo.start ++ evs /\
    encoder_calls evs = repeat (false, true) 1.
Proof.
  apply (encoder_calls_during_training Demo.zero_encoder Demo.bert_size
           cross_entropy Demo.no_gradient Demo.sgd
           [(Demo.one_batch, Demo.keep_all)] Demo.start).
  - exact zero_encoder_contract.
  - exact cross_entropy_contract.
  - exact demo_trainable.
  - exact demo_loader_labelled.
Defined.

(** The claim as the spec words it fails on a freshly built model with
    [freeze_bert=True] and one batch: the encoder call of that epoch is not
    inference-only, its training flag is set. *)
Lemma encoder_not_inference_only :
  ~ Forall inference_only
      (encoder_calls
         (log (snd (train_epoch Demo.zero_encoder Demo.bert_size cross_entropy
                                Demo.no_gradient Demo.sgd
                                [(Demo.one_batch, Demo.keep_all)]
                                Demo.start)))).
Proof.
  destruct (train_epoch_run Demo.zero_encoder Demo.bert_size cross_entropy
              Demo.no_gradient Demo.sgd
              zero_encoder_contract cross_entropy_contract
              [(Demo.one_batch, Demo.keep_all)] Demo.start
              demo_trainable demo_loader_labelled)
    as (ps & s' & Hrun & Hbatches & _ & Hlog & _ & _).
  rewrite Hrun. cbn [snd]. rewrite Hlog. cbn [Demo.start log app].
  change (EvTrain :: flat_map (render true) ps)
    with ([EvTrain] ++ flat_map (render true) ps).
  rewrite encoder_calls_app, encoder_calls_passes.
  rewrite (passes_length ps _ Hbatches). cbn [length repeat encoder_calls flat_map app].
  intros H. inversion H as [|c cs [_ Hdrop] _]. discriminate Hdrop.
Qed.




(** C5, as the code has it: the aggregated state passed to the classifier
    head is the last time step of the recurrent output, that is the
    concatenation (128 values followed by 128 values, not a sum) of the
    final forward hidden state of the last layer and of the backward
    direction's hidden state at the last position: the state after the
    backward direction's first step, taken on the last element of the same
    input sequence from the zero state. *)
Theorem aggregated_state_is_last_position (m : SarcasmDetector) (w : noise)
    (embs : list mat) (L : nat) :
  (1 <= L)%nat ->
  Forall (fun e => shape e L Arch.bert_dim) embs ->
  exists lstm_in,
    cnn_stage m embs = Ok lstm_in /\
    aggregated_state m w embs =
      Ok (map (fun bx =>
                 forward_half Arch.lstm_hidden_size (lstm_params m)
                   (training m MLstm) (dropout_rate m) (lstm_keep w (fst bx))
                   (snd bx) ++
                 backward_half Arch.lstm_hidden_size (lstm_params m)
                   (training m MLstm) (dropout_rate m) (lstm_keep w (fst bx))
                   (snd bx))
              (indexed lstm_in)) /\
    forall bx,
      length (forward_half Arch.lstm_hidden_size (lstm_params m)
                (training m MLstm) (dropout_rate m) (lstm_keep w (fst bx))
                (snd bx)) = Arch.lstm_hidden_size /\
      length (backward_half Arch.lstm_hidden_size (lstm_params m)
                (training m MLstm) (dropout_rate m) (lstm_keep w (fst bx))
                (snd bx)) = Arch.lstm_hidden_size.
Proof.
  intros HL Hembs.
  destruct (cnn_stage_ok m embs L Hembs HL) as (lstm_in & Hcnn & _ & Hshape).
  exists lstm_in. split; [exact Hcnn|]. split.
  - unfold aggregated_state. rewrite Hcnn. cbn [rbind].
    unfold lstm_stage, final_hidden_of.
    destruct (mapM_then
                (fun bx : nat * mat =>
                   lstm Arch.cnn_out_channels Arch.lstm_hidden_size
                        (lstm_params m) (training m MLstm) (dropout_rate m)
                        (lstm_keep w (fst bx)) (snd bx))
                (fun r => last_step (fst r))
                (fun bx =>
                   last_position Arch.lstm_hidden_size (lstm_params m)
                     (training m MLstm) (dropout_rate m)
                     (lstm_keep w (fst bx)) (snd bx))
                (indexed lstm_in)) as (rs & Hrs & Hlast).
    { intros bx Hbx. apply indexed_In in Hbx.
      rewrite Forall_forall in Hshape.
      destruct (last_position_ok Arch.cnn_out_channels Arch.lstm_hidden_size
                  (lstm_params m) (training m MLstm) (dropout_rate m)
                  (lstm_keep w (fst bx)) (snd bx) L (Hshape _ Hbx) HL)
        as (r & Hr & Hl & _).
      exists r. split; [exact Hr|exact Hl]. }
    rewrite Hrs. cbn [rbind]. rewrite mapM_map. exact Hlast.
  - intros bx. split.
    + unfold forward_half. cbn zeta. apply lstm_scan_final_length.
      apply repeat_length.
    + unfold backward_half. cbn zeta. apply lstm_cell_shape.
Qed.

Lemma aggregated_state_is_last_position_witness :
  exists lstm_in,
    cnn_stage Demo.biased Demo.two_embeddings = Ok lstm_in /\
    aggregated_state Demo.biased Demo.keep_all Demo.two_embeddings =
      Ok (map (fun bx =>
                 forward_half Arch.lstm_hidden_size (lstm_params Demo.biased)
                   (training Demo.biased MLstm) (dropout_rate Demo.biased)
                   (lstm_keep Demo.keep_all (fst bx)) (snd bx) ++
                 backward_half Arch.lstm_hidden_size (lstm_params Demo.biased)
                   (training Demo.biased MLstm) (dropout_rate Demo.biased)
                   (lstm_keep Demo.keep_all (fst bx)) (snd bx))
              (indexed lstm_in)) /\
    forall bx,
      length (forward_half Arch.lstm_hidden_size (lstm_params Demo.biased)
                (training Demo.biased MLstm) (dropout_rate Demo.biased)
                (lstm_keep Demo.keep_all (fst bx)) (snd bx)) =
        Arch.lstm_hidden_size /\
      length (backward_half Arch.lstm_hidden_size (lstm_params Demo.biased)
                (training Demo.biased MLstm) (dropout_rate Demo.biased)
                (lstm_keep Demo.keep_all (fst bx)) (snd bx)) =
        Arch.lstm_hidden_size.
Proof.
  apply (aggregated_state_is_last_position Demo.biased Demo.keep_all
           Demo.two_embeddings 2).
  - lia.
  - repeat constructor.
Defined.

(** The claim as the spec words it fails on a sequence of two tokens: the
    state handed to the classifier head is not the concatenation of the
    final forward and the final backward hidden state. *)
Lemma aggregated_state_not_final_states :
  exists lstm_in rs fh,
    cnn_stage Demo.biased Demo.two_embeddings = Ok lstm_in /\
    lstm_stage Demo.biased Demo.keep_all lstm_in = Ok rs /\
    aggregated_state Demo.biased Demo.keep_all Demo.two_embeddings = Ok fh /\
    fh <> map spec_aggregated rs.
Proof.
  assert (Hembs : Forall (fun e : mat => shape e 2 Arch.bert_dim)
                         Demo.two_embeddings) by (repeat constructor).
  destruct (cnn_stage_ok Demo.biased Demo.two_embeddings 2 Hembs)
    as (lstm_in & Hcnn & Hlen & Hshape); [lia|].
  destruct lstm_in as [|x [|x' rest]]; try discriminate Hlen.
  inversion Hshape as [|x0 l0 Hx _]; subst.
  destruct (last_position_ok Arch.cnn_out_channels Arch.lstm_hidden_size
              (lstm_params Demo.biased) (training Demo.biased MLstm)
              (dropout_rate Demo.biased) (lstm_keep Demo.keep_all 0) x 2 Hx)
    as (r & Hr & Hlast & H2 & H3); [lia|].
  assert (Hstage : lstm_stage Demo.biased Demo.keep_all [x] = Ok [r]).
  { unfold lstm_stage, indexed. cbn [length seq combine mapM fst snd].
    rewrite Hr. reflexivity. }
  exists [x], [r], [last_position Arch.lstm_hidden_size
                      (lstm_params Demo.biased) (training Demo.biased MLstm)
                      (dropout_rate Demo.biased) (lstm_keep Demo.keep_all 0) x].
  split; [exact Hcnn|]. split; [exact Hstage|]. split.
  - unfold aggregated_state. rewrite Hcnn. cbn [rbind]. rewrite Hstage.
    cbn [rbind map fst]. unfold final_hidden_of. cbn [mapM].
    rewrite Hlast. reflexivity.
  - cbn [map]. intros E. injection E as E.
    unfold spec_aggregated in E. rewrite H2, H3 in E.
    unfold last_position, forward_half, backward_half in E. cbn zeta in E.
    apply app_inv_head in E.
    pose proof (lstm_mid_length Arch.lstm_hidden_size (lstm_params Demo.biased)
                  (training Demo.biased MLstm) (dropout_rate Demo.biased)
                  (lstm_keep Demo.keep_all 0) x) as Hmid.
    destruct Hx as [Hxlen _]. rewrite Hxlen in Hmid.
    destruct (lstm_mid _ _ _ _ _ x) as [|y1 [|y2 [|y3 mid]]];
      try discriminate Hmid.
    cbn [last rev app lstm_scan snd] in E.
    exact (biased_first_step_differs 127 y1 y2 E).
Qed.

(** C6: for a sequence of length L >= 1, the convolution (kernel width 3,
    padding 1) followed by the rectified-linear activation yields a feature
    tensor of the same sequence length L (with 256 channels per position). *)
Theorem cnn_stage_preserves_length (m : SarcasmDetector) (embs : list mat)
    (L : nat) :
  (1 <= L)%nat ->
  Forall (fun e => shape e L Arch.bert_dim) embs ->
  exists lstm_in,
    cnn_stage m embs = Ok lstm_in /\
    length lstm_in = length embs /\
    Forall (fun x => length x = L /\
                     Forall (fun row => length row = Arch.cnn_out_channels) x)
           lstm_in.
Proof.
  intros HL Hembs.
  destruct (cnn_stage_ok m embs L Hembs HL) as (lstm_in & Hrun & Hlen & Hs).
  exists lstm_in. auto.
Qed.

Lemma cnn_stage_preserves_length_witness :
  exists lstm_in,
    cnn_stage Demo.model [[repeat 0 Arch.bert_dim]] = Ok lstm_in /\
    length lstm_in = 1%nat /\
    Forall (fun x => length x = 1%nat /\
                     Forall (fun row => length row = Arch.cnn_out_channels) x)
           lstm_in.
Proof.
  apply (cnn_stage_preserves_length Demo.model [[repeat 0 Arch.bert_dim]] 1).
  - lia.
  - repeat constructor.
Defined.

(** C7: in every training step (the body of the loop on a labelled batch,
    from any state in which the loop can train) the loss function is called
    once, on the value this step's forward pass returned for this batch,
    which is the row-wise softmax of the raw scores of the last dense layer
    on this batch's tokens, and on this batch's labels.  What it returns is
    the loss of the step, and what it raises the step raises.  The state the
    step leaves is again one in which the loop can train, so this holds for
    every step of an epoch. *)
Theorem criterion_consumes_probabilities
    (bert : (nat -> tensor) -> bool -> nat -> list (list Z) -> list (list Z) ->
            result (list mat))
    (bert_size : nat)
    (criterion : list vec -> list Z -> result pyfloat)
    (autograd : SarcasmDetector -> noise -> batch -> pname -> tensor)
    {S : Type} (update : S -> tensor -> tensor -> tensor * S)
    (b : batch) (w : noise) (s : world S) :
  encoder_contract bert ->
  trainable s ->
  labelled_batch b ->
  exists embs logits,
    bert (fun i => params (net s) (BertP i)) (training (net s) MBert)
         (bert_seed w) (input_ids b) (attention_mask b) = Ok embs /\
    logits_of (net s) w embs = Ok logits /\
    shape logits (length (labels b)) Arch.num_classes /\
    let probabilities := map softmax logits in
    let r := train_step bert bert_size criterion autograd update (b, w) s in
    match criterion probabilities (labels b) with
    | Ok l =>
        fst r = Ok l /\
        log (snd r) =
          log s ++ step_prefix (training (net s) MBert) probabilities ++
          [EvCriterion probabilities (labels b) l; EvBackward; EvStep]
    | Raise e =>
        fst r = Raise e /\
        log (snd r) =
          log s ++ step_prefix (training (net s) MBert) probabilities
    end /\
    trainable (snd r).
Proof.
  intros Hbert Htr Hb.
  destruct (step_forward bert b w s Hbert Hb)
    as (embs & logits & Hemb & Hlogits & Hpred & Hshape & _).
  exists embs, logits.
  split; [exact Hemb|]. split; [exact Hlogits|]. split; [exact Hshape|].
  cbn zeta. rewrite train_step_unfold. cbn zeta. rewrite Hemb, Hpred.
  destruct (criterion (map softmax logits) (labels b)) as [l|e].
  - pose proof (tracked_nonempty s Htr) as Hne.
    destruct (tracked s head_param_names) as [|n rest]; [congruence|].
    cbn [fst snd log]. split.
    + split; [reflexivity|]. unfold step_prefix.
      now rewrite <- !app_assoc.
    + apply (trainable_record _ _ _ _ s Htr); reflexivity.
  - cbn [fst snd log]. split.
    + split; [reflexivity|]. unfold step_prefix.
      now rewrite <- !app_assoc.
    + apply (trainable_record _ _ _ _ s Htr); reflexivity.
Qed.

Lemma criterion_consumes_probabilities_witness :
  exists embs logits,
    Demo.zero_encoder (fun i => params (net Demo.start) (BertP i))
                      (training (net Demo.start) MBert)
                      (bert_seed Demo.keep_all) (input_ids Demo.one_batch)
                      (attention_mask Demo.one_batch) = Ok embs /\
    logits_of (net Demo.start) Demo.keep_all embs = Ok logits /\
    shape logits (length (labels Demo.one_batch)) Arch.num_classes /\
    let probabilities := map softmax logits in
    let r := train_step Demo.zero_encoder Demo.bert_size cross_entropy
                        Demo.no_gradient Demo.sgd
                        (Demo.one_batch, Demo.keep_all) Demo.start in
    match cross_entropy probabilities (labels Demo.one_batch) with
    | Ok l =>
        fst r = Ok l /\
        log (snd r) =
          log Demo.start ++
          step_prefix (training (net Demo.start) MBert) probabilities ++
          [EvCriterion probabilities (labels Demo.one_batch) l;
           EvBackward; EvStep]
    | Raise e =>
        fst r = Raise e /\
        log (snd r) =
          log Demo.start ++
          step_prefix (training (net Demo.start) MBert) probabilities
    end /\
    trainable (snd r).
Proof.
  apply (criterion_consumes_probabilities Demo.zero_encoder Demo.bert_size
           cross_entropy Demo.no_gradient Demo.sgd
           Demo.one_batch Demo.keep_all Demo.start).
  - exact zero_encoder_contract.
  - exact demo_trainable.
  - exact demo_labelled.
Defined.

(** C8: the events of an epoch are [model.train()] followed, for every
    batch in turn, by the same nine phases in the same order: the three
    moves to the device, the clearing of the gradients, the encoder call and
    the end of the forward pass, the loss, the backward propagation and one
    optimizer step.  So within a batch the gradients are cleared before the
    forward pass, the step comes after the backward propagation, and there
    is exactly one step. *)
Theorem train_epoch_phase_order
    (bert : (nat -> tensor) -> bool -> nat -> list (list Z) -> list (list Z) ->
            result (list mat))
    (bert_size : nat)
    (criterion : list vec -> list Z -> result pyfloat)
    (autograd : SarcasmDetector -> noise -> batch -> pname -> tensor)
    {S : Type} (update : S -> tensor -> tensor -> tensor * S)
    (train_loader : list (batch * noise)) (s : world S) :
  encoder_contract bert ->
  criterion_contract criterion ->
  trainable s ->
  Forall (fun bw => labelled_batch (fst bw)) train_loader ->
  exists evs,
    log (snd (train_epoch bert bert_size criterion autograd update
                          train_loader s)) = log s ++ evs /\
    map phase_of evs =
      PTrain :: concat (repeat batch_phases (length train_loader)).
Proof.
  intros Hbert Hcrit Htr Hall.
  destruct (train_epoch_run bert bert_size criterion autograd update
              Hbert Hcrit train_loader s Htr Hall)
    as (ps & s' & Hrun & Hbatches & _ & Hlog & _ & _).
  exists (EvTrain :: flat_map (render true) ps). rewrite Hrun. cbn [snd].
  split; [exact Hlog|].
  cbn [map phase_of]. rewrite phases_of_passes.
  now rewrite (passes_length ps train_loader Hbatches).
Qed.

Lemma train_epoch_phase_order_witness :
  exists evs,
    log (snd (train_epoch Demo.zero_encoder Demo.bert_size cross_entropy
                          Demo.no_gradient Demo.sgd
                          [(Demo.one_batch, Demo.keep_all)] Demo.start)) =
      log Demo.start ++ evs /\
    map phase_of evs = PTrain :: concat (repeat batch_phases 1).
Proof.
  apply (train_epoch_phase_order Demo.zero_encoder Demo.bert_size
           cross_entropy Demo.no_gradient Demo.sgd
           [(Demo.one_batch, Demo.keep_all)] Demo.start).
  - exact zero_encoder_contract.
  - exact cross_entropy_contract.
  - exact demo_trainable.
  - exact demo_loader_labelled.
Defined.

(** C9, as the code has it.  An unrecognized keyword raises TypeError.  With
    recognized keywords and a snapshot that loads, a [dropout_rate] that is
    an int or a float constructs the model exactly when it lies in the
    closed interval [0, 1] (so 1.0 is accepted), and the model's forward
    pass then returns; outside of it a float raises ValueError and an int
    ValueError, or OverflowError when it is beyond the range of a float;
    None raises TypeError.  All of these are raised while the model is being
    constructed.  A Fraction or a Decimal in [0, 1] passes the constructor's
    checks, and the error is deferred: the forward pass of the module
    raises TypeError.  Every constructed model holds a rate in [0, 1]. *)
Theorem construct_checks_configuration
    (bert : (nat -> tensor) -> bool -> nat -> list (list Z) -> list (list Z) ->
            result (list mat))
    (bert_size : nat) (S : Type)
    (hub : result (nat -> tensor)) (init : pname -> tensor)
    (kwargs : list (string * pyval)) :
  (all_recognized kwargs = false ->
   construct hub init kwargs = Raise TypeError) /\
  (all_recognized kwargs = true ->
   (exists pretrained, hub = Ok pretrained) ->
   (accepted_dropout (dropout_arg kwargs) = true ->
    exists pm,
      construct hub init kwargs = Ok pm /\
      dropout_rate (detector pm) = dropout_value (dropout_arg kwargs) /\
      forall (s : world S) (w : noise) (ids mask : list (list Z)) (B L : nat),
        net s = detector pm ->
        encoder_contract bert ->
        token_batch ids mask B L ->
        exists out, module_forward bert bert_size pm w ids mask s = Ok out) /\
   (forall q, dropout_arg kwargs = PyFloat q ->
              unit_interval q = false ->
              construct hub init kwargs = Raise ValueError) /\
   (forall z, dropout_arg kwargs = PyInt z ->
              unit_interval (inject_Z z) = false ->
              construct hub init kwargs =
              Raise (if beyond_float (inject_Z z) then OverflowError
                     else ValueError)) /\
   (dropout_arg kwargs = PyNone ->
    construct hub init kwargs = Raise TypeError) /\
   (deferred_dropout (dropout_arg kwargs) = true ->
    exists pm,
      construct hub init kwargs = Ok pm /\
      forall (s : world S) (w : noise) (ids mask : list (list Z)) (B L : nat),
        net s = detector pm ->
        encoder_contract bert ->
        token_batch ids mask B L ->
        module_forward bert bert_size pm w ids mask s = Raise TypeError)) /\
  (forall pm, construct hub init kwargs = Ok pm ->
              (0 <= dropout_rate (detector pm) <= 1)%Q).
Proof.
  rewrite construct_outcome. split; [|split].
  - now intros ->.
  - intros -> [pretrained ->].
    split; [|split; [|split; [|split]]].
    + intros Hacc. rewrite (lstm_dropout_check_accepted _ Hacc).
      eexists. split; [reflexivity|]. split; [reflexivity|].
      intros s w ids mask B L Hnet Hbert Htok.
      destruct (forward_run bert bert_size Hbert s w ids mask B L Htok)
        as (logits & _ & Hrun).
      unfold module_forward. rewrite Hrun. cbn [fst head_p data].
      unfold accepted_dropout in Hacc. apply andb_prop in Hacc as [Hnum _].
      destruct (dropout_arg kwargs); try discriminate Hnum;
        cbn [dropout_kernel_check rbind]; eauto.
    + intros q -> Hq. cbn [lstm_dropout_check]. now rewrite Hq.
    + intros z -> Hz. cbn [lstm_dropout_check]. rewrite Hz.
      now destruct (beyond_float (inject_Z z)).
    + now intros ->.
    + intros Hdef. rewrite (lstm_dropout_check_deferred _ Hdef).
      eexists. split; [reflexivity|].
      intros s w ids mask B L Hnet Hbert Htok.
      destruct (forward_run bert bert_size Hbert s w ids mask B L Htok)
        as (logits & _ & Hrun).
      unfold module_forward. rewrite Hrun. cbn [fst head_p data].
      destruct (dropout_arg kwargs); try discriminate Hdef; reflexivity.
  - intros pm. destruct (all_recognized kwargs); [|discriminate].
    destruct hub as [pretrained|e]; [|discriminate].
    destruct (lstm_dropout_check (dropout_arg kwargs)) as [p|e] eqn:E;
      [|discriminate].
    intros [= <-]. cbn [detector assemble dropout_rate].
    exact (lstm_dropout_check_range _ p E).
Qed.

Lemma construct_checks_configuration_witness :
  construct (Ok (fun _ => Demo.zeros)) (fun _ => Demo.zeros)
            [("learning_rate"%string, PyFloat (1 # 2))] = Raise TypeError /\
  construct (Ok (fun _ => Demo.zeros)) (fun _ => Demo.zeros)
            [("dropout_rate"%string, PyFloat (3 # 2))] = Raise ValueError /\
  construct (Ok (fun _ => Demo.zeros)) (fun _ => Demo.zeros)
            [("dropout_rate"%string, PyInt (10 ^ 400))] =
    Raise OverflowError /\
  construct (Ok (fun _ => Demo.zeros)) (fun _ => Demo.zeros)
            [("dropout_rate"%string, PyNone)] = Raise TypeError /\
  (exists pm,
     construct (Ok (fun _ => Demo.zeros)) (fun _ => Demo.zeros)
               [("dropout_rate"%string, PyFraction (1 # 2))] = Ok pm /\
     module_forward Demo.zero_encoder Demo.bert_size pm Demo.keep_all
                    (input_ids Demo.one_batch) (attention_mask Demo.one_batch)
                    {| net := detector pm; optim := optim Demo.start;
                       grad_mode := true; log := [] |} =
     Raise TypeError).
Proof.
  split; [|split; [|split; [|split]]].
  - destruct (construct_checks_configuration Demo.zero_encoder Demo.bert_size
                unit (Ok (fun _ => Demo.zeros)) (fun _ => Demo.zeros)
                [("learning_rate"%string, PyFloat (1 # 2))])
      as (H & _).
    exact (H eq_refl).
  - destruct (construct_checks_configuration Demo.zero_encoder Demo.bert_size
                unit (Ok (fun _ => Demo.zeros)) (fun _ => Demo.zeros)
                [("dropout_rate"%string, PyFloat (3 # 2))])
      as (_ & H & _).
    destruct (H eq_refl (ex_intro _ (fun _ => Demo.zeros) eq_refl))
      as (_ & Hfloat & _).
    exact (Hfloat (3 # 2)%Q eq_refl eq_refl).
  - destruct (construct_checks_configuration Demo.zero_encoder Demo.bert_size
                unit (Ok (fun _ => Demo.zeros)) (fun _ => Demo.zeros)
                [("dropout_rate"%string, PyInt (10 ^ 400))])
      as (_ & H & _).
    destruct (H eq_refl (ex_intro _ (fun _ => Demo.zeros) eq_refl))
      as (_ & _ & Hint & _).
    exact (Hint (10 ^ 400)%Z eq_refl eq_refl).
  - destruct (construct_checks_configuration Demo.zero_encoder Demo.bert_size
                unit (Ok (fun _ => Demo.zeros)) (fun _ => Demo.zeros)
                [("dropout_rate"%string, PyNone)])
      as (_ & H & _).
    destruct (H eq_refl (ex_intro _ (fun _ => Demo.zeros) eq_refl))
      as (_ & _ & _ & Hnone & _).
    exact (Hnone eq_refl).
  - destruct (construct_checks_configuration Demo.zero_encoder Demo.bert_size
                unit (Ok (fun _ => Demo.zeros)) (fun _ => Demo.zeros)
                [("dropout_rate"%string, PyFraction (1 # 2))])
      as (_ & H & _).
    destruct (H eq_refl (ex_intro _ (fun _ => Demo.zeros) eq_refl))
      as (_ & _ & _ & _ & Hdef).
    destruct (Hdef eq_refl) as (pm & Hpm & Hfwd).
    exists pm. split; [exact Hpm|].
    apply (Hfwd _ _ _ _ 1%nat 3%nat).
    + reflexivity.
    + exact zero_encoder_contract.
    + exact demo_tokens.
Defined.

(** The claim as the spec words it fails at [dropout_rate=1.0]: the value is
    outside [0, 1), yet the model is constructed. *)
Lemma dropout_one_is_accepted :
  spec_valid_dropout (PyFloat 1) = false /\
  exists pm,
    construct (Ok (fun _ => Demo.zeros)) (fun _ => Demo.zeros)
              [("dropout_rate"%string, PyFloat 1)] = Ok pm /\
    dropout_rate (detector pm) = 1%Q.
Proof.
  split; [reflexivity|]. eexists. split; reflexivity.
Qed.

(** C10: with an empty batch iterator [train_epoch] returns no number: the
    division of the accumulated loss by [len(train_loader) = 0] raises
    ZeroDivisionError. *)
Theorem train_epoch_empty_raises
    (bert : (nat -> tensor) -> bool -> nat -> list (list Z) -> list (list Z) ->
            result (list mat))
    (bert_size : nat)
    (criterion : list vec -> list Z -> result pyfloat)
    (autograd : SarcasmDetector -> noise -> batch -> pname -> tensor)
    {S : Type} (update : S -> tensor -> tensor -> tensor * S) (s : world S) :
  fst (train_epoch bert bert_size criterion autograd update [] s) =
  Raise ZeroDivisionError.
Proof. reflexivity. Qed.

(* ================================================================== *)
(** * Further properties of the model and of the training code *)

(** ** In every outcome *)

Section Always.
Variable bert :
  (nat -> tensor) -> bool -> nat -> list (list Z) -> list (list Z) ->
  result (list mat).
Variable bert_size : nat.
Variable criterion : list vec -> list Z -> result pyfloat.
Variable autograd : SarcasmDetector -> noise -> batch -> pname -> tensor.
Context {S : Type}.
Variable update : S -> tensor -> tensor -> tensor * S.

(** X1: whatever its inputs and whether it returns or raises, [forward]
    leaves the model, the optimizer and the gradient mode as they were; in
    particular the gradient mode it suspends around the encoder call is
    restored also when the encoder raises. *)
Theorem forward_has_no_side_effect (s : world S) (w : noise)
    (ids mask : list (list Z)) :
  net (snd (forward bert bert_size w ids mask s)) = net s /\
  optim (snd (forward bert bert_size w ids mask s)) = optim s /\
  grad_mode (snd (forward bert bert_size w ids mask s)) = grad_mode s.
Proof.
  run.
  destruct (bert _ _ _ ids mask) as [emb|e]; run; [|auto].
  destruct (predictions_of (net s) w emb) as [preds|e]; run; auto.
Qed.

Lemma tracked_head_not_encoder (s : world S) (n : pname) :
  In n (tracked s head_param_names) -> is_encoder n = false.
Proof.
  unfold tracked. destruct (grad_mode s); [|contradiction].
  intros Hin. apply filter_In in Hin as [Hin _].
  now apply head_names_not_encoder.
Qed.

Lemma step_keeps_encoder (o : optimizer S) (m : SarcasmDetector)
    (reached : list pname) (g : pname -> tensor) (i : nat) :
  (forall n, In n reached -> is_encoder n = false) ->
  params (step_params update o (accumulate reached g (clear_grads o m)))
         (BertP i) = params m (BertP i).
Proof.
  intros Hreached.
  cbn [step_params params]. unfold updated.
  cbn [accumulate grad clear_grads params].
  assert (Hnot : existsb (pname_eqb (BertP i)) reached = false).
  { destruct (existsb _ _) eqn:E; [|reflexivity].
    apply existsb_pname, Hreached in E. discriminate E. }
  rewrite Hnot. now destruct (in_group o (BertP i)).
Qed.

Lemma train_step_frame (bw : batch * noise) (s : world S) :
  let s' := snd (train_step bert bert_size criterion autograd update bw s) in
  (forall i, params (net s') (BertP i) = params (net s) (BertP i)) /\
  requires_grad (net s') = requires_grad (net s) /\
  training (net s') = training (net s) /\
  dropout_rate (net s') = dropout_rate (net s) /\
  grad_mode s' = grad_mode s /\
  group (optim s') = group (optim s).
Proof.
  destruct bw as [b w]. cbn zeta. rewrite train_step_unfold. cbn zeta.
  destruct (bert _ _ _ _ _) as [emb|e]; [|cbn; auto 10].
  destruct (predictions_of _ w emb) as [preds|e]; [|cbn; auto 10].
  destruct (criterion preds (labels b)) as [l|e]; [|cbn; auto 10].
  pose proof (tracked_head_not_encoder s) as Hlv.
  destruct (tracked s head_param_names) as [|n rest]; [cbn; auto 10|].
  cbn [snd net optim grad_mode]. split; [|cbn; auto 10].
  intros i. now apply step_keeps_encoder.
Qed.

Lemma train_loop_frame (train_loader : list (batch * noise)) :
  forall (total : pyfloat) (s : world S),
    let s' := snd (train_loop bert bert_size criterion autograd update
                              train_loader total s) in
    (forall i, params (net s') (BertP i) = params (net s) (BertP i)) /\
    requires_grad (net s') = requires_grad (net s) /\
    training (net s') = training (net s) /\
    dropout_rate (net s') = dropout_rate (net s) /\
    grad_mode s' = grad_mode s /\
    group (optim s') = group (optim s).
Proof.
  induction train_loader as [|bw rest IH]; intros total s; cbn zeta.
  - cbn. auto 10.
  - cbn [train_loop]. unfold bind.
    pose proof (train_step_frame bw s) as Hstep. cbn zeta in Hstep.
    destruct (train_step bert bert_size criterion autograd update bw s)
      as [[l|e] s1]; cbn [snd] in Hstep |- *; [|exact Hstep].
    specialize (IH (fl_add total l) s1). cbn zeta in IH.
    destruct Hstep as (H1 & H2 & H3 & H4 & H5 & H6).
    destruct IH as (I1 & I2 & I3 & I4 & I5 & I6).
    split; [intros i; rewrite I1; apply H1|repeat split; congruence].
Qed.

(** X2: whatever the batches and whether it returns or raises,
    [train_epoch] changes no parameter of the encoder, no [requires_grad]
    flag and not the dropout rate, and it leaves the gradient mode and the
    optimizer's parameter group as they were. *)
Theorem train_epoch_frame (train_loader : list (batch * noise)) (s : world S) :
  let s' := snd (train_epoch bert bert_size criterion autograd update
                             train_loader s) in
  (forall i, params (net s') (BertP i) = params (net s) (BertP i)) /\
  requires_grad (net s') = requires_grad (net s) /\
  dropout_rate (net s') = dropout_rate (net s) /\
  grad_mode s' = grad_mode s /\
  group (optim s') = group (optim s).
Proof.
  cbn zeta.
  pose proof (train_loop_frame train_loader (Fl 0)
                {| net := train_mode (net s); optim := optim s;
                   grad_mode := grad_mode s; log := log s ++ [EvTrain] |})
    as Hloop.
  cbn zeta in Hloop.
  cbv [train_epoch model_train bind get set_net emit lift];
    cbn [fst snd net optim grad_mode log].
  destruct (train_loop bert bert_size criterion autograd update train_loader
                       (Fl 0) _) as [[total|e] s1];
    cbn [snd net optim grad_mode train_mode params requires_grad
         dropout_rate] in Hloop |- *;
    destruct Hloop as (H1 & H2 & _ & H4 & H5 & H6); auto.
Qed.

(** X3: whatever the batches and whether it returns or raises,
    [train_epoch] leaves the module and every submodule, the encoder
    included, in training mode: the mode set on line 74 is never reset. *)
Theorem train_epoch_leaves_training_mode
    (train_loader : list (batch * noise)) (s : world S) (sub : submodule) :
  training (net (snd (train_epoch bert bert_size criterion autograd update
                                  train_loader s))) sub = true.
Proof.
  pose proof (train_loop_frame train_loader (Fl 0)
                {| net := train_mode (net s); optim := optim s;
                   grad_mode := grad_mode s; log := log s ++ [EvTrain] |})
    as Hloop.
  cbn zeta in Hloop.
  cbv [train_epoch model_train bind get set_net emit lift];
    cbn [fst snd net optim grad_mode log].
  destruct (train_loop bert bert_size criterion autograd update train_loader
                       (Fl 0) _) as [[total|e] s1];
    cbn [snd net train_mode training] in Hloop |- *;
    destruct Hloop as (_ & _ & H3 & _); now rewrite H3.
Qed.
End Always.

(** ** Gradients, failures *)

Lemma optimizer_steps_app (a b : list event) :
  optimizer_steps (a ++ b) = (optimizer_steps a + optimizer_steps b)%nat.
Proof. unfold optimizer_steps. now rewrite filter_app, length_app. Qed.

Lemma optimizer_steps_passes (tr : bool) (ps : list pass) :
  optimizer_steps (flat_map (render tr) ps) = length ps.
Proof.
  induction ps as [|p ps IH]; [reflexivity|].
  cbn [flat_map length]. rewrite optimizer_steps_app, IH. reflexivity.
Qed.

Section Passes.
Variable bert :
  (nat -> tensor) -> bool -> nat -> list (list Z) -> list (list Z) ->
  result (list mat).
Variable bert_size : nat.
Variable criterion : list vec -> list Z -> result pyfloat.
Variable autograd : SarcasmDetector -> noise -> batch -> pname -> tensor.
Context {S : Type}.
Variable update : S -> tensor -> tensor -> tensor * S.

Lemma train_step_ok_state (b : batch) (w : noise) (s : world S) (l : pyfloat) :
  fst (train_step bert bert_size criterion autograd update (b, w) s) = Ok l ->
  let m2 := accumulate (tracked s head_param_names)
              (autograd (clear_grads (optim s) (net s)) w b)
              (clear_grads (optim s) (net s)) in
  net (snd (train_step bert bert_size criterion autograd update (b, w) s)) =
    step_params update (optim s) m2 /\
  optim (snd (train_step bert bert_size criterion autograd update (b, w) s)) =
    step_state update (optim s) m2.
Proof.
  rewrite train_step_unfold. cbn zeta.
  destruct (bert _ _ _ _ _) as [emb|e]; [|discriminate].
  destruct (predictions_of _ w emb) as [preds|e]; [|discriminate].
  destruct (criterion preds (labels b)) as [l'|e]; [|discriminate].
  destruct (tracked s head_param_names) as [|n rest]; [discriminate|].
  intros _. split; reflexivity.
Qed.

(** X4: after a pass that returned, a parameter that is being trained and
    that the optimizer holds carries the gradient of that batch alone,
    whatever gradient it held before: the gradients are cleared at the
    start of every pass and do not add up across batches. *)
Theorem gradient_is_of_this_batch (b : batch) (w : noise) (s : world S)
    (l : pyfloat) (n : pname) :
  fst (train_step bert bert_size criterion autograd update (b, w) s) = Ok l ->
  In n (tracked s head_param_names) ->
  in_group (optim s) n = true ->
  grad (net (snd (train_step bert bert_size criterion autograd update
                             (b, w) s))) n =
  Some (autograd (clear_grads (optim s) (net s)) w b n).
Proof.
  intros Hok Hn Hgroup.
  destruct (train_step_ok_state b w s l Hok) as [-> _].
  cbn [step_params grad accumulate clear_grads].
  apply existsb_pname in Hn. now rewrite Hn, Hgroup.
Qed.

(** X5: [zero_grad] is the optimizer's: a parameter that is being trained
    but that the optimizer was not given keeps its value, and its gradient
    adds up from batch to batch. *)
Theorem gradient_outside_group_adds_up (b : batch) (w : noise) (s : world S)
    (l : pyfloat) (n : pname) :
  fst (train_step bert bert_size criterion autograd update (b, w) s) = Ok l ->
  In n (tracked s head_param_names) ->
  in_group (optim s) n = false ->
  let s' := snd (train_step bert bert_size criterion autograd update
                            (b, w) s) in
  let g := autograd (clear_grads (optim s) (net s)) w b n in
  params (net s') n = params (net s) n /\
  grad (net s') n =
    Some (match grad (net s) n with
          | None => g
          | Some g0 => tensor_add g0 g
          end).
Proof.
  intros Hok Hn Hgroup. cbn zeta.
  destruct (train_step_ok_state b w s l Hok) as [-> _].
  cbn [step_params params grad accumulate clear_grads]. unfold updated.
  apply existsb_pname in Hn. rewrite Hn, Hgroup. split; [reflexivity|].
  now destruct (grad (net s) n).
Qed.

Hypothesis bert_ok : encoder_contract bert.
Hypothesis criterion_ok : criterion_contract criterion.

Lemma train_loop_app (a b : list (batch * noise)) :
  forall (total : pyfloat) (s : world S),
    train_loop bert bert_size criterion autograd update (a ++ b) total s =
    match train_loop bert bert_size criterion autograd update a total s with
    | (Ok t, s1) =>
        train_loop bert bert_size criterion autograd update b t s1
    | (Raise e, s1) => (Raise e, s1)
    end.
Proof.
  induction a as [|bw a IH]; intros total s; [reflexivity|].
  cbn [app train_loop]. unfold bind.
  destruct (train_step bert bert_size criterion autograd update bw s)
    as [[l|e] s1]; [apply IH|reflexivity].
Qed.

(** The outcome of the encoder and of the later layers on a token batch. *)
Lemma predictions_on_tokens (m : SarcasmDetector) (w : noise)
    (ids mask : list (list Z)) (B L : nat) :
  token_batch ids mask B L ->
  exists emb logits,
    bert (fun i => params m (BertP i)) (training m MBert) (bert_seed w)
         ids mask = Ok emb /\
    predictions_of m w emb = Ok (map softmax logits) /\
    shape logits B Arch.num_classes.
Proof.
  intros Htok.
  destruct (bert_ok (fun i => params m (BertP i)) (training m MBert)
              (bert_seed w) ids mask B L Htok) as (emb & Hemb & Hlen & Hshape).
  destruct Htok as (_ & _ & HL & _).
  destruct (predictions_ok m w emb L Hshape (proj1 HL))
    as (logits & _ & Hpred & Hs).
  exists emb, logits. rewrite <- Hlen. auto.
Qed.

(** X6: called where no gradient is tracked (inside [torch.no_grad()]),
    [train_epoch] raises RuntimeError at the first backward propagation and
    has changed no parameter and nothing in the optimizer. *)
Theorem train_epoch_without_grad_mode (bw : batch * noise)
    (rest : list (batch * noise)) (s : world S) :
  grad_mode s = false ->
  labelled_batch (fst bw) ->
  let r := train_epoch bert bert_size criterion autograd update
                       (bw :: rest) s in
  fst r = Raise RuntimeError /\
  params (net (snd r)) = params (net s) /\
  optim (snd r) = optim s /\
  optimizer_steps (log (snd r)) = optimizer_steps (log s).
Proof.
  intros Hgm (B & L & HB & Htok & Hlab & H01). destruct bw as [b w].
  cbn [fst] in *. cbn zeta.
  cbv [train_epoch model_train bind get set_net emit lift];
    cbn [fst snd net optim grad_mode log train_loop].
  unfold bind. rewrite train_step_unfold. cbn zeta.
  cbn [net optim grad_mode log train_mode params training].
  destruct (predictions_on_tokens
              (clear_grads (optim s) (train_mode (net s))) w
              (input_ids b) (attention_mask b) B L Htok)
    as (emb & logits & Hemb & Hpred & Hshape).
  cbn [clear_grads train_mode params training] in Hemb. rewrite Hemb, Hpred.
  destruct (softmax_rows logits B Hshape) as [Hsm Hdist].
  destruct (criterion_ok (map softmax logits) (labels b) B HB Hsm Hdist Hlab H01)
    as (l & -> & _).
  rewrite tracked_record, Hgm. cbn [fst snd net optim log clear_grads
                                    train_mode params].
  repeat split.
  rewrite !optimizer_steps_app. cbn. lia.
Qed.

(** X7: when the criterion raises on a batch, [train_epoch] raises the
    same exception at once: the batches after it are not touched, the
    optimizer has stepped once per batch before it and not for it, and the
    parameters are those reached after the batches before it. *)
Theorem train_epoch_stops_at_failure (good rest : list (batch * noise))
    (bad : batch) (w : noise) (s : world S) (B L : nat) (e : exn) :
  trainable s ->
  Forall (fun bw => labelled_batch (fst bw)) good ->
  token_batch (input_ids bad) (attention_mask bad) B L ->
  (forall inputs, shape inputs B Arch.num_classes ->
                  criterion inputs (labels bad) = Raise e) ->
  let r := train_epoch bert bert_size criterion autograd update
                       (good ++ (bad, w) :: rest) s in
  fst r = Raise e /\
  optimizer_steps (log (snd r)) =
    (optimizer_steps (log s) + length good)%nat /\
  params (net (snd r)) =
    params (net (snd (train_epoch bert bert_size criterion autograd update
                                  good s))).
Proof.
  intros Htr Hgood Htok Hbad. cbn zeta.
  destruct (train_loop_run bert bert_size criterion autograd update
              bert_ok criterion_ok good
              {| net := train_mode (net s); optim := optim s;
                 grad_mode := grad_mode s; log := log s ++ [EvTrain] |}
              0 Htr Hgood)
    as (ps & s1 & Hloop & Hbatches & _ & Hlog & _ & Htr1).
  cbv [train_epoch model_train bind get set_net emit lift];
    cbn [fst snd net optim grad_mode log].
  rewrite train_loop_app, Hloop. cbn [train_loop fst snd]. unfold bind.
  rewrite train_step_unfold. cbn zeta.
  destruct (predictions_on_tokens (clear_grads (optim s1) (net s1)) w
              (input_ids bad) (attention_mask bad) B L Htok)
    as (emb & logits & Hemb & Hpred & Hshape).
  cbn [clear_grads params training] in Hemb. rewrite Hemb, Hpred.
  rewrite (Hbad (map softmax logits)) by (now apply softmax_rows).
  cbn [fst snd net log clear_grads params].
  split; [reflexivity|]. split; [|reflexivity].
  rewrite Hlog. cbn [log net train_mode training].
  rewrite !optimizer_steps_app, optimizer_steps_passes.
  rewrite (passes_length ps good Hbatches). cbn. lia.
Qed.
End Passes.

Lemma dense_only_trainable : trainable Scenario.dense_only_start.
Proof. exact demo_trainable. Qed.

Lemma bad_label_rejected (inputs : list vec) :
  shape inputs 1 Arch.num_classes ->
  cross_entropy inputs (labels Scenario.bad_label_batch) = Raise IndexError.
Proof.
  intros [Hlen Hrows]. destruct inputs as [|row [|row' rest]];
    try discriminate Hlen.
  inversion Hrows as [|r l Hrow _]; subst.
  unfold cross_entropy. cbn [Scenario.bad_label_batch labels length Nat.eqb negb
                             combine filter snd fst Z.eqb ignore_index forallb].
  rewrite Hrow. reflexivity.
Qed.

Lemma gradient_is_of_this_batch_witness :
  exists l,
    fst (train_step Demo.zero_encoder Demo.bert_size cross_entropy
                    Demo.no_gradient Demo.sgd
                    (Demo.one_batch, Demo.keep_all) Demo.start) = Ok l /\
    grad (net (snd (train_step Demo.zero_encoder Demo.bert_size cross_entropy
                               Demo.no_gradient Demo.sgd
                               (Demo.one_batch, Demo.keep_all) Demo.start)))
         Dense2Bias =
    Some (Demo.no_gradient
            (clear_grads (optim Demo.start) (net Demo.start))
            Demo.keep_all Demo.one_batch Dense2Bias).
Proof.
  destruct (train_step_run Demo.zero_encoder Demo.bert_size cross_entropy
              Demo.no_gradient Demo.sgd
              zero_encoder_contract cross_entropy_contract
              Demo.start Demo.one_batch Demo.keep_all
              demo_trainable demo_labelled) as (logits & l & Hstep & _).
  cbn zeta in Hstep. exists (Fl l).
  assert (Hok : fst (train_step Demo.zero_encoder Demo.bert_size cross_entropy
                       Demo.no_gradient Demo.sgd
                       (Demo.one_batch, Demo.keep_all) Demo.start) = Ok (Fl l))
    by (now rewrite Hstep).
  split; [exact Hok|].
  apply (gradient_is_of_this_batch Demo.zero_encoder Demo.bert_size
           cross_entropy Demo.no_gradient Demo.sgd
           Demo.one_batch Demo.keep_all Demo.start (Fl l) Dense2Bias Hok).
  - apply existsb_pname. reflexivity.
  - reflexivity.
Defined.

Lemma gradient_outside_group_adds_up_witness :
  exists l,
    fst (train_step Demo.zero_encoder Demo.bert_size cross_entropy
                    Demo.no_gradient Demo.sgd
                    (Demo.one_batch, Demo.keep_all)
                    Scenario.dense_only_start) = Ok l /\
    let s' := snd (train_step Demo.zero_encoder Demo.bert_size cross_entropy
                              Demo.no_gradient Demo.sgd
                              (Demo.one_batch, Demo.keep_all)
                              Scenario.dense_only_start) in
    let g := Demo.no_gradient
               (clear_grads (optim Scenario.dense_only_start)
                            (net Scenario.dense_only_start))
               Demo.keep_all Demo.one_batch ConvWeight in
    params (net s') ConvWeight =
      params (net Scenario.dense_only_start) ConvWeight /\
    grad (net s') ConvWeight =
      Some (match grad (net Scenario.dense_only_start) ConvWeight with
            | None => g
            | Some g0 => tensor_add g0 g
            end).
Proof.
  destruct (train_step_run Demo.zero_encoder Demo.bert_size cross_entropy
              Demo.no_gradient Demo.sgd
              zero_encoder_contract cross_entropy_contract
              Scenario.dense_only_start Demo.one_batch Demo.keep_all
              dense_only_trainable demo_labelled) as (logits & l & Hstep & _).
  cbn zeta in Hstep. exists (Fl l).
  assert (Hok : fst (train_step Demo.zero_encoder Demo.bert_size cross_entropy
                       Demo.no_gradient Demo.sgd
                       (Demo.one_batch, Demo.keep_all)
                       Scenario.dense_only_start) = Ok (Fl l))
    by (now rewrite Hstep).
  split; [exact Hok|].
  apply (gradient_outside_group_adds_up Demo.zero_encoder Demo.bert_size
           cross_entropy Demo.no_gradient Demo.sgd
           Demo.one_batch Demo.keep_all Scenario.dense_only_start (Fl l)
           ConvWeight Hok).
  - apply existsb_pname. reflexivity.
  - reflexivity.
Defined.

Lemma train_epoch_without_grad_mode_witness :
  let r := train_epoch Demo.zero_encoder Demo.bert_size cross_entropy
                       Demo.no_gradient Demo.sgd
                       [(Demo.one_batch, Demo.keep_all)]
                       Scenario.no_grad_start in
  fst r = Raise RuntimeError /\
  params (net (snd r)) = params (net Scenario.no_grad_start) /\
  optim (snd r) = optim Scenario.no_grad_start /\
  optimizer_steps (log (snd r)) = optimizer_steps (log Scenario.no_grad_start).
Proof.
  apply (train_epoch_without_grad_mode Demo.zero_encoder Demo.bert_size
           cross_entropy Demo.no_gradient Demo.sgd
           zero_encoder_contract cross_entropy_contract
           (Demo.one_batch, Demo.keep_all) [] Scenario.no_grad_start).
  - reflexivity.
  - exact demo_labelled.
Defined.

Lemma train_epoch_stops_at_failure_witness :
  let r := train_epoch Demo.zero_encoder Demo.bert_size cross_entropy
                       Demo.no_gradient Demo.sgd
                       ([(Demo.one_batch, Demo.keep_all)] ++
                        (Scenario.bad_label_batch, Demo.keep_all) ::
                        [(Demo.one_batch, Demo.keep_all)])
                       Demo.start in
  fst r = Raise IndexError /\
  optimizer_steps (log (snd r)) = (optimizer_steps (log Demo.start) + 1)%nat /\
  params (net (snd r)) =
    params (net (snd (train_epoch Demo.zero_encoder Demo.bert_size
                                  cross_entropy Demo.no_gradient Demo.sgd
                                  [(Demo.one_batch, Demo.keep_all)]
                                  Demo.start))).
Proof.
  apply (train_epoch_stops_at_failure Demo.zero_encoder Demo.bert_size
           cross_entropy Demo.no_gradient Demo.sgd
           zero_encoder_contract cross_entropy_contract
           [(Demo.one_batch, Demo.keep_all)]
           [(Demo.one_batch, Demo.keep_all)]
           Scenario.bad_label_batch Demo.keep_all Demo.start 1 3 IndexError).
  - exact demo_trainable.
  - exact demo_loader_labelled.
  - exact demo_tokens.
  - exact bad_label_rejected.
Defined.

(** ** Dropout and the random draws *)

Lemma map_nth_seq (x : vec) : map (fun j => nth j x 0) (seq 0 (length x)) = x.
Proof.
  apply nth_ext with (d := 0) (d' := 0).
  - now rewrite length_map, length_seq.
  - intros n Hn. rewrite length_map, length_seq in Hn.
    rewrite (nth_indep _ 0 (nth 0 x 0)) by (now rewrite length_map, length_seq).
    rewrite (map_nth (fun j => nth j x 0)), seq_nth by exact Hn. reflexivity.
Qed.

Lemma dropout_off_id (tr : bool) (p : Q) (keep : nat -> bool) (x : vec) :
  dropout_off tr p -> dropout tr p keep x = x.
Proof.
  intros [->|Hp]; [reflexivity|]. unfold dropout. destruct tr; [|reflexivity].
  rewrite <- (map_nth_seq x) at 2. apply map_ext. intros j.
  unfold kept. rewrite Hp.
  apply Qeq_bool_iff, Qeq_eqR in Hp. rewrite Hp.
  unfold Q2R. cbn. field.
Qed.

Lemma mapM_ext {A B} (f g : A -> result B) (l : list A) :
  (forall a, In a l -> f a = g a) -> mapM f l = mapM g l.
Proof.
  induction l as [|a l IH]; intros Hfg; [reflexivity|].
  cbn [mapM]. rewrite (Hfg a (or_introl eq_refl)), IH; [reflexivity|].
  intros a' Ha'. apply Hfg. now right.
Qed.

(** X8: in evaluation mode, and also in training mode when the dropout rate
    is 0, what the layers after the encoder compute does not depend on the
    random draws: two forward computations on the same embeddings give the
    same output, or raise the same exception. *)
Theorem predictions_ignore_draws (m : SarcasmDetector) (w w' : noise)
    (embs : list mat) :
  dropout_off (training m MLstm) (dropout_rate m) ->
  dropout_off (training m MDropout) (dropout_rate m) ->
  predictions_of m w embs = predictions_of m w' embs.
Proof.
  intros Hlstm Hhead.
  unfold predictions_of, logits_of, aggregated_state.
  destruct (cnn_stage m embs) as [lstm_in|e]; [|reflexivity]. cbn [rbind].
  assert (Hstage : lstm_stage m w lstm_in = lstm_stage m w' lstm_in).
  { unfold lstm_stage. apply mapM_ext. intros bx _. unfold lstm.
    assert (Hmid : forall k,
      lstm_mid Arch.lstm_hidden_size (lstm_params m) (training m MLstm)
               (dropout_rate m) k (snd bx) =
      map snd (indexed (fst (lstm_layer Arch.lstm_hidden_size
                               (lstm_params m 0%nat false)
                               (lstm_params m 0%nat true) (snd bx))))).
    { intros k. unfold lstm_mid. apply map_ext. intros tr.
      now apply dropout_off_id. }
    now rewrite !Hmid. }
  rewrite Hstage.
  destruct (lstm_stage m w' lstm_in) as [r|e]; [|reflexivity]. cbn [rbind].
  destruct (final_hidden_of (map fst r)) as [fh|e]; [|reflexivity].
  cbn [rbind].
  assert (Hh : head_stage m w fh = head_stage m w' fh).
  { unfold head_stage.
    destruct (mapM _ fh) as [x|e]; [|reflexivity]. cbn [rbind].
    f_equal. apply map_ext. intros br. now rewrite !dropout_off_id. }
  now rewrite Hh.
Qed.

Lemma predictions_ignore_draws_witness :
  predictions_of (train_mode (assemble (fun _ => Demo.zeros)
                                       (fun _ => Demo.zeros) true 0))
                 Demo.keep_all Demo.two_embeddings =
  predictions_of (train_mode (assemble (fun _ => Demo.zeros)
                                       (fun _ => Demo.zeros) true 0))
                 {| bert_seed := 1;
                    lstm_keep := fun _ _ _ => false;
                    head_keep := fun _ _ => false |}
                 Demo.two_embeddings.
Proof.
  apply predictions_ignore_draws; right; reflexivity.
Defined.

Lemma dot_zero_vec (w : nat -> R) (x : vec) :
  (forall i, nth i x 0 = 0) -> dot w x = 0.
Proof.
  intros Hx. unfold dot. apply rsum_zero. intros i _. rewrite Hx. ring.
Qed.

Lemma nth_repeat_zero (n i : nat) : nth i (repeat 0 n) 0 = 0.
Proof.
  revert i. induction n as [|n IH]; intros [|i]; cbn; auto.
Qed.





(** X10: a batch of empty sequences does not get past the convolution: each
    sequence reaches it as 768 channels of length 0, whose padded length, 2,
    is less than the kernel size, and the layers after the encoder raise
    RuntimeError. *)
Theorem empty_sequences_are_refused (m : SarcasmDetector) (w : noise)
    (B : nat) :
  predictions_of m w (repeat [] (Datatypes.S B)) = Raise RuntimeError.
Proof.
  unfold predictions_of, logits_of, aggregated_state.
  now rewrite cnn_stage_empty_sequence.
Qed.

(** ** A parameter the output does not depend on *)

Lemma gate_from_zero (P P' : lstm_weights) (x : vec) (H r : nat) :
  weight_ih P = weight_ih P' -> bias_ih P = bias_ih P' ->
  bias_hh P = bias_hh P' ->
  gate P x (repeat 0 H) r = gate P' x (repeat 0 H) r.
Proof.
  intros Hw Hb Hb'. unfold gate. rewrite Hw, Hb, Hb'.
  now rewrite !(dot_zero_vec _ (repeat 0 H))
    by (intros i; apply nth_repeat_zero).
Qed.

Lemma cell_from_zero (P P' : lstm_weights) (x : vec) (H : nat) :
  weight_ih P = weight_ih P' -> bias_ih P = bias_ih P' ->
  bias_hh P = bias_hh P' ->
  lstm_cell H P x (zero_state H) = lstm_cell H P' x (zero_state H).
Proof.
  intros Hw Hb Hb'.
  pose proof (fun r => gate_from_zero P P' x H r Hw Hb Hb') as G.
  unfold lstm_cell, zero_state. cbn [fst snd].
  match goal with
  | |- (_, ?c) = (_, ?c') => assert (Hc : c = c')
  end.
  { apply map_ext. intros j. now rewrite !G. }
  rewrite Hc. f_equal. apply map_ext. intros j. now rewrite G.
Qed.

Lemma layer_last_ext (H : nat) (Pf Pb Pb' : lstm_weights) (ys : mat) :
  (forall y, lstm_cell H Pb y (zero_state H) =
             lstm_cell H Pb' y (zero_state H)) ->
  last_step (fst (lstm_layer H Pf Pb ys)) =
  last_step (fst (lstm_layer H Pf Pb' ys)).
Proof.
  intros Hcell. destruct ys as [|y0 ys0] using rev_ind; [reflexivity|].
  now rewrite !lstm_layer_last, Hcell.
Qed.

Lemma lstm_last_ext (in_size H : nat) (P P' : nat -> bool -> lstm_weights)
    (tr : bool) (p : Q) (keep : nat -> nat -> bool) (xs : mat) :
  P 0%nat false = P' 0%nat false -> P 0%nat true = P' 0%nat true ->
  P 1%nat false = P' 1%nat false ->
  (forall y, lstm_cell H (P 1%nat true) y (zero_state H) =
             lstm_cell H (P' 1%nat true) y (zero_state H)) ->
  match lstm in_size H P tr p keep xs, lstm in_size H P' tr p keep xs with
  | Ok r, Ok r' => last_step (fst r) = last_step (fst r')
  | Raise e, Raise e' => e = e'
  | _, _ => False
  end.
Proof.
  intros H00 H01 H10 Hcell. unfold lstm.
  destruct xs as [|x0 xs0]; [reflexivity|].
  set (xs := x0 :: xs0).
  destruct (forallb _ xs); [|reflexivity]. cbn [fst].
  assert (Hmid : lstm_mid H P tr p keep xs = lstm_mid H P' tr p keep xs).
  { unfold lstm_mid. now rewrite H00, H01. }
  rewrite Hmid, H10. now apply layer_last_ext.
Qed.

Lemma mapM_last_ext {A} (f f' : A -> result (mat * list vec)) (l : list A) :
  (forall a,
     match f a, f' a with
     | Ok r, Ok r' => last_step (fst r) = last_step (fst r')
     | Raise e, Raise e' => e = e'
     | _, _ => False
     end) ->
  match mapM f l, mapM f' l with
  | Ok rs, Ok rs' =>
      mapM last_step (map fst rs) = mapM last_step (map fst rs')
  | Raise e, Raise e' => e = e'
  | _, _ => False
  end.
Proof.
  intros Hrel. induction l as [|a l IH]; [reflexivity|].
  cbn [mapM]. specialize (Hrel a).
  destruct (f a) as [r|e], (f' a) as [r'|e']; try contradiction;
    cbn [rbind]; [|exact Hrel].
  destruct (mapM f l) as [rs|e], (mapM f' l) as [rs'|e']; try contradiction;
    cbn [rbind]; [|exact IH].
  cbn [map mapM]. now rewrite Hrel, IH.
Qed.

(** X11: the output does not depend on [lstm.weight_hh_l1_reverse]: the
    head reads only the last time step, where the backward direction of the
    last layer has made a single step from the zero state, so its
    hidden-to-hidden weights are multiplied by zero.  Two models that
    differ only in this tensor compute the same output on every input. *)
Theorem last_backward_recurrent_weights_are_dead (m m' : SarcasmDetector)
    (w : noise) (embs : list mat) :
  (forall n, n <> LstmP WeightHh 1 true -> params m n = params m' n) ->
  training m = training m' ->
  dropout_rate m = dropout_rate m' ->
  predictions_of m w embs = predictions_of m' w embs.
Proof.
  intros Hp Htr Hrate.
  assert (Hcnn : cnn_stage m embs = cnn_stage m' embs).
  { unfold cnn_stage.
    now rewrite (Hp ConvWeight), (Hp ConvBias) by discriminate. }
  assert (Hhead : forall fh, head_stage m w fh = head_stage m' w fh).
  { intros fh. unfold head_stage.
    now rewrite (Hp Dense1Weight), (Hp Dense1Bias), (Hp Dense2Weight),
      (Hp Dense2Bias), Htr, Hrate by discriminate. }
  assert (Hlayer : forall l r, (l, r) <> (1%nat, true) ->
            lstm_params m l r = lstm_params m' l r).
  { intros l r Hlr. unfold lstm_params.
    rewrite (Hp (LstmP WeightIh l r)), (Hp (LstmP BiasIh l r)),
      (Hp (LstmP BiasHh l r)) by discriminate.
    rewrite (Hp (LstmP WeightHh l r)); [reflexivity|].
    intros E. apply Hlr. now injection E as -> ->. }
  unfold predictions_of, logits_of, aggregated_state. rewrite Hcnn.
  destruct (cnn_stage m' embs) as [lstm_in|e]; [|reflexivity]. cbn [rbind].
  unfold final_hidden_of, lstm_stage.
  match goal with
  | |- context [mapM ?f (indexed lstm_in)] =>
      match goal with
      | |- _ = rbind (rbind (rbind (mapM ?f' (indexed lstm_in)) _) _) _ =>
          pose proof (mapM_last_ext f f' (indexed lstm_in)) as Hrel
      end
  end.
  cbn beta in Hrel.
  match type of Hrel with
  | ?A -> _ => assert (Ha : A)
  end.
  { intros bx. rewrite Htr, Hrate. apply lstm_last_ext.
    - apply Hlayer. discriminate.
    - apply Hlayer. discriminate.
    - apply Hlayer. discriminate.
    - intros y. apply cell_from_zero; cbn [lstm_params weight_ih bias_ih bias_hh];
        apply Hp; discriminate. }
  specialize (Hrel Ha).
  destruct (mapM _ (indexed lstm_in)) as [rs|e],
           (mapM _ (indexed lstm_in)) as [rs'|e'];
    try contradiction; cbn [rbind].
  - rewrite Hrel. destruct (mapM last_step (map fst rs')) as [fh|e];
      [|reflexivity].
    cbn [rbind]. now rewrite Hhead.
  - now subst.
Qed.

Lemma last_backward_recurrent_weights_are_dead_witness :
  predictions_of Demo.model Demo.keep_all Demo.two_embeddings =
  predictions_of Scenario.other_recurrent Demo.keep_all Demo.two_embeddings.
Proof.
  apply last_backward_recurrent_weights_are_dead.
  - intros n Hn. destruct n as [i| | |s l r| | | |]; try reflexivity.
    destruct s; try reflexivity.
    destruct l as [|[|l]]; try reflexivity.
    destruct r; try reflexivity. now contradiction Hn.
  - reflexivity.
  - reflexivity.
Defined.

(** ** The script *)

Lemma script_constructs (pretrained : nat -> tensor) (init : pname -> tensor) :
  construct (Ok pretrained) init model_params =
  Ok {| detector := assemble pretrained init true (3 # 10);
        head_p := PyFloat (3 # 10) |}.
Proof. reflexivity. Qed.

Section ScriptRun.
Variable bert :
  (nat -> tensor) -> bool -> nat -> list (list Z) -> list (list Z) ->
  result (list mat).
Variable bert_size : nat.
Variable autograd : SarcasmDetector -> noise -> batch -> pname -> tensor.
Context {S : Type}.
Variable update : S -> tensor -> tensor -> tensor * S.
Variable fresh : S.

Hypothesis bert_ok : encoder_contract bert.

Lemma initial_world_trainable (pretrained : nat -> tensor)
    (init : pname -> tensor) (p : Q) :
  trainable (initial_world bert_size fresh
                           (assemble pretrained init true p)).
Proof.
  split; [reflexivity|]. intros n Hn. apply head_names_not_encoder in Hn.
  cbn. now destruct n.
Qed.

Lemma epochs_loop_run (train_loader : nat -> list (batch * noise))
    (remaining : nat) :
  forall (epoch : nat) (printed : list line) (s : world S),
    trainable s ->
    (forall k, (epoch <= k < epoch + remaining)%nat ->
               train_loader k <> [] /\
               Forall (fun bw => labelled_batch (fst bw)) (train_loader k)) ->
    exists (loss : nat -> pyfloat) (s' : world S),
      epochs_loop bert bert_size autograd update train_loader epoch remaining
                  printed s =
      (Ok tt,
       (printed ++
        map (fun k => EpochLine (k + 1) num_epochs (loss k))
            (seq epoch remaining),
        s')) /\
      (forall i, params (net s') (BertP i) = params (net s) (BertP i)) /\
      optimizer_steps (log s') =
        (optimizer_steps (log s) +
         list_sum (map (fun k => length (train_loader k))
                       (seq epoch remaining)))%nat.
Proof.
  induction remaining as [|k IH]; intros epoch printed s Htr Hdata.
  - exists (fun _ => Fl 0), s. cbn [epochs_loop seq map list_sum].
    rewrite app_nil_r, Nat.add_0_r.
    split; [reflexivity|]. split; reflexivity.
  - destruct (Hdata epoch) as [Hne Hall]; [lia|].
    destruct (train_epoch_run bert bert_size cross_entropy autograd update
                bert_ok cross_entropy_contract (train_loader epoch) s Htr Hall)
      as (ps & s1 & Hrun & Hbatches & Hps & Hlog & Hframe & Htr1).
    pose proof (passes_length ps _ Hbatches) as Hlen.
    destruct (IH (Datatypes.S epoch)
                (printed ++
                 [EpochLine (epoch + 1) num_epochs
                    (Fl (rsum (map pass_loss ps) /
                         INR (length (train_loader epoch))))])
                s1 Htr1) as (loss & s' & Hloop & Hframe' & Hsteps).
    { intros j Hj. apply Hdata. lia. }
    exists (fun j => if (j =? epoch)%nat
                     then Fl (rsum (map pass_loss ps) /
                              INR (length (train_loader epoch)))
                     else loss j), s'.
    split; [|split].
    + cbn [epochs_loop]. rewrite Hrun.
      destruct (train_loader epoch) as [|bw rest] eqn:E; [congruence|].
      cbn [py_div length]. cbn [length] in Hloop. rewrite Hloop.
      rewrite <- app_assoc. cbn [seq map app]. rewrite Nat.eqb_refl.
      do 4 f_equal. apply map_ext_in. intros j Hj. apply in_seq in Hj.
      destruct (Nat.eqb_spec j epoch); [lia|reflexivity].
    + intros i. rewrite Hframe'. apply Hframe.
    + rewrite Hsteps, Hlog. cbn [seq map list_sum].
      change (EvTrain :: flat_map (render true) ps)
        with ([EvTrain] ++ flat_map (render true) ps).
      rewrite !optimizer_steps_app, optimizer_steps_passes, Hlen.
      change (optimizer_steps [EvTrain]) with 0%nat.
      unfold list_sum. cbn [fold_right]. lia.
Qed.


(** X14: under the same conditions the script ends with every parameter of
    the encoder equal to the pretrained snapshot it loaded, after one
    optimizer step per batch of each of the five epochs. *)
Theorem main_keeps_the_snapshot (cuda : bool)
    (train_loader : nat -> list (batch * noise))
    (pretrained : nat -> tensor) (init : pname -> tensor) :
  (forall k, (k < num_epochs)%nat ->
             train_loader k <> [] /\
             Forall (fun bw => labelled_batch (fst bw)) (train_loader k)) ->
  exists s',
    snd (snd (main bert bert_size autograd update fresh cuda
                   (Ok train_loader) (Ok pretrained) init)) = Some s' /\
    (forall i, params (net s') (BertP i) = pretrained i) /\
    optimizer_steps (log s') =
      list_sum (map (fun k => length (train_loader k)) (seq 0 num_epochs)).
Proof.
  intros Hdata.
  destruct (epochs_loop_run train_loader num_epochs 0
              ([UsingDevice cuda] ++ [TrainingModel])
              (initial_world bert_size fresh
                 (assemble pretrained init true (3 # 10)))
              (initial_world_trainable pretrained init (3 # 10)))
    as (loss & s' & Hloop & Hframe & Hsteps).
  { intros k Hk. apply Hdata. lia. }
  exists s'. unfold main. rewrite script_constructs. cbn zeta.
  cbn [detector]. rewrite Hloop. cbn [fst snd]. split; [reflexivity|]. split.
  - intros i. now rewrite Hframe.
  - exact Hsteps.
Qed.

(** X15: when the loader yields no batch, the script raises
    ZeroDivisionError in the first epoch: it has printed the device and
    "Training model..." but no epoch line, and no optimizer step was
    made. *)
Theorem main_on_empty_data (cuda : bool)
    (train_loader : nat -> list (batch * noise))
    (pretrained : nat -> tensor) (init : pname -> tensor) :
  train_loader 0%nat = [] ->
  exists s',
    main bert bert_size autograd update fresh cuda
         (Ok train_loader) (Ok pretrained) init =
    (Raise ZeroDivisionError,
     ([UsingDevice cuda; TrainingModel], Some s')) /\
    optimizer_steps (log s') = 0%nat /\
    params (net s') = params (assemble pretrained init true (3 # 10)).
Proof.
  intros Hempty. unfold main. rewrite script_constructs. cbn zeta.
  cbn [detector]. unfold num_epochs. cbn [epochs_loop]. rewrite Hempty.
  eexists. split; [reflexivity|]. split; reflexivity.
Qed.
End ScriptRun.

Lemma one_batch_loader_ok (k : nat) :
  (k < num_epochs)%nat ->
  Scenario.one_batch_loader k <> [] /\
  Forall (fun bw : batch * noise => labelled_batch (fst bw))
         (Scenario.one_batch_loader k).
Proof.
  intros _. split; [discriminate|exact demo_loader_labelled].
Qed.


Lemma main_keeps_the_snapshot_witness :
  exists s',
    snd (snd (main Demo.zero_encoder Demo.bert_size Demo.no_gradient Demo.sgd
                   tt true (Ok Scenario.one_batch_loader)
                   (Ok (fun _ => Demo.zeros)) (fun _ => Demo.zeros))) =
      Some s' /\
    (forall i, params (net s') (BertP i) = Demo.zeros) /\
    optimizer_steps (log s') =
      list_sum (map (fun k => length (Scenario.one_batch_loader k))
                    (seq 0 num_epochs)).
Proof.
  apply (main_keeps_the_snapshot Demo.zero_encoder Demo.bert_size
           Demo.no_gradient Demo.sgd tt zero_encoder_contract true
           Scenario.one_batch_loader (fun _ => Demo.zeros)
           (fun _ => Demo.zeros)).
  exact one_batch_loader_ok.
Defined.

Lemma main_on_empty_data_witness :
  exists s',
    main Demo.zero_encoder Demo.bert_size Demo.no_gradient Demo.sgd tt false
         (Ok Scenario.empty_loader) (Ok (fun _ => Demo.zeros))
         (fun _ => Demo.zeros) =
    (Raise ZeroDivisionError,
     ([UsingDevice false; TrainingModel], Some s')) /\
    optimizer_steps (log s') = 0%nat /\
    params (net s') =
      params (assemble (fun _ => Demo.zeros) (fun _ => Demo.zeros) true
                       (3 # 10)).
Proof.
  apply (main_on_empty_data Demo.zero_encoder Demo.bert_size
           Demo.no_gradient Demo.sgd tt false Scenario.empty_loader
           (fun _ => Demo.zeros) (fun _ => Demo.zeros)).
  reflexivity.
Defined.

(** ** Layout and range of the activations *)

Lemma nth_nil_zero (j : nat) : nth j (@nil R) 0 = 0.
Proof. now destruct j. Qed.

(** X16: the change of layout made before the convolution is undone by the
    one made after it: on a matrix with at least one row and one column,
    swapping the axes twice gives the matrix back. *)
Theorem permute_twice (x : mat) (r c : nat) :
  shape x r c -> (1 <= r)%nat -> (1 <= c)%nat -> permute (permute x) = x.
Proof.
  intros Hx Hr Hc.
  pose proof (permute_shape x r c Hx Hr) as Hp.
  unfold permute at 1. rewrite (shape_hd (permute x) c r Hp Hc).
  destruct Hx as [Hlen Hrows].
  apply nth_ext with (d := []) (d' := []).
  - now rewrite length_map, length_seq.
  - intros n Hn. rewrite length_map, length_seq in Hn.
    rewrite (nth_indep _ [] (map (fun row => nth 0 row 0) (permute x)))
      by (now rewrite length_map, length_seq).
    rewrite (map_nth (fun j => map (fun row => nth j row 0) (permute x))),
      seq_nth by exact Hn.
    cbn [Nat.add]. unfold permute.
    rewrite (shape_hd x r c (conj Hlen Hrows) Hr), map_map.
    assert (Hrow : length (nth n x []) = c).
    { rewrite Forall_forall in Hrows. apply Hrows, nth_In. lia. }
    transitivity (map (fun j => nth j (nth n x []) 0) (seq 0 c)).
    + apply map_ext. intros j.
      pose proof (map_nth (fun row : list R => nth j row 0) x [] n) as Hm.
      cbn beta in Hm. now rewrite nth_nil_zero in Hm.
    + rewrite <- Hrow. apply map_nth_seq.
Qed.

Lemma permute_twice_witness :
  permute (permute [[1; 2; 3]; [4; 5; 6]]) = [[1; 2; 3]; [4; 5; 6]].
Proof.
  apply (permute_twice [[1; 2; 3]; [4; 5; 6]] 2 3).
  - repeat constructor.
  - lia.
  - lia.
Defined.


(** ** The range of the aggregated state *)

Lemma sigmoid32_range (a : F32.arith) (v : F32.t) :
  F32.standard a ->
  F32.sigmoid a v = F32.NaN \/
  exists r, F32.sigmoid a v = F32.Fin r /\ 0 <= r <= 1.
Proof.
  intros Hstd. destruct v as [x| | |]; cbn [F32.sigmoid].
  - right. exact (F32.fsigmoid_range a Hstd x).
  - right. exists 1. split; [reflexivity|lra].
  - right. exists 0. split; [reflexivity|lra].
  - now left.
Qed.

Lemma tanh32_range (a : F32.arith) (v : F32.t) :
  F32.standard a ->
  F32.tanh a v = F32.NaN \/
  exists r, F32.tanh a v = F32.Fin r /\ - 1 <= r <= 1.
Proof.
  intros Hstd. destruct v as [x| | |]; cbn [F32.tanh].
  - right. exact (F32.ftanh_range a Hstd x).
  - right. exists 1. split; [reflexivity|lra].
  - right. exists (- 1). split; [reflexivity|lra].
  - now left.
Qed.

(** A hidden state entry: an output gate times a tanh. *)
Lemma hidden32_range (a : F32.arith) (g c : F32.t) :
  F32.standard a ->
  F32.mul a (F32.sigmoid a g) (F32.tanh a c) = F32.NaN \/
  exists r, F32.mul a (F32.sigmoid a g) (F32.tanh a c) = F32.Fin r /\
            - 1 <= r <= 1.
Proof.
  intros Hstd.
  destruct (sigmoid32_range a g Hstd) as [-> | (o & -> & Ho)]; [now left|].
  destruct (tanh32_range a c Hstd) as [-> | (t & -> & Ht)]; [now left|].
  right. cbn [F32.mul].
  apply (F32_rnd_between a (- 1) 1 (o * t) Hstd
           (F32.rnd_m1 a Hstd) (F32.rnd_1 a Hstd)).
  split; nra.
Qed.

Lemma lstm_scan32_range (a : F32.arith) (H : nat) (P : lstm_weights)
    (xs : mat32) (hc : vec32 * vec32) :
  F32.standard a ->
  Forall (Forall (fun v => v = F32.NaN \/
                           exists r, v = F32.Fin r /\ - 1 <= r <= 1))
         (fst (lstm_scan32 a H P xs hc)).
Proof.
  intros Hstd. revert hc.
  induction xs as [|x xs IH]; intros hc; cbn [lstm_scan32 fst].
  - constructor.
  - constructor; [|apply IH].
    unfold lstm_cell32. cbn [fst]. apply Forall_map, Forall_forall.
    intros j _. now apply hidden32_range.
Qed.

Lemma lstm_layer32_range (a : F32.arith) (H : nat) (Pf Pb : lstm_weights)
    (xs : mat32) :
  F32.standard a ->
  Forall (Forall (fun v => v = F32.NaN \/
                           exists r, v = F32.Fin r /\ - 1 <= r <= 1))
         (lstm_layer32 a H Pf Pb xs).
Proof.
  intros Hstd. unfold lstm_layer32. apply Forall_map, Forall_forall.
  intros [f b] Hin. cbn [fst snd]. apply Forall_app.
  pose proof (lstm_scan32_range a H Pf xs (zero_state32 H) Hstd) as Hf.
  pose proof (lstm_scan32_range a H Pb (rev xs) (zero_state32 H) Hstd) as Hb.
  rewrite Forall_forall in Hf, Hb. split.
  - apply Hf. eapply in_combine_l, Hin.
  - apply Hb, in_rev. eapply in_combine_r, Hin.
Qed.

(** X17: in binary32 arithmetic every entry of the aggregated state handed
    to the classifier head is NaN or a number between -1 and 1 (the bounds
    included), whatever the parameters, the input and the random draws. *)
Theorem aggregated_state_range (a : F32.arith) (m : SarcasmDetector)
    (w : noise) (embs : list mat32) (fh : list vec32) :
  F32.standard a ->
  aggregated_state32 a m w embs = Ok fh ->
  Forall (Forall (fun v => v = F32.NaN \/
                           exists r, v = F32.Fin r /\ - 1 <= r <= 1)) fh.
Proof.
  intros Hstd. unfold aggregated_state32, lstm_stage32.
  destruct (cnn_stage32 a m embs) as [lstm_in|e]; [|discriminate].
  cbn [rbind].
  destruct (mapM _ (indexed lstm_in)) as [out|e] eqn:Hout; [|discriminate].
  cbn [rbind]. intros Hfh. apply Forall_forall. intros v Hv.
  destruct (mapM_In _ _ _ Hfh v Hv) as (o & Ho & Hlast).
  destruct (mapM_In _ _ _ Hout o Ho) as (bx & _ & Hlstm).
  unfold lstm32 in Hlstm. destruct (snd bx) as [|x0 xs0] eqn:E; [discriminate|].
  rewrite <- E in *. destruct (forallb _ (snd bx)); [|discriminate].
  match type of Hlstm with
  | Ok (lstm_layer32 ?a ?H ?Pf ?Pb ?xs) = _ =>
      pose proof (lstm_layer32_range a H Pf Pb xs Hstd) as Hall;
      assert (Heq : o = lstm_layer32 a H Pf Pb xs) by congruence
  end.
  rewrite <- Heq in Hall. clear Hlstm Heq.
  unfold last_step32 in Hlast.
  destruct (rev o) as [|row rest] eqn:Erev; [discriminate|].
  assert (Hvrow : v = row) by congruence. subst v.
  pose proof (in_eq row rest) as Hrow. rewrite <- Erev in Hrow.
  apply in_rev in Hrow. rewrite Forall_forall in Hall. now apply Hall.
Qed.

Lemma aggregated_state_range_witness :
  exists fh,
    aggregated_state32 exact32 Demo.model Demo.keep_all
      [[repeat (F32.Fin 0) Arch.bert_dim; repeat (F32.Fin 0) Arch.bert_dim]] =
      Ok fh /\
    Forall (Forall (fun v => v = F32.NaN \/
                             exists r, v = F32.Fin r /\ - 1 <= r <= 1)) fh.
Proof.
  destruct (aggregated_state32_ok exact32 Demo.model Demo.keep_all
              [[repeat (F32.Fin 0) Arch.bert_dim;
                repeat (F32.Fin 0) Arch.bert_dim]] 2)
    as (fh & Hfh & _).
  - constructor; [|constructor]. split; [reflexivity|].
    repeat constructor; apply repeat_length.
  - lia.
  - exists fh. split; [exact Hfh|].
    exact (aggregated_state_range exact32 Demo.model Demo.keep_all _ fh
             exact32_standard Hfh).
Defined.
